(** * Lyric annotation and card generation pipeline

    A shallow embedding of the annotation / card-generation slice of the
    song-learning application:

    - [src/lib/ai/services.ts]: [extractJSON], [generateCardsFromLine],
      [parseLyrics], [parseLyricsBatch], [parseSingleLine];
    - [src/app/api/songs/import/route.ts]: the import handler with its
      [normalizePartOfSpeech] helper;
    - the card generation handler (POST /api/cards/generate);
    - [src/services/cards.service.ts]: [createCard],
      [getOrCreateProgress], [updateCardStatus], [getCardStats];
    - the rest of [src/lib/ai/services.ts]: [streamCardGeneration], the
      mock path of [parseLyrics] with [parseMockLyrics], [parseFurigana],
      and the role checks [hasRole] and [isAdmin] of the auth client and
      of the auth context ([src/lib/auth/index.ts]);
    - the progress route (POST and PATCH /api/cards/[id]/progress) and
      the grouping and statistics of GET /api/cards;
    - the client side: the stores [song-store.ts] and [card-store.ts],
      the study list and the statistics of the cards page, the rendering
      of a line with its furigana, and [src/middleware.ts].

    Conventions of the embedding.

    - A JavaScript string is the list of its UTF-16 code units ([N]);
      [text[i]], [indexOf], [slice] and [length] are list operations.
    - A value produced by [JSON.parse] is a [json] tree.  [undefined] is
      the [None] of an [option json]; JavaScript [null] is [JNull].
    - The language model is an oracle: every call answers with a
      [completion], either an exception or a reply with optional text.
    - Exceptions are explicit: a function that can throw returns a
      [result].
    - A JSON number is kept as the decimal of its literal; every
      operation on it goes through the double nearest to that decimal
      (module [Doubles]), as [JSON.parse] produces it.
    - Database tables are values threaded through the handlers.  A row
      holds the values as they are sent.  An insert or an update is
      checked as the schema and the engine check it: missing values of
      the columns declared NOT NULL, the length of the [varchar(100)]
      columns, the enumeration of [part_of_speech], the 32-bit range of
      the integer columns, text the engine cannot hold (a NUL character
      or a surrogate on its own), the unique index and the foreign keys
      of [card_progress].  The foreign keys of [cards.line_id] and of
      [lines.song_id] always hold where [createCard] and [createLines]
      are called: the handlers pass the id of a line they have just read
      or created, and of the song they have just created. *)

From Stdlib Require Import ZArith NArith Lia.
From stdpp Require Import base list gmap strings pretty sorting.

Set Default Proof Using "Type".
Set Warnings "-register-all".

(* ===================================================================== *)
(** ** JavaScript strings *)
(* ===================================================================== *)

Module JS.

Definition jsstring := list N.

(** Code units the parser and the scanner look at. *)
Definition QUOTE : N := 34.      (* double quote *)
Definition BACKSLASH : N := 92.
Definition LBRACE : N := 123.
Definition RBRACE : N := 125.
Definition LBRACKET : N := 91.
Definition RBRACKET : N := 93.
Definition COMMA : N := 44.
Definition COLON : N := 58.
Definition MINUS : N := 45.
Definition PLUS : N := 43.
Definition DOT : N := 46.
Definition SLASH : N := 47.

(** An ASCII literal as a JavaScript string. *)
Definition js (s : string) : jsstring :=
  map (fun a => Ascii.N_of_ascii a) (String.list_ascii_of_string s).

(** The same, with every apostrophe standing for a double quote, so that
    JSON texts can be written down legibly. *)
Definition jsq (s : string) : jsstring :=
  map (fun c => if (c =? 39)%N then QUOTE else c) (js s).

(** [text.indexOf(c)] for a single code unit; [None] is the [-1] of
    JavaScript. *)
Fixpoint indexOf (c : N) (text : jsstring) : option nat :=
  match text with
  | [] => None
  | x :: rest => if (x =? c)%N then Some 0 else S <$> indexOf c rest
  end.

(** [xs.slice(from, to)] for [0 <= from], [0 <= to]. *)
Definition slice {A} (from to : nat) (xs : list A) : list A :=
  take (to - from) (drop from xs).

(** [String.prototype.toLowerCase] restricted to the ASCII letters.  Code
    units outside ASCII are left alone; the only callers compare the
    result with ASCII words that contain no letter k, and no non-ASCII
    character lower-cases to any other ASCII letter, so the comparison
    comes out as in JavaScript. *)
Definition lower_unit (c : N) : N :=
  if ((65 <=? c) && (c <=? 90))%N then (c + 32)%N else c.

Definition toLowerCase (s : jsstring) : jsstring := map lower_unit s.

(** [words.includes(s)] *)
Definition is_one_of (s : jsstring) (words : list jsstring) : bool :=
  bool_decide (s ∈ words).

Definition is_high_surrogate (c : N) : bool := ((55296 <=? c) && (c <=? 56319))%N.
Definition is_low_surrogate (c : N) : bool := ((56320 <=? c) && (c <=? 57343))%N.

(** [hay.startsWith(needle)] *)
Fixpoint startsWith (needle hay : jsstring) : bool :=
  match needle, hay with
  | [], _ => true
  | _ :: _, [] => false
  | a :: needle', b :: hay' => (a =? b)%N && startsWith needle' hay'
  end.

(** [hay.includes(needle)] *)
Fixpoint includes (needle hay : jsstring) : bool :=
  startsWith needle hay ||
  match hay with
  | [] => false
  | _ :: hay' => includes needle hay'
  end.

End JS.
Export JS.

Arguments js : simpl never.
Arguments jsq : simpl never.

(* ===================================================================== *)
(** ** JSON values and [JSON.parse] *)
(* ===================================================================== *)

Module Json.

(** The values [JSON.parse] can produce.  A number is kept as the exact
    decimal [m * 10^e] of its literal and stands for the double nearest
    to it; what the code does with a number is computed on that double
    ([truthy] here, module [Doubles] for the rest).  The members of an
    object are in insertion order, which no property below depends
    on. *)
Inductive json :=
| JNull
| JBool (b : bool)
| JNum (m e : Z)
| JStr (s : jsstring)
| JArr (xs : list json)
| JObj (ms : list (jsstring * json)).

(** [CreateDataProperty]: overwrite the value of an existing key in place,
    append a new key at the end. *)
Fixpoint set_prop (k : jsstring) (v : json) (ms : list (jsstring * json))
  : list (jsstring * json) :=
  match ms with
  | [] => [(k, v)]
  | (k', v') :: rest =>
      if decide (k' = k) then (k, v) :: rest else (k', v') :: set_prop k v rest
  end.

Fixpoint lookup_prop (k : jsstring) (ms : list (jsstring * json)) : option json :=
  match ms with
  | [] => None
  | (k', v) :: rest => if decide (k' = k) then Some v else lookup_prop k rest
  end.

(** [v.k] for a property name [k] that no built-in prototype defines (all
    names read by the code are of this kind): own properties of an object,
    [undefined] on everything else.  Reading a property of [null] throws
    and is handled where it can happen. *)
Definition get_prop (k : string) (v : json) : option json :=
  match v with
  | JObj ms => lookup_prop (js k) ms
  | _ => None
  end.

(** A decimal [m * 10^e] converts to the double 0 exactly when it is 0 or
    its magnitude is at most 2^-1075 (round to nearest, ties to even). *)
Definition num_is_zero (m e : Z) : bool :=
  (m =? 0)%Z || ((e <? 0)%Z && (Z.abs m * 2 ^ 1075 <=? 10 ^ (- e))%Z).

(** [ToBoolean]. *)
Definition truthy (v : json) : bool :=
  match v with
  | JNull => false
  | JBool b => b
  | JNum m e => negb (num_is_zero m e)
  | JStr s => negb (bool_decide (s = []))
  | JArr _ | JObj _ => true
  end.

Definition truthy_opt (o : option json) : bool :=
  match o with Some v => truthy v | None => false end.

(** [a || b] *)
Definition js_or (a : option json) (b : json) : json :=
  match a with
  | Some v => if truthy v then v else b
  | None => b
  end.

End Json.
Export Json.

(* ===================================================================== *)
(** ** Numbers: the double nearest to a decimal *)
(* ===================================================================== *)

Module Doubles.

(** A double is written [n * 2^s], as the pair [(n, s)].  Infinity, the
    result of a decimal beyond the range of the doubles, is the large
    number its rounding gives here: it lies above every bound it is
    compared with, and truncates to a length that takes a whole list. *)
Definition double := (Z * Z)%type.

(** [floor (log2 (p / q))] for positive [p] and [q]. *)
Definition binary_exponent (p q : Z) : Z :=
  let c := (Z.log2 p - Z.log2 q)%Z in
  if (0 <=? c)%Z
  then (if (q * 2 ^ c <=? p)%Z then c else c - 1)%Z
  else (if (q <=? p * 2 ^ (- c))%Z then c else c - 1)%Z.

(** The double nearest to [p / q], for positive [p] and [q]: 53 bits of
    mantissa, no exponent below -1074, ties to the even mantissa. *)
Definition round_nearest (p q : Z) : double :=
  let k := binary_exponent p q in
  let s := Z.max (k - 52) (-1074) in
  let a := if (s <? 0)%Z then (p * 2 ^ (- s))%Z else p in
  let b := if (s <? 0)%Z then q else (q * 2 ^ s)%Z in
  let n := (a / b)%Z in
  let r := (a mod b)%Z in
  let n' :=
    if (2 * r <? b)%Z then n
    else if (b <? 2 * r)%Z then (n + 1)%Z
    else if Z.even n then n else (n + 1)%Z in
  (n', s).

(** The double of the JSON number [m * 10^e]. *)
Definition to_double (m e : Z) : double :=
  if (m =? 0)%Z then (0, 0)%Z
  else
    let p := if (0 <=? e)%Z then (Z.abs m * 10 ^ e)%Z else Z.abs m in
    let q := if (0 <=? e)%Z then 1%Z else (10 ^ (- e))%Z in
    let '(n, s) := round_nearest p q in
    (Z.sgn m * n, s)%Z.

(** [k <= d] and [d <= k] for an integer [k]. *)
Definition int_leb_double (k : Z) (d : double) : bool :=
  if (0 <=? d.2)%Z then (k <=? d.1 * 2 ^ d.2)%Z
  else (k * 2 ^ (- d.2) <=? d.1)%Z.

Definition double_leb_int (d : double) (k : Z) : bool :=
  if (0 <=? d.2)%Z then (d.1 * 2 ^ d.2 <=? k)%Z
  else (d.1 <=? k * 2 ^ (- d.2))%Z.

(** [ToIntegerOrInfinity]: truncation towards zero. *)
Definition double_trunc (d : double) : Z :=
  if (0 <=? d.2)%Z then (d.1 * 2 ^ d.2)%Z else Z.quot d.1 (2 ^ (- d.2)).

(** [Number.isInteger] *)
Definition double_is_integer (d : double) : bool :=
  (0 <=? d.2)%Z || (d.1 mod 2 ^ (- d.2) =? 0)%Z.

(** The value of a number that is an integer of 32 bits, as a column of
    type [integer] takes it. *)
Definition int32_value (m e : Z) : option Z :=
  let d := to_double m e in
  let v := double_trunc d in
  if double_is_integer d && (- 2147483648 <=? v)%Z && (v <=? 2147483647)%Z
  then Some v else None.

End Doubles.
Export Doubles.

Module JsonParse.

(** Insignificant white space of the JSON grammar. *)
Definition is_ws (c : N) : bool :=
  ((c =? 32) || (c =? 9) || (c =? 10) || (c =? 13))%N.

Fixpoint skip_ws (s : jsstring) : jsstring :=
  match s with
  | c :: rest => if is_ws c then skip_ws rest else s
  | [] => []
  end.

Definition is_digit (c : N) : bool := ((48 <=? c) && (c <=? 57))%N.

Definition hex_val (c : N) : option N :=
  if is_digit c then Some (c - 48)%N
  else if ((97 <=? c) && (c <=? 102))%N then Some (c - 87)%N
  else if ((65 <=? c) && (c <=? 70))%N then Some (c - 55)%N
  else None.

(** The longest prefix of decimal digits, as digit values. *)
Fixpoint take_digits (s : jsstring) : list Z * jsstring :=
  match s with
  | c :: rest =>
      if is_digit c
      then let '(ds, rest') := take_digits rest in (Z.of_N c - 48 :: ds, rest')%Z
      else ([], s)
  | [] => ([], [])
  end.

Definition digits_value (ds : list Z) : Z :=
  fold_left (fun acc d => 10 * acc + d)%Z ds 0%Z.

(** The integer part: a single 0, or a non-empty run of digits that does
    not start with 0. *)
Definition parse_int_part (s : jsstring) : option (list Z * jsstring) :=
  match s with
  | c :: rest =>
      if (c =? 48)%N then Some ([0%Z], rest)
      else if is_digit c then Some (take_digits s)
      else None
  | [] => None
  end.

Definition parse_frac_part (s : jsstring) : option (list Z * jsstring) :=
  match s with
  | c :: rest =>
      if (c =? DOT)%N then
        match take_digits rest with
        | ([], _) => None
        | (ds, rest') => Some (ds, rest')
        end
      else Some ([], s)
  | [] => Some ([], [])
  end.

Definition parse_exp_digits (neg : bool) (s : jsstring) : option (Z * jsstring) :=
  match take_digits s with
  | ([], _) => None
  | (ds, rest) =>
      Some ((if neg then - digits_value ds else digits_value ds)%Z, rest)
  end.

Definition parse_exp_part (s : jsstring) : option (Z * jsstring) :=
  match s with
  | c :: rest =>
      if ((c =? 101) || (c =? 69))%N then
        match rest with
        | sg :: rest' =>
            if (sg =? PLUS)%N then parse_exp_digits false rest'
            else if (sg =? MINUS)%N then parse_exp_digits true rest'
            else parse_exp_digits false rest
        | [] => None
        end
      else Some (0%Z, s)
  | [] => Some (0%Z, [])
  end.

(** number ::= -? int frac? exp? *)
Definition parse_number (s : jsstring) : option (json * jsstring) :=
  let '(neg, s1) :=
    match s with
    | c :: rest => if (c =? MINUS)%N then (true, rest) else (false, s)
    | [] => (false, s)
    end in
  '(ints, s2) ← parse_int_part s1;
  '(fracs, s3) ← parse_frac_part s2;
  '(ex, s4) ← parse_exp_part s3;
  let m := digits_value (ints ++ fracs) in
  Some (JNum (if neg then - m else m) (ex - Z.of_nat (length fracs)), s4).

(** The characters of a string literal after its opening quote, up to and
    including the closing quote. *)
Fixpoint parse_string_body (s : jsstring) : option (jsstring * jsstring) :=
  match s with
  | [] => None
  | c :: rest =>
      if (c =? QUOTE)%N then Some ([], rest)
      else if (c =? BACKSLASH)%N then
        match rest with
        | [] => None
        | x :: rest1 =>
            if (x =? 117)%N then (* \uXXXX *)
              match rest1 with
              | h1 :: h2 :: h3 :: h4 :: rest2 =>
                  match hex_val h1, hex_val h2, hex_val h3, hex_val h4 with
                  | Some a, Some b, Some c', Some d =>
                      '(body, rest3) ← parse_string_body rest2;
                      Some ((((a * 16 + b) * 16 + c') * 16 + d)%N :: body, rest3)
                  | _, _, _, _ => None
                  end
              | _ => None
              end
            else
              let unit :=
                if (x =? QUOTE)%N then Some QUOTE
                else if (x =? BACKSLASH)%N then Some BACKSLASH
                else if (x =? SLASH)%N then Some SLASH
                else if (x =? 98)%N then Some 8%N
                else if (x =? 102)%N then Some 12%N
                else if (x =? 110)%N then Some 10%N
                else if (x =? 114)%N then Some 13%N
                else if (x =? 116)%N then Some 9%N
                else None in
              match unit with
              | Some u =>
                  '(body, rest2) ← parse_string_body rest1;
                  Some (u :: body, rest2)
              | None => None
              end
        end
      else if (c <? 32)%N then None
      else
        '(body, rest1) ← parse_string_body rest;
        Some (c :: body, rest1)
  end.

(** A keyword such as [true]. *)
Fixpoint strip_prefix (p s : jsstring) : option jsstring :=
  match p, s with
  | [], _ => Some s
  | a :: p', b :: s' => if (a =? b)%N then strip_prefix p' s' else None
  | _ :: _, [] => None
  end.

(** A value that is not an object or an array, from its first code unit
    [c] on: a string, a keyword or a number. *)
Definition parse_scalar (c : N) (rest : jsstring) : option (json * jsstring) :=
  if (c =? QUOTE)%N then
    '(str, rest') ← parse_string_body rest;
    Some (JStr str, rest')
  else if (c =? 116)%N then
    rest' ← strip_prefix (js "true") (c :: rest); Some (JBool true, rest')
  else if (c =? 102)%N then
    rest' ← strip_prefix (js "false") (c :: rest); Some (JBool false, rest')
  else if (c =? 110)%N then
    rest' ← strip_prefix (js "null") (c :: rest); Some (JNull, rest')
  else parse_number (c :: rest).

(** value, elements of an array after its opening bracket, members of an
    object after its opening brace.  Every call spends one unit of fuel;
    [JSON_parse] below supplies more than any text can use (lemma
    [parse_value_fuel]). *)
Fixpoint parse_value (fuel : nat) (s : jsstring) : option (json * jsstring) :=
  match fuel with
  | O => None
  | S fuel' =>
      match skip_ws s with
      | [] => None
      | c :: rest =>
          if (c =? LBRACE)%N then
            match skip_ws rest with
            | c' :: rest' =>
                if (c' =? RBRACE)%N then Some (JObj [], rest')
                else parse_members fuel' rest []
            | [] => None
            end
          else if (c =? LBRACKET)%N then
            match skip_ws rest with
            | c' :: rest' =>
                if (c' =? RBRACKET)%N then Some (JArr [], rest')
                else parse_elements fuel' rest []
            | [] => None
            end
          else parse_scalar c rest
      end
  end
with parse_elements (fuel : nat) (s : jsstring) (acc : list json)
  : option (json * jsstring) :=
  match fuel with
  | O => None
  | S fuel' =>
      '(v, rest) ← parse_value fuel' s;
      match skip_ws rest with
      | c :: rest' =>
          if (c =? COMMA)%N then parse_elements fuel' rest' (acc ++ [v])
          else if (c =? RBRACKET)%N then Some (JArr (acc ++ [v]), rest')
          else None
      | [] => None
      end
  end
with parse_members (fuel : nat) (s : jsstring) (acc : list (jsstring * json))
  : option (json * jsstring) :=
  match fuel with
  | O => None
  | S fuel' =>
      match skip_ws s with
      | q :: rest =>
          if (q =? QUOTE)%N then
            '(key, rest1) ← parse_string_body rest;
            match skip_ws rest1 with
            | c :: rest2 =>
                if (c =? COLON)%N then
                  '(v, rest3) ← parse_value fuel' rest2;
                  match skip_ws rest3 with
                  | c' :: rest4 =>
                      if (c' =? COMMA)%N
                      then parse_members fuel' rest4 (set_prop key v acc)
                      else if (c' =? RBRACE)%N
                      then Some (JObj (set_prop key v acc), rest4)
                      else None
                  | [] => None
                  end
                else None
            | [] => None
            end
          else None
      | [] => None
      end
  end.

(** [JSON.parse(text)]; [None] stands for the [SyntaxError] it throws. *)
Definition JSON_parse (text : jsstring) : option json :=
  match parse_value (2 * length text + 2) text with
  | Some (v, rest) =>
      match skip_ws rest with
      | [] => Some v
      | _ :: _ => None
      end
  | None => None
  end.

End JsonParse.
Export JsonParse.

(* ===================================================================== *)
(** ** [src/lib/ai/services.ts]: JSON extraction *)
(* ===================================================================== *)

Module JsonExtract.

(** The [for] loop of [extractJSON], started at [i = startIndex] with
    [rest] the code units [text[i]], [text[i+1]], ...  Falling off the end
    of the text is the "Incomplete JSON" exit. *)
Fixpoint scan (text : jsstring) (startIndex : nat)
    (rest : jsstring) (i : nat)
    (braceCount : Z) (inString escapeNext : bool) : json :=
  match rest with
  | [] => JNull
  | char :: rest' =>
      if escapeNext then
        scan text startIndex rest' (S i) braceCount inString false
      else if (char =? BACKSLASH)%N && inString then
        scan text startIndex rest' (S i) braceCount inString true
      else if (char =? QUOTE)%N then
        scan text startIndex rest' (S i) braceCount (negb inString) false
      else if inString then
        scan text startIndex rest' (S i) braceCount inString false
      else
        let braceCount1 :=
          if (char =? LBRACE)%N then (braceCount + 1)%Z else braceCount in
        if (char =? RBRACE)%N then
          let braceCount2 := (braceCount1 - 1)%Z in
          if (braceCount2 =? 0)%Z then
            let jsonStr := slice startIndex (i + 1) text in
            match JSON_parse jsonStr with
            | Some v => v
            | None => JNull
            end
          else scan text startIndex rest' (S i) braceCount2 inString false
        else scan text startIndex rest' (S i) braceCount1 inString false
  end.

(** The part of [extractJSON] after the first [try]: find the first
    opening brace and walk from there. *)
Definition extract_from_first_brace (text : jsstring) : json :=
  match indexOf LBRACE text with
  | None => JNull
  | Some startIndex =>
      scan text startIndex (drop startIndex text) startIndex 0 false false
  end.

(** [extractJSON(text)]: the parsed value, or [JNull] for [null]. *)
Definition extractJSON (text : jsstring) : json :=
  match JSON_parse text with
  | Some v => v
  | None => extract_from_first_brace text
  end.

(** The scan as the description of the algorithm words it: walk the code
    units from the first opening brace, tracking a brace-depth counter and
    a string-literal state (toggled by quotes, a backslash inside a string
    skipping the next code unit), until the closing brace that brings the
    depth back to zero; its position is the result. *)
Fixpoint closing_brace (rest : jsstring) (i : nat)
    (braceCount : Z) (inString escapeNext : bool) : option nat :=
  match rest with
  | [] => None
  | char :: rest' =>
      if escapeNext then closing_brace rest' (S i) braceCount inString false
      else if (char =? BACKSLASH)%N && inString then
        closing_brace rest' (S i) braceCount inString true
      else if (char =? QUOTE)%N then
        closing_brace rest' (S i) braceCount (negb inString) false
      else if inString then closing_brace rest' (S i) braceCount inString false
      else
        let braceCount1 :=
          if (char =? LBRACE)%N then (braceCount + 1)%Z else braceCount in
        if (char =? RBRACE)%N then
          if (braceCount1 - 1 =? 0)%Z then Some i
          else closing_brace rest' (S i) (braceCount1 - 1) inString false
        else closing_brace rest' (S i) braceCount1 inString false
  end.

(** The balanced substring that starts at the first opening brace, which
    the description then has parsed. *)
Definition balanced_substring (text : jsstring) : option jsstring :=
  startIndex ← indexOf LBRACE text;
  i ← closing_brace (drop startIndex text) startIndex 0 false false;
  Some (slice startIndex (i + 1) text).

End JsonExtract.
Export JsonExtract.

(* ===================================================================== *)
(** ** [src/lib/ai/services.ts]: calls to the language model *)
(* ===================================================================== *)

Module Services.

(** What [await openai.chat.completions.create(...)] does: throw, or
    return a completion whose first choice has an optional text. *)
Inductive completion :=
| ApiError
| Reply (content : option jsstring).

(** [completion.choices[0]?.message?.content || ''] *)
Definition reply_text (content : option jsstring) : jsstring :=
  default [] content.

(** The errors that leave a function of the pipeline. *)
Inductive error :=
| CardGenerationFailed   (* thrown by the catch of generateCardsFromLine *)
| LyricsParsingFailed    (* thrown by the catch of parseLyricsBatch *)
| LineParsingFailed      (* thrown by the catch of parseSingleLine *)
| TypeError              (* raised by the runtime on an ill-typed value *)
| DatabaseError          (* a statement rejected by the database *)
| DatabaseErrorApiKey    (* the same, its message quoting the words 'API key' *)
| NoValuesToSet.         (* thrown by the query builder for an empty update *)

Inductive result (A : Type) :=
| Ok (a : A)
| Err (e : error).
Arguments Ok {A} a.
Arguments Err {A} e.

(** [AI_CONFIG.lyricsParser.batchSize] *)
Definition batchSize : nat := 8.

(** Keys of the own enumerable properties copied by an object spread
    [{...v}]: members of an object, indices of an array or of a string,
    nothing for the other values. *)
Definition index_key (i : nat) : jsstring := js (pretty i).

Definition own_props (v : json) : list (jsstring * json) :=
  match v with
  | JObj ms => ms
  | JArr xs => imap (fun i x => (index_key i, x)) xs
  | JStr s => imap (fun i c => (index_key i, JStr [c])) s
  | _ => []
  end.

Definition num (n : nat) : json := JNum (Z.of_nat n) 0.

(** [{ ...line, lineNumber: n }] *)
Definition with_lineNumber (line : json) (n : nat) : json :=
  JObj (set_prop (js "lineNumber") (num n) (own_props line)).

(** [parseLyricsBatch(lyrics, startIndex)], given the answer of the model
    to its one request.  Anything thrown inside the [try] is replaced by
    the error of the [catch]; [lines.map] throws unless [lines] is an
    array. *)
Definition parseLyricsBatch (answer : completion)
    (lyrics : list jsstring) (startIndex : nat) : result (list json) :=
  match answer with
  | ApiError => Err LyricsParsingFailed
  | Reply content =>
      let text := reply_text content in
      let parsed := extractJSON text in
      if negb (truthy parsed) then Err LyricsParsingFailed
      else
        match js_or (get_prop "lines" parsed) (JArr []) with
        | JArr lines =>
            Ok (imap (fun i line => with_lineNumber line (startIndex + i + 1)) lines)
        | _ => Err LyricsParsingFailed
        end
  end.

(** The record pushed for line [j] of a batch that failed. *)
Definition placeholder (batchStartIndex j : nat) (line : jsstring) : json :=
  JObj [ (js "lineNumber", num (batchStartIndex + j + 1));
         (js "contentJa", JStr line);
         (js "contentZh", JStr (js ""));
         (js "furigana", JStr (js "[]"));
         (js "tokens", JStr (js "[]")) ].

(** The body of one iteration of the loop of [parseLyrics]: what is pushed
    onto [results] for the batch that starts at [i]. *)
Definition batch_results (answer : completion)
    (batch : list jsstring) (batchStartIndex : nat) : list json :=
  match parseLyricsBatch answer batch batchStartIndex with
  | Ok batchResults => batchResults
  | Err _ => imap (placeholder batchStartIndex) batch
  end.

(** The model as seen by [parseLyrics]: the answer to the request made for
    the batch that starts at a given index. *)
Definition lyrics_model := nat -> list jsstring -> completion.

(** [for (let i = ...; i < lyrics.length; i += batchSize)]; each unit of
    fuel is one test of the loop condition. *)
Fixpoint parseLyrics_loop (fuel : nat) (llm : lyrics_model)
    (lyrics : list jsstring) (i : nat) (results : list json) : list json :=
  match fuel with
  | O => results
  | S fuel' =>
      if bool_decide (i < length lyrics) then
        let batch := slice i (i + batchSize) lyrics in
        let batchStartIndex := i in
        parseLyrics_loop fuel' llm lyrics (i + batchSize)
          (results ++ batch_results (llm batchStartIndex batch) batch batchStartIndex)
      else results
  end.

(** [parseLyrics(lyrics)] outside mock mode.  The loop runs at most
    [lyrics.length] times (lemma [parseLyrics_loop_fuel]). *)
Definition parseLyrics (llm : lyrics_model) (lyrics : list jsstring) : list json :=
  parseLyrics_loop (length lyrics) llm lyrics 0 [].

(** [generateCardsFromLine(line)] outside mock mode, given the answer of
    the model.  The value returned is [parsed.cards || []] as it is. *)
Definition generateCardsFromLine (answer : completion) : result json :=
  match answer with
  | ApiError => Err CardGenerationFailed
  | Reply content =>
      let text := reply_text content in
      let parsed := extractJSON text in
      if negb (truthy parsed) then Err CardGenerationFailed
      else Ok (js_or (get_prop "cards" parsed) (JArr []))
  end.

Record SingleLine := {
  sl_contentZh : json;
  sl_furigana : list json;
  sl_tokens : list json
}.

(** [Array.isArray(v) ? v : []] *)
Definition array_or_empty (v : option json) : list json :=
  match v with
  | Some (JArr xs) => xs
  | _ => []
  end.

(** [parseSingleLine(contentJa)] outside mock mode. *)
Definition parseSingleLine (answer : completion) : result SingleLine :=
  match answer with
  | ApiError => Err LineParsingFailed
  | Reply content =>
      let text := reply_text content in
      let result := extractJSON text in
      if negb (truthy result) then Err LineParsingFailed
      else Ok {| sl_contentZh := js_or (get_prop "contentZh" result) (JStr (js ""));
                 sl_furigana := array_or_empty (get_prop "furigana" result);
                 sl_tokens := array_or_empty (get_prop "tokens" result) |}
  end.

End Services.
Export Services.

(* ===================================================================== *)
(** ** [src/services/cards.service.ts] *)
(* ===================================================================== *)

Module CardsService.

(** [CreateCardInput] as it exists at run time: every optional or
    model-supplied field is a JSON value or [undefined]. *)
Record CreateCardInput := {
  in_lineId : nat;
  in_word : option json;
  in_reading : option json;
  in_meaning : option json;
  in_partOfSpeech : option json;
  in_exampleSentence : option json;
  in_exampleTranslation : option json;
  in_audioClipUrl : option json;
  in_wordPosition : option json
}.

(** A row of the [cards] table. *)
Record Card := {
  card_lineId : nat;
  card_word : option json;
  card_reading : option json;
  card_meaning : option json;
  card_partOfSpeech : option json;
  card_exampleSentence : option json;
  card_exampleTranslation : option json;
  card_audioClipUrl : option json;
  card_wordPosition : option json
}.

(** The values of the insert made by [createCard]. *)
Definition new_card (input : CreateCardInput) : Card :=
  {| card_lineId := in_lineId input;
     card_word := in_word input;
     card_reading := in_reading input;
     card_meaning := in_meaning input;
     card_partOfSpeech :=
       Some (js_or (in_partOfSpeech input) (JStr (js "other")));
     card_exampleSentence := in_exampleSentence input;
     card_exampleTranslation := in_exampleTranslation input;
     card_audioClipUrl := in_audioClipUrl input;
     card_wordPosition := in_wordPosition input |}.

(** The labels of the enumeration [part_of_speech] in the schema. *)
Definition partOfSpeechEnum : list jsstring :=
  [js "noun"; js "verb"; js "adjective"; js "adverb"; js "particle"; js "other"].

(** The check of the column [part_of_speech]: the value sent has to be one
    of the labels. *)
Definition enum_accepts (v : option json) : bool :=
  match v with
  | Some (JStr s) => is_one_of s partOfSpeechEnum
  | _ => false
  end.

(** *** What the database takes *)

(** Text the engine can hold: no NUL character, and no surrogate that is
    not half of a pair. *)
Fixpoint storable_text (s : jsstring) : bool :=
  match s with
  | [] => true
  | c :: rest =>
      if (c =? 0)%N then false
      else if is_high_surrogate c then
        match rest with
        | d :: rest' => is_low_surrogate d && storable_text rest'
        | [] => false
        end
      else if is_low_surrogate c then false
      else storable_text rest
  end.

(** The number of characters of a storable text: a pair of surrogates is
    one character. *)
Definition char_length (s : jsstring) : nat :=
  length (filter (fun c => is_low_surrogate c = false) s).

(** A column declared NOT NULL: [undefined] is sent as the default of the
    column, which is NULL here, and [null] as NULL. *)
Definition not_null (v : option json) : bool :=
  match v with
  | None | Some JNull => false
  | Some _ => true
  end.

(** A value sent for a column of type [text]: a string has to be
    storable.  A value of another type is sent as the text the driver
    makes of it, which is taken to be stored. *)
Definition text_accepts (v : option json) : bool :=
  match v with
  | Some (JStr s) => storable_text s
  | _ => true
  end.

(** The same for [varchar(100)]: at most 100 characters. *)
Definition varchar100_accepts (v : option json) : bool :=
  match v with
  | Some (JStr s) => storable_text s && bool_decide (char_length s <= 100)
  | _ => true
  end.

(** A value sent for a column of type [jsonb]: every string in it, member
    names included, has to be storable. *)
Fixpoint jsonb_accepts (v : json) : bool :=
  match v with
  | JStr s => storable_text s
  | JArr xs => forallb jsonb_accepts xs
  | JObj ms => forallb (fun kv => storable_text kv.1 && jsonb_accepts kv.2) ms
  | JNull | JBool _ | JNum _ _ => true
  end.

Definition jsonb_accepts_opt (v : option json) : bool :=
  match v with Some x => jsonb_accepts x | None => true end.

(** The checks of the table [cards] on a new row: [word] and [meaning]
    are NOT NULL, [word] and [reading] are [varchar(100)], [meaning],
    the two example columns and [audio_clip_url] are [text],
    [part_of_speech] is the enumeration and [word_position] is
    [jsonb]. *)
Definition insert_accepts (card : Card) : bool :=
  not_null (card_word card) && varchar100_accepts (card_word card)
  && varchar100_accepts (card_reading card)
  && not_null (card_meaning card) && text_accepts (card_meaning card)
  && enum_accepts (card_partOfSpeech card)
  && text_accepts (card_exampleSentence card)
  && text_accepts (card_exampleTranslation card)
  && text_accepts (card_audioClipUrl card)
  && jsonb_accepts_opt (card_wordPosition card).

(** *** The message of a rejected statement *)

(** The error of a failed query quotes the statement and the values sent
    with it.  The statement of [createCard] has no 'API key' in it; the
    values may. *)
Definition API_key : jsstring := js "API key".

(** [String(v).includes('API key')], for a value quoted as it is: an
    array is quoted as its elements, an object as '[object Object]'. *)
Fixpoint text_mentions_API_key (v : json) : bool :=
  match v with
  | JStr s => includes API_key s
  | JArr xs => existsb text_mentions_API_key xs
  | JNull | JBool _ | JNum _ _ | JObj _ => false
  end.

(** [JSON.stringify(v).includes('API key')], for the value of a [jsonb]
    column: the words can only stand inside a string or a member name. *)
Fixpoint json_mentions_API_key (v : json) : bool :=
  match v with
  | JStr s => includes API_key s
  | JArr xs => existsb json_mentions_API_key xs
  | JObj ms =>
      existsb (fun kv => includes API_key kv.1 || json_mentions_API_key kv.2) ms
  | JNull | JBool _ | JNum _ _ => false
  end.

Definition mentions_opt (f : json -> bool) (v : option json) : bool :=
  match v with Some x => f x | None => false end.

(** The message of the error thrown for a rejected insert of [card]
    contains 'API key'. *)
Definition message_mentions_API_key (card : Card) : bool :=
  mentions_opt text_mentions_API_key (card_word card)
  || mentions_opt text_mentions_API_key (card_reading card)
  || mentions_opt text_mentions_API_key (card_meaning card)
  || mentions_opt text_mentions_API_key (card_partOfSpeech card)
  || mentions_opt text_mentions_API_key (card_exampleSentence card)
  || mentions_opt text_mentions_API_key (card_exampleTranslation card)
  || mentions_opt text_mentions_API_key (card_audioClipUrl card)
  || mentions_opt json_mentions_API_key (card_wordPosition card).

Definition insert_error (card : Card) : error :=
  if message_mentions_API_key card then DatabaseErrorApiKey else DatabaseError.

(** [createCard(input)]: the inserted row and the table after the insert,
    or the rejection of the insert.  The foreign key of [line_id] holds
    at both call sites, which pass the id of a line just read or
    created. *)
Definition createCard (input : CreateCardInput) (cards : list Card)
  : result Card * list Card :=
  let card := new_card input in
  if insert_accepts card
  then (Ok card, cards ++ [card])
  else (Err (insert_error card), cards).

Inductive CardStatus := StatusNew | StatusLearning | StatusMastered.

(** A row of [card_progress]; timestamps are milliseconds.  The table is
    a finite map keyed by its unique index on (user_id, card_id). *)
Record CardProgress := {
  status : CardStatus;
  lastReviewedAt : option Z;
  reviewCount : Z;
  createdAt : Z;
  updatedAt : Z
}.

(** [getOrCreateProgress(userId, cardId)]; [dbNow] is the clock of the
    database, read for the column defaults of a new row.
    [references_hold] tells whether the user and the card exist, as the
    foreign keys of a new row require: without them the insert is
    rejected. *)
Definition getOrCreateProgress (dbNow : Z) (references_hold : bool)
    (userId cardId : string) (tbl : gmap (string * string) CardProgress)
  : result CardProgress * gmap (string * string) CardProgress :=
  match tbl !! (userId, cardId) with
  | Some existing => (Ok existing, tbl)
  | None =>
      if references_hold then
        let progress :=
          {| status := StatusNew; lastReviewedAt := None; reviewCount := 0;
             createdAt := dbNow; updatedAt := dbNow |} in
        (Ok progress, <[(userId, cardId) := progress]> tbl)
      else (Err DatabaseError, tbl)
  end.

(** The largest value of a column of type [integer]. *)
Definition INT_MAX : Z := 2147483647.

(** [updateCardStatus(userId, cardId, status)]; [reviewedAt] and [now] are
    the two [new Date()] of the update.  The result is the first row the
    update returns, [undefined] when it matched none.  The update is
    rejected when [review_count + 1] leaves the range of the column. *)
Definition updateCardStatus (dbNow reviewedAt now : Z) (references_hold : bool)
    (userId cardId : string) (newStatus : CardStatus)
    (tbl : gmap (string * string) CardProgress)
  : result (option CardProgress) * gmap (string * string) CardProgress :=
  match getOrCreateProgress dbNow references_hold userId cardId tbl with
  | (Err e, tbl1) => (Err e, tbl1)
  | (Ok _, tbl1) =>
      match tbl1 !! (userId, cardId) with
      | Some row =>
          if (reviewCount row + 1 <=? INT_MAX)%Z then
            let progress :=
              {| status := newStatus;
                 lastReviewedAt := Some reviewedAt;
                 reviewCount := (reviewCount row + 1)%Z;
                 createdAt := createdAt row;
                 updatedAt := now |} in
            (Ok (Some progress), <[(userId, cardId) := progress]> tbl1)
          else (Err DatabaseError, tbl1)
      | None => (Ok None, tbl1)
      end
  end.

End CardsService.
Export CardsService.

(* ===================================================================== *)
(** ** Request handlers *)
(* ===================================================================== *)

Module Routes.

(** *** Numbers of a request body *)

(** [ToIntegerOrInfinity] of the number [m * 10^e]: truncation of its
    double. *)
Definition num_trunc (m e : Z) : Z := double_trunc (to_double m e).

Definition int_leb_num (k m e : Z) : bool := int_leb_double k (to_double m e).

Definition num_leb_int (m e k : Z) : bool := double_leb_int (to_double m e) k.

(** [z.number().min(lo).max(hi).default(1)]: [None] when validation
    fails.  The number validated is handed on as it is. *)
Definition validate_bounded (lo hi : Z) (v : option json) : option (Z * Z) :=
  match v with
  | None => Some (1, 0)%Z
  | Some (JNum m e) =>
      if int_leb_num lo m e && num_leb_int m e hi then Some (m, e) else None
  | Some _ => None
  end.

(** [xs.slice(0, n)] on an array, [n] the number [m * 10^e]. *)
Definition slice_to {A} (xs : list A) (n : Z * Z) : list A :=
  let t := num_trunc n.1 n.2 in
  if (t <? 0)%Z then take (Z.to_nat (Z.of_nat (length xs) + t)) xs
  else take (Z.to_nat t) xs.

(** *** Lines *)

(** A row of the [lines] table.  Identifiers are opaque keys; the
    embedding uses the position at which the row was created. *)
Record Line := {
  line_id : nat;
  lineNumber : nat;
  contentJa : jsstring;
  contentZh : option json;
  furigana : option json;
  startTime : option Z;
  endTime : option Z
}.

(** An entry of [timestamps] in a validated body: the numbers
    [startTime] and [endTime]. *)
Definition TimeStamp := ((Z * Z) * (Z * Z))%type.

(** A number sent for a column of type [integer]: what is stored, or
    [None] when the column refuses it.  [undefined] is stored as NULL. *)
Definition integer_column (v : option (Z * Z)) : option (option Z) :=
  match v with
  | None => Some None
  | Some n => Some <$> int32_value n.1 n.2
  end.

(** The row of [createLines] for the lyric at [index], [None] when the
    database refuses it. *)
Definition line_row (timestamps : option (list TimeStamp))
    (index : nat) (contentJa : jsstring) : option Line :=
  let stamp := timestamps ≫= (.!! index) in
  if storable_text contentJa then
    match integer_column (fst <$> stamp), integer_column (snd <$> stamp) with
    | Some start, Some stop =>
        Some {| line_id := index;
                lineNumber := index + 1;
                contentJa := contentJa;
                contentZh := None;
                furigana := None;
                startTime := start;
                endTime := stop |}
    | _, _ => None
    end
  else None.

(** Step 2 of the import: one row per lyric line, all in one insert,
    which stores every row or none. *)
Definition createLines (lyrics : list jsstring)
    (timestamps : option (list TimeStamp)) : result (list Line) :=
  match mapM id (imap (line_row timestamps) lyrics) with
  | Some rows => Ok rows
  | None => Err DatabaseError
  end.

(** The row after an update that sets [contentZh] and [furigana]: a field
    that is [undefined] is left as it was. *)
Definition set_fields (new_contentZh new_furigana : option json)
    (line : Line) : Line :=
  {| line_id := line_id line;
     lineNumber := lineNumber line;
     contentJa := contentJa line;
     contentZh := match new_contentZh with Some v => Some v | None => contentZh line end;
     furigana := match new_furigana with Some v => Some v | None => furigana line end;
     startTime := startTime line;
     endTime := endTime line |}.

(** The checks of the table [lines] on the two values: [content_zh] is
    [text], [furigana] is [jsonb]. *)
Definition update_accepts (new_contentZh new_furigana : option json) : bool :=
  text_accepts new_contentZh && jsonb_accepts_opt new_furigana.

(** [updateLine(id, { contentZh, furigana })] on the row itself.  The
    query builder throws when both fields are [undefined], before
    anything is sent. *)
Definition updateLine (new_contentZh new_furigana : option json)
    (line : Line) : result Line :=
  match new_contentZh, new_furigana with
  | None, None => Err NoValuesToSet
  | _, _ =>
      if update_accepts new_contentZh new_furigana
      then Ok (set_fields new_contentZh new_furigana line)
      else Err DatabaseError
  end.

Section ImportHandler.

(** [Number.prototype.toString] of the runtime, for the double nearest to
    [m * 10^e]. *)
Variable number_to_string : Z -> Z -> jsstring.

(** [ToString], applied by [JSON.parse] to its argument. *)
Fixpoint ToString (v : json) : jsstring :=
  match v with
  | JNull => js "null"
  | JBool true => js "true"
  | JBool false => js "false"
  | JNum m e => number_to_string m e
  | JStr s => s
  | JArr xs =>
      (fix join (ys : list json) : jsstring :=
         match ys with
         | [] => []
         | y :: ys' =>
             let item := match y with JNull => [] | _ => ToString y end in
             match ys' with
             | [] => item
             | _ :: _ => item ++ [COMMA] ++ join ys'
             end
         end) xs
  | JObj _ => js "[object Object]"
  end.

(** [v !== '[]'] *)
Definition is_not_empty_array_text (v : json) : bool :=
  match v with
  | JStr s => negb (bool_decide (s = js "[]"))
  | _ => true
  end.

(** The [furiganaArray] computed for one parsed line: [undefined] unless
    [parsed.furigana] is truthy, differs from ['[]'] and parses. *)
Definition furiganaArray (parsed : json) : option json :=
  match get_prop "furigana" parsed with
  | Some f =>
      if truthy f && is_not_empty_array_text f
      then JSON_parse (ToString f)
      else None
  | None => None
  end.

(** The callback of step 3 for the line at [index]: the update of the
    row, when [aiParsed[index]] is truthy. *)
Definition annotateLine (aiParsed : list json) (index : nat) (line : Line)
  : result Line :=
  match aiParsed !! index with
  | Some parsed =>
      if truthy parsed
      then updateLine (get_prop "contentZh" parsed) (furiganaArray parsed) line
      else Ok line
  | None => Ok line
  end.

(** Step 3 of the import: the rows after the updates, in line order.  The
    updates are all issued, each on its own row; one that fails leaves
    its row as it was. *)
Definition annotateLines (aiParsed : list json) (createdLines : list Line)
  : list Line :=
  imap (fun index line =>
          match annotateLine aiParsed index line with
          | Ok line' => line'
          | Err _ => line
          end) createdLines.

(** [await Promise.all(createdLines.map(...))] resolves: no update has
    failed. *)
Definition annotation_resolves (aiParsed : list json) (createdLines : list Line)
  : bool :=
  forallb (fun outcome => match outcome with Ok _ => true | Err _ => false end)
    (imap (annotateLine aiParsed) createdLines).

(** Steps 2 and 3 with [options.parseWithAI] set: the rows stored. *)
Definition importLines (llm : lyrics_model) (lyrics : list jsstring)
    (timestamps : option (list TimeStamp)) : result (list Line) :=
  match createLines lyrics timestamps with
  | Ok createdLines => Ok (annotateLines (parseLyrics llm lyrics) createdLines)
  | Err e => Err e
  end.

End ImportHandler.

End Routes.
Export Routes.

Module CardRoutes.

(** [validPartOfSpeech] of the import handler. *)
Definition validPartOfSpeech : list jsstring :=
  [js "noun"; js "verb"; js "adjective"; js "adverb"; js "particle"; js "other"].

(** [a === b] on strings *)
Definition str_eq (a b : jsstring) : bool := bool_decide (a = b).

(** [normalizePartOfSpeech(pos)].  [pos.toLowerCase()] throws for a truthy
    value that is not a string. *)
Definition normalizePartOfSpeech (pos : option json) : result jsstring :=
  match pos with
  | None => Ok (js "other")
  | Some v =>
      if negb (truthy v) then Ok (js "other")
      else
        match v with
        | JStr s =>
            let lowered := toLowerCase s in
            if is_one_of lowered validPartOfSpeech then Ok lowered
            else if str_eq lowered (js "pronoun") || str_eq lowered (js "pron")
            then Ok (js "other")
            else if str_eq lowered (js "conjunction") || str_eq lowered (js "conj")
            then Ok (js "other")
            else if str_eq lowered (js "preposition") || str_eq lowered (js "prep")
            then Ok (js "particle")
            else if str_eq lowered (js "interjection") || str_eq lowered (js "interj")
            then Ok (js "other")
            else Ok (js "other")
        | _ => Err TypeError
        end
  end.

(** [v || undefined] *)
Definition truthy_or_undefined (v : option json) : option json :=
  match v with
  | Some x => if truthy x then Some x else None
  | None => None
  end.

(** The argument of [createCard] built by the import handler for one
    candidate.  Reading a property of [null] throws. *)
Definition importCardInput (line : Line) (card : json) : result CreateCardInput :=
  match card with
  | JNull => Err TypeError
  | _ =>
      match normalizePartOfSpeech (get_prop "partOfSpeech" card) with
      | Err e => Err e
      | Ok pos =>
          Ok {| in_lineId := line_id line;
                in_word := get_prop "word" card;
                in_reading := get_prop "reading" card;
                in_meaning := get_prop "meaning" card;
                in_partOfSpeech := Some (JStr pos);
                in_exampleSentence := Some (JStr (contentJa line));
                in_exampleTranslation := truthy_or_undefined (contentZh line);
                in_audioClipUrl := None;
                in_wordPosition := get_prop "wordPosition" card |}
      end
  end.

(** The argument of [createCard] built by POST /api/cards/generate. *)
Definition generateCardInput (line : Line) (card : json) : result CreateCardInput :=
  match card with
  | JNull => Err TypeError
  | _ =>
      Ok {| in_lineId := line_id line;
            in_word := get_prop "word" card;
            in_reading := get_prop "reading" card;
            in_meaning := get_prop "meaning" card;
            in_partOfSpeech := get_prop "partOfSpeech" card;
            in_exampleSentence := Some (JStr (contentJa line));
            in_exampleTranslation := truthy_or_undefined (contentZh line);
            in_audioClipUrl := None;
            in_wordPosition := get_prop "wordPosition" card |}
  end.

(** [candidates.map((card) => createCard({...}))]: the inserts are issued
    in order, each with its own outcome; an exception while building an
    argument is thrown by the map itself and stops it, the inserts already
    issued staying in place. *)
Fixpoint createAll (mk : json -> result CreateCardInput)
    (candidates : list json) (cards : list Card)
  : result (list (result Card)) * list Card :=
  match candidates with
  | [] => (Ok [], cards)
  | card :: rest =>
      match mk card with
      | Err e => (Err e, cards)
      | Ok input =>
          let '(outcome, cards1) := createCard input cards in
          match createAll mk rest cards1 with
          | (Ok outcomes, cards2) => (Ok (outcome :: outcomes), cards2)
          | (Err e, cards2) => (Err e, cards2)
          end
      end
  end.

(** [await Promise.all(promises)]: all the rows, or the error of an insert
    that was rejected; when several are, the one that comes first in the
    list stands for the one that is settled first. *)
Fixpoint promise_all (outcomes : list (result Card)) : result (list Card) :=
  match outcomes with
  | [] => Ok []
  | Ok row :: rest =>
      match promise_all rest with
      | Ok rows => Ok (row :: rows)
      | Err e => Err e
      end
  | Err e :: _ => Err e
  end.

(** [await Promise.all(generated.slice(0, count).map(...))]; anything but
    an array has no usable [slice]/[map]. *)
Definition persistCandidates (mk : json -> result CreateCardInput)
    (generated : json) (count : Z * Z) (cards : list Card)
  : result (list Card) * list Card :=
  match generated with
  | JArr candidates =>
      match createAll mk (slice_to candidates count) cards with
      | (Ok outcomes, cards') => (promise_all outcomes, cards')
      | (Err e, cards') => (Err e, cards')
      end
  | _ => (Err TypeError, cards)
  end.

(** The model as seen by card generation: the answer to the request made
    for a line. *)
Definition cards_model := Line -> completion.

(** Step 4 of the import: the loop over [parsedLines].  A failure while
    generating or saving the cards of a line is logged and the loop goes
    on with the next line. *)
Fixpoint importCards (llm : cards_model) (cardsPerLine : Z * Z)
    (parsedLines : list Line)
    (generatedCards : list (nat * list Card)) (cards : list Card)
  : list (nat * list Card) * list Card :=
  match parsedLines with
  | [] => (generatedCards, cards)
  | line :: rest =>
      match generateCardsFromLine (llm line) with
      | Err _ => importCards llm cardsPerLine rest generatedCards cards
      | Ok generated =>
          match persistCandidates (importCardInput line) generated cardsPerLine cards with
          | (Ok savedCards, cards1) =>
              importCards llm cardsPerLine rest
                (generatedCards ++ [(line_id line, savedCards)]) cards1
          | (Err _, cards1) =>
              importCards llm cardsPerLine rest generatedCards cards1
          end
      end
  end.

(** [options.cardsPerLine]: [z.number().min(1).max(3).default(1)]. *)
Definition validate_cardsPerLine : option json -> option (Z * Z) :=
  validate_bounded 1 3.

(** [count]: [z.number().min(1).max(5).optional().default(1)]. *)
Definition validate_count : option json -> option (Z * Z) :=
  validate_bounded 1 5.

Inductive response :=
| Success (data : list Card)
| BadRequest
| NotFound
| ServerError (e : error)       (* 500 *)
| ServiceUnavailable.           (* 503 *)

(** The [catch] of POST /api/cards/generate: 503 when the message of the
    error contains 'API key', 500 otherwise.  Of the errors of this path
    only a rejected insert can have the words in its message. *)
Definition error_response (e : error) : response :=
  match e with
  | DatabaseErrorApiKey => ServiceUnavailable
  | _ => ServerError e
  end.

(** POST /api/cards/generate, from the validation of the body on: [count]
    is the field of the body, [line] the result of [getLineById], [answer]
    the answer of the model. *)
Definition generateRoute (count : option json) (line : option Line)
    (answer : completion) (cards : list Card) : response * list Card :=
  match validate_count count with
  | None => (BadRequest, cards)
  | Some count' =>
      match line with
      | None => (NotFound, cards)
      | Some line =>
          match generateCardsFromLine answer with
          | Err e => (error_response e, cards)
          | Ok generatedCards =>
              match persistCandidates (generateCardInput line) generatedCards count' cards with
              | (Ok savedCards, cards1) => (Success savedCards, cards1)
              | (Err e, cards1) => (error_response e, cards1)
              end
          end
      end
  end.

(** The options of an import after validation. *)
Record ImportOptions := {
  parseWithAI : bool;
  generateCards : bool;
  cardsPerLine : Z * Z
}.

(** The answer of an import: the lines and the cards generated per line,
    or the error of the [catch]. *)
Inductive import_response :=
| Imported (lines : list Line) (generatedCards : list (nat * list Card))
| ImportFailed (e : error).

Section ImportRoute.

Variable number_to_string : Z -> Z -> jsstring.

(** POST /api/songs/import from step 2 on, for a validated body: the
    answer, the lines stored and the cards table.  [parsedLines] is the
    list read back after step 3, and stays [createdLines] when an update
    of step 3 has thrown. *)
Definition importRoute (lyricsModel : lyrics_model) (cardsModel : cards_model)
    (lyrics : list jsstring) (timestamps : option (list TimeStamp))
    (options : ImportOptions) (cards : list Card)
  : import_response * list Line * list Card :=
  match createLines lyrics timestamps with
  | Err e => (ImportFailed e, [], cards)
  | Ok createdLines =>
      let aiParsed := parseLyrics lyricsModel lyrics in
      let storedLines :=
        if parseWithAI options
        then annotateLines number_to_string aiParsed createdLines
        else createdLines in
      let parsedLines :=
        if parseWithAI options
           && annotation_resolves number_to_string aiParsed createdLines
        then storedLines
        else createdLines in
      let '(generatedCards, cards') :=
        if generateCards options
        then importCards cardsModel (cardsPerLine options) parsedLines [] cards
        else ([], cards) in
      (Imported parsedLines generatedCards, storedLines, cards')
  end.

End ImportRoute.

End CardRoutes.
Export CardRoutes.

(* ===================================================================== *)
(** ** Vocabulary of the properties *)
(* ===================================================================== *)

Module Vocabulary.

(** The batch of [parseLyrics] that starts at line [i]. *)
Definition batch_at (lyrics : list jsstring) (i : nat) : list jsstring :=
  slice i (i + batchSize) lyrics.

(** [Math.ceil(n / batchSize)], the number of batches logged by
    [parseLyrics]. *)
Definition batch_count (n : nat) : nat := (n + (batchSize - 1)) / batchSize.

(** The start indices of [count] consecutive batches from [i]. *)
Fixpoint batch_starts (count i : nat) : list nat :=
  match count with
  | O => []
  | S count' => i :: batch_starts count' (i + batchSize)
  end.

(** What [parseLyrics] pushes for the batch that starts at [i]. *)
Definition results_at (llm : lyrics_model) (lyrics : list jsstring) (i : nat)
  : list json :=
  batch_results (llm i (batch_at lyrics i)) (batch_at lyrics i) i.

(** The [lineNumber] field of a result. *)
Definition lineNumber_of (r : json) : option json := get_prop "lineNumber" r.

(** A request that makes [parseLyricsBatch] throw: the API throws, or the
    value extracted from the reply is falsy ([null] when nothing could be
    extracted, but also 0, [false] or the empty string), or its [lines]
    is truthy without being an array, so that [lines.map] is no
    function. *)
Definition batch_fails (answer : completion) : Prop :=
  match answer with
  | ApiError => True
  | Reply content =>
      let parsed := extractJSON (reply_text content) in
      truthy parsed = false \/
      exists v, get_prop "lines" parsed = Some v /\ truthy v = true /\
                forall lines, v <> JArr lines
  end.




(** The database takes the row of the lyric at [index]: the text is
    storable and the two time stamps given for the position, if any, are
    integers of 32 bits. *)
Definition line_storable (timestamps : option (list TimeStamp)) (index : nat)
    (text : jsstring) : Prop :=
  storable_text text = true /\
  forall stamp : TimeStamp, timestamps ≫= (.!! index) = Some stamp ->
    is_Some (int32_value stamp.1.1 stamp.1.2) /\
    is_Some (int32_value stamp.2.1 stamp.2.2).

(** The times stored for position [index]. *)
Definition stored_startTime (timestamps : option (list TimeStamp)) (index : nat)
  : option Z :=
  (timestamps ≫= (.!! index))
  ≫= (fun stamp : TimeStamp => int32_value stamp.1.1 stamp.1.2).

Definition stored_endTime (timestamps : option (list TimeStamp)) (index : nat)
  : option Z :=
  (timestamps ≫= (.!! index))
  ≫= (fun stamp : TimeStamp => int32_value stamp.2.1 stamp.2.2).




(** The row stored for a candidate of a line, up to its part of speech. *)
Definition card_row (line : Line) (c : json) (pos : json) : Card :=
  {| card_lineId := line_id line;
     card_word := get_prop "word" c;
     card_reading := get_prop "reading" c;
     card_meaning := get_prop "meaning" c;
     card_partOfSpeech := Some pos;
     card_exampleSentence := Some (JStr (contentJa line));
     card_exampleTranslation := truthy_or_undefined (contentZh line);
     card_audioClipUrl := None;
     card_wordPosition := get_prop "wordPosition" c |}.


(** The row the import stores for a candidate: the part of speech
    normalized. *)
Definition imported_row (line : Line) (c : json) : Card :=
  card_row line c
    (JStr (match normalizePartOfSpeech (get_prop "partOfSpeech" c) with
           | Ok pos => pos
           | Err _ => js "other"
           end)).

(** The progress row of a user and a card as an update finds it: the row
    that exists, or the one that [getOrCreateProgress] creates. *)
Definition row_before (userId cardId : string) (dbNow : Z)
    (tbl : gmap (string * string) CardProgress) : CardProgress :=
  default
    {| status := StatusNew; lastReviewedAt := None; reviewCount := 0;
       createdAt := dbNow; updatedAt := dbNow |}
    (tbl !! (userId, cardId)).

(** The value of a parse that may fail, with [null] for the failure. *)
Definition parsed_or_null (text : jsstring) : json :=
  default JNull (JSON_parse text).

End Vocabulary.
Export Vocabulary.

(* ===================================================================== *)
(** ** Sample models and inputs *)
(* ===================================================================== *)

Module Samples.

(** The model whose every request throws. *)
Definition failing_model : lyrics_model := fun _ _ => ApiError.

(** Two lyric lines, and a model that answers a batch with a single entry
    in which it has merged them. *)
Definition merging_lyrics : list jsstring :=
  [js "yume no tsuzuki"; js "oikakete"].

Definition merging_model : lyrics_model := fun _ _ =>
  Reply (Some (jsq
    "{'lines':[{'lineNumber':1,'contentJa':'yume no tsuzuki oikakete','contentZh':'chasing the rest of the dream','furigana':'[]','tokens':'[]'}]}")).

(** A stored line, and a reply with five candidate cards for it. *)
Definition sample_line : Line :=
  {| line_id := 7; lineNumber := 1; contentJa := js "yume no tsuzuki";
     contentZh := Some (JStr (js "the rest of the dream"));
     furigana := None; startTime := Some 0%Z; endTime := Some 5000%Z |}.

Definition five_cards : completion :=
  Reply (Some (jsq
    "Here you go: {'cards':[{'word':'yume','reading':'yume','meaning':'dream','partOfSpeech':'noun'},{'word':'tsuzuki','reading':'tsuzuki','meaning':'continuation','partOfSpeech':'noun'},{'word':'no','reading':'no','meaning':'of','partOfSpeech':'particle'},{'word':'ou','reading':'ou','meaning':'to chase','partOfSpeech':'verb'},{'word':'sora','reading':'sora','meaning':'sky','partOfSpeech':'noun'}]}")).



(** A reply with one candidate tagged as a pronoun. *)
Definition pronoun_card : completion :=
  Reply (Some (jsq
    "{'cards':[{'word':'kimi','reading':'kimi','meaning':'you','partOfSpeech':'pronoun'}]}")).

(** A rendering of numbers good for integers, for the samples. *)
Definition integer_to_string (m e : Z) : jsstring := js (pretty (num_trunc m e)).



(** The condition under which the database takes an update of the
    progress of a user on a card: the pair has a row whose count can
    still grow, or it has none and the user and the card exist. *)
Definition update_possible (references_hold : bool) (userId cardId : string)
    (tbl : gmap (string * string) CardProgress) : Prop :=
  match tbl !! (userId, cardId) with
  | Some row => (reviewCount row < INT_MAX)%Z
  | None => references_hold = true
  end.

(** A progress table with one fresh row. *)
Definition fresh_row : CardProgress :=
  {| status := StatusNew; lastReviewedAt := None; reviewCount := 0;
     createdAt := 1000; updatedAt := 1000 |}.

Definition fresh_table : gmap (string * string) CardProgress :=
  {[ ("user-1"%string, "card-1"%string) := fresh_row ]}.

(** A progress table with a new card and a card being learnt. *)
Definition learning_row : CardProgress :=
  {| status := StatusLearning; lastReviewedAt := Some 1500%Z;
     reviewCount := 3; createdAt := 1000; updatedAt := 1500 |}.

Definition two_status_table : gmap (string * string) CardProgress :=
  <[ ("user-1"%string, "card-2"%string) := learning_row ]> fresh_table.

(** A progress table with one row whose count is the largest the column
    holds. *)
Definition full_row : CardProgress :=
  {| status := StatusLearning; lastReviewedAt := Some 1500%Z;
     reviewCount := 2147483647; createdAt := 1000; updatedAt := 1500 |}.

Definition full_table : gmap (string * string) CardProgress :=
  {[ ("user-1"%string, "card-1"%string) := full_row ]}.

End Samples.
Export Samples.

(* ===================================================================== *)
(** ** [src/lib/ai/services.ts] and [src/lib/ai/config.ts]: the rest *)
(* ===================================================================== *)

Module ServicesRest.

(** [isMockMode()], given the two environment variables it reads. *)
Definition isMockMode (AI_MOCK_MODE OPENAI_API_KEY : option jsstring) : bool :=
  bool_decide (AI_MOCK_MODE = Some (js "true"))
  || negb (match OPENAI_API_KEY with
           | Some key => negb (bool_decide (key = []))
           | None => false
           end).


Definition parseTokens (tokensStr : jsstring) : list json :=
  match JSON_parse tokensStr with
  | Some (JArr items) => items
  | _ => []
  end.

(** The code points of a string, each as the string of its code units:
    what iterating a string yields. *)
Fixpoint code_points (s : jsstring) : list jsstring :=
  match s with
  | [] => []
  | c :: rest =>
      match rest with
      | d :: rest' =>
          if is_high_surrogate c && is_low_surrogate d
          then [c; d] :: code_points rest'
          else [c] :: code_points rest
      | [] => [[c]]
      end
  end.

(** The values [for (const x of v)] runs over; [None] when [v] is not
    iterable and the loop throws. *)
Definition iterate (v : json) : option (list json) :=
  match v with
  | JArr items => Some items
  | JStr s => Some (map JStr (code_points s))
  | _ => None
  end.

(** What the generator [streamCardGeneration] yields. *)
Inductive stream_event :=
| CardEvent (card : json)        (* { type: 'card', value } *)
| CompleteEvent (cards : json)   (* { type: 'complete', value } *)
| ErrorEvent.                    (* { type: 'error', ... } *)

Inductive stream_run :=
| StreamThrows                   (* the request throws, outside the try *)
| StreamYields (events : list stream_event).

(** [streamCardGeneration(line)] outside mock mode, run to its end. *)
Definition streamCardGeneration (answer : completion) : stream_run :=
  match answer with
  | ApiError => StreamThrows
  | Reply content =>
      let text := reply_text content in
      let parsed := extractJSON text in
      if negb (truthy parsed) then StreamYields [ErrorEvent]
      else
        let cards := js_or (get_prop "cards" parsed) (JArr []) in
        match iterate cards with
        | Some items => StreamYields (map CardEvent items ++ [CompleteEvent cards])
        | None => StreamYields [ErrorEvent]
        end
  end.

(** *** The mock path of [parseLyrics] *)

Definition LF : N := 10.

(** [lines.join('\n')] *)
Fixpoint join_lines (lines : list jsstring) : jsstring :=
  match lines with
  | [] => []
  | line :: rest =>
      match rest with
      | [] => line
      | _ :: _ => line ++ LF :: join_lines rest
      end
  end.

(** [s.split('\n')] *)
Fixpoint split_lines (s : jsstring) : list jsstring :=
  match s with
  | [] => [[]]
  | c :: rest =>
      if (c =? LF)%N then [] :: split_lines rest
      else
        match split_lines rest with
        | line :: lines => (c :: line) :: lines
        | [] => [[c]]
        end
  end.

(** The code units [trim] removes: white space and line terminators. *)
Definition is_trimmed_unit (c : N) : bool :=
  ((c =? 9) || (c =? 10) || (c =? 11) || (c =? 12) || (c =? 13) || (c =? 32)
   || (c =? 160) || (c =? 5760) || ((8192 <=? c) && (c <=? 8202))
   || (c =? 8232) || (c =? 8233) || (c =? 8239) || (c =? 8287)
   || (c =? 12288) || (c =? 65279))%N.

(** [l.trim()] as a condition: something is left after trimming. *)
Definition trim_is_truthy (l : jsstring) : bool :=
  negb (forallb is_trimmed_unit l).

Record MockLine := {
  mock_id : jsstring;
  mock_contentJa : jsstring;
  mock_contentZh : jsstring;
  mock_startTime : nat;
  mock_endTime : nat
}.

(** The translation the mock gives to line [n]: the words "translation of
    line n" in brackets. *)
Definition mock_translation (n : nat) : jsstring :=
  [65288; 32763; 35793; 31532; 32]%N ++ js (pretty n) ++ [32; 34892; 65289]%N.

(** [parseMockLyrics(rawContent)], its delay apart. *)
Definition parseMockLyrics (rawContent : jsstring) : list MockLine :=
  let lines := filter (fun l => Is_true (trim_is_truthy l)) (split_lines rawContent) in
  imap (fun index content =>
          {| mock_id := js "line-mock-" ++ js (pretty index);
             mock_contentJa := content;
             mock_contentZh := mock_translation (index + 1);
             mock_startTime := index * 5;
             mock_endTime := (index + 1) * 5 |}) lines.

(** The mock branch of [parseLyrics]; [line.contentZh || ''] is
    [line.contentZh] itself, a string. *)
Definition parseLyrics_mock (lyrics : list jsstring) : list json :=
  imap (fun i line =>
          JObj [ (js "lineNumber", num (i + 1));
                 (js "contentJa", JStr (mock_contentJa line));
                 (js "contentZh", JStr (mock_contentZh line));
                 (js "furigana", JStr (js "[]"));
                 (js "tokens", JStr (js "[]")) ])
       (parseMockLyrics (join_lines lyrics)).

(** [parseLyrics(lyrics)] with both branches. *)
Definition parseLyrics_in (mockMode : bool) (llm : lyrics_model)
    (lyrics : list jsstring) : list json :=
  if mockMode then parseLyrics_mock lyrics else parseLyrics llm lyrics.

End ServicesRest.
Export ServicesRest.

(* ===================================================================== *)
(** ** Roles: the auth client and the auth context *)
(* ===================================================================== *)

Module Roles.

Inductive UserRole := RoleGuest | RoleUser | RoleAdmin.

Definition role_name (r : UserRole) : jsstring :=
  match r with
  | RoleGuest => js "guest"
  | RoleUser => js "user"
  | RoleAdmin => js "admin"
  end.

(** [roleHierarchy[name]]; [None] is the [undefined] of a name that is not
    a role (no comparison with it holds). *)
Definition roleHierarchy (name : jsstring) : option nat :=
  if bool_decide (name = js "guest") then Some 0
  else if bool_decide (name = js "user") then Some 1
  else if bool_decide (name = js "admin") then Some 2
  else None.

(** [a >= b] on two entries of the table *)
Definition level_geb (a b : option nat) : bool :=
  match a, b with
  | Some x, Some y => y <=? x
  | _, _ => false
  end.

(** The [user] of a session, with the role it carries, if any. *)
Record SessionUser := { stored_role : option jsstring }.

(** [role || 'user'] *)
Definition role_or_user (role : option jsstring) : jsstring :=
  match role with
  | Some r => if bool_decide (r = []) then js "user" else r
  | None => js "user"
  end.

(** [hasRole(session, requiredRole)] of the auth client; [None] is a
    session without user. *)
Definition hasRole (session : option SessionUser) (requiredRole : UserRole) : bool :=
  match session with
  | None => false
  | Some user =>
      let userRole := role_or_user (stored_role user) in
      level_geb (roleHierarchy userRole) (roleHierarchy (role_name requiredRole))
  end.

(** [isAdmin(session)] of the auth client *)
Definition isAdmin (session : option SessionUser) : bool :=
  hasRole session RoleAdmin.

(** The [user] computed by [AuthProvider]: its role is the stored role or
    'user'. *)
Definition context_user (session : option SessionUser) : option jsstring :=
  match session with
  | Some user => Some (role_or_user (stored_role user))
  | None => None
  end.

(** [hasRole(requiredRole)] of the auth context *)
Definition context_hasRole (session : option SessionUser) (requiredRole : UserRole) : bool :=
  match context_user session with
  | None => false
  | Some role =>
      level_geb (roleHierarchy role) (roleHierarchy (role_name requiredRole))
  end.

(** [isAdmin: user?.role === 'admin'] of the auth context *)
Definition context_isAdmin (session : option SessionUser) : bool :=
  match context_user session with
  | Some role => bool_decide (role = js "admin")
  | None => false
  end.

End Roles.
Export Roles.

(* ===================================================================== *)
(** ** More sample models *)
(* ===================================================================== *)

Module MoreSamples.

(** A model that answers the two lines of [merging_lyrics] with two
    entries, which it numbers 99 and 100. *)
Definition misnumbering_model : lyrics_model := fun _ _ =>
  Reply (Some (jsq
    "{'lines':[{'lineNumber':99,'contentJa':'yume no tsuzuki','contentZh':'the rest of the dream','furigana':'[]','tokens':'[]'},{'lineNumber':100,'contentJa':'oikakete','contentZh':'chasing','furigana':'[]','tokens':'[]'}]}")).

(** A reply with two candidates, the second tagged as a pronoun. *)
Definition mixed_cards : completion :=
  Reply (Some (jsq
    "{'cards':[{'word':'yume','reading':'yume','meaning':'dream','partOfSpeech':'noun'},{'word':'kimi','reading':'kimi','meaning':'you','partOfSpeech':'pronoun'}]}")).

(** A model that annotates the first of two lines and answers the second
    with an empty entry. *)
Definition half_annotating_model : lyrics_model := fun _ _ =>
  Reply (Some (jsq
    "{'lines':[{'contentZh':'dream','furigana':'[]'},{}]}")).

(** A reply with one candidate whose part of speech reads 'API key'. *)
Definition api_key_card : completion :=
  Reply (Some (jsq
    "{'cards':[{'word':'kimi','reading':'kimi','meaning':'you','partOfSpeech':'API key'}]}")).

(** A reply with two candidates, the first without a meaning. *)
Definition no_meaning_cards : completion :=
  Reply (Some (jsq
    "{'cards':[{'word':'yume','reading':'yume','partOfSpeech':'noun'},{'word':'kimi','reading':'kimi','meaning':'you','partOfSpeech':'pronoun'}]}")).

End MoreSamples.
Export MoreSamples.

(* ===================================================================== *)
(** ** More vocabulary of the properties *)
(* ===================================================================== *)

Module MoreVocabulary.

(** The insert of a row passes the checks of the table. *)
Definition accepted (row : Card) : bool := insert_accepts row.

(** The outcome of the insert of a row. *)
Definition insert_outcome (row : Card) : result Card :=
  if accepted row then Ok row else Err (insert_error row).

(** A candidate for which the import cannot build the argument of
    [createCard]: it is [null], or its part of speech is truthy without
    being a string. *)
Definition unusable_candidate (c : json) : Prop :=
  c = JNull \/
  exists v, get_prop "partOfSpeech" c = Some v /\ truthy v = true /\
            forall s, v <> JStr s.

(** The part of speech of a row is one of the six labels. *)
Definition has_valid_partOfSpeech (row : Card) : Prop :=
  exists p, card_partOfSpeech row = Some (JStr p) /\ p ∈ validPartOfSpeech.

(** One review: the clocks read by the update and the status chosen. *)
Record Review := {
  review_dbNow : Z;
  review_reviewedAt : Z;
  review_now : Z;
  review_status : CardStatus
}.

(** The table after a user has reviewed a card several times, one call of
    [updateCardStatus] per review, in order. *)
Definition reviewAll (references_hold : bool) (userId cardId : string)
    (reviews : list Review) (tbl : gmap (string * string) CardProgress)
  : gmap (string * string) CardProgress :=
  foldl (fun t r =>
           (updateCardStatus (review_dbNow r) (review_reviewedAt r) (review_now r)
              references_hold userId cardId (review_status r) t).2)
        tbl reviews.

(** The number of reviews recorded for a user and a card: 0 without a row. *)
Definition reviews_recorded (userId cardId : string)
    (tbl : gmap (string * string) CardProgress) : Z :=
  match tbl !! (userId, cardId) with
  | Some row => reviewCount row
  | None => 0
  end.

End MoreVocabulary.
Export MoreVocabulary.

(* ===================================================================== *)
(** ** Progress: the route and the statistics *)
(* ===================================================================== *)

Module ProgressRoute.

Inductive progress_response :=
| ProgressData (row : option CardProgress)   (* 200, { data: progress } *)
| Unauthorized                               (* 401 *)
| InvalidInput                               (* 400 *)
| InternalError.                             (* 500, from the catch *)

(** [z.enum(['new', 'learning', 'mastered'])] *)
Definition parse_status (v : option json) : option CardStatus :=
  match v with
  | Some (JStr s) =>
      if bool_decide (s = js "new") then Some StatusNew
      else if bool_decide (s = js "learning") then Some StatusLearning
      else if bool_decide (s = js "mastered") then Some StatusMastered
      else None
  | _ => None
  end.

(** [updateProgressSchema.safeParse(body)]: the body has to be an object
    whose [status] is one of the three words. *)
Definition updateProgressSchema (body : json) : option CardStatus :=
  match body with
  | JObj _ => parse_status (get_prop "status" body)
  | _ => None
  end.

(** [handleUpdateProgress], the handler of POST and PATCH
    /api/cards/[id]/progress.  [sessionUserId] is [session?.user?.id];
    [body] is the value of [request.json()], [None] when it throws;
    [references_hold] tells whether the user and the card exist.  An
    error of [updateCardStatus] is answered with 500. *)
Definition handleUpdateProgress (dbNow reviewedAt now : Z)
    (sessionUserId : option string) (cardId : string) (body : option json)
    (references_hold : bool) (tbl : gmap (string * string) CardProgress)
  : progress_response * gmap (string * string) CardProgress :=
  match sessionUserId with
  | None => (Unauthorized, tbl)
  | Some userId =>
      if bool_decide (userId = ""%string) then (Unauthorized, tbl)
      else
        match body with
        | None => (InternalError, tbl)
        | Some body =>
            match updateProgressSchema body with
            | None => (InvalidInput, tbl)
            | Some newStatus =>
                match updateCardStatus dbNow reviewedAt now references_hold
                        userId cardId newStatus tbl with
                | (Ok progress, tbl') => (ProgressData progress, tbl')
                | (Err _, tbl') => (InternalError, tbl')
                end
            end
        end
  end.

(** *** [getCardStats] *)

Record CardStats := {
  stats_total : nat;
  stats_new : nat;
  stats_learning : nat;
  stats_mastered : nat
}.

(** The rows of a user in [card_progress]. *)
Definition rows_of_user (userId : string)
    (tbl : gmap (string * string) CardProgress) : list CardProgress :=
  (map_to_list (filter (fun kv => kv.1.1 = userId) tbl)).*2.

#[global] Instance CardStatus_eq_dec : EqDecision CardStatus.
Proof. solve_decision. Defined.

Definition status_eqb (a b : CardStatus) : bool :=
  match a, b with
  | StatusNew, StatusNew
  | StatusLearning, StatusLearning
  | StatusMastered, StatusMastered => true
  | _, _ => false
  end.

(** The count of the rows with a given status *)
Definition status_count (st : CardStatus) (rows : list CardProgress) : nat :=
  length (filter (fun row => Is_true (status_eqb (status row) st)) rows).

(** The query, which groups the rows by status and counts: one row per status
    that occurs, here in the order new, learning, mastered (the database
    promises no order). *)
Definition groupByStatus (rows : list CardProgress) : list (CardStatus * nat) :=
  filter (fun g => 0 < g.2)
    [ (StatusNew, status_count StatusNew rows);
      (StatusLearning, status_count StatusLearning rows);
      (StatusMastered, status_count StatusMastered rows) ].

(** [result[stat.status] = stat.count; result.total += stat.count] *)
Definition add_stat (result : CardStats) (stat : CardStatus * nat) : CardStats :=
  let '(st, count) := stat in
  {| stats_total := stats_total result + count;
     stats_new := match st with StatusNew => count | _ => stats_new result end;
     stats_learning :=
       match st with StatusLearning => count | _ => stats_learning result end;
     stats_mastered :=
       match st with StatusMastered => count | _ => stats_mastered result end |}.

(** [result[st]] *)
Definition stats_field (st : CardStatus) (r : CardStats) : nat :=
  match st with
  | StatusNew => stats_new r
  | StatusLearning => stats_learning r
  | StatusMastered => stats_mastered r
  end.

(** The loop of [getCardStats] over the rows the query returned. *)
Definition getCardStats_of (stats : list (CardStatus * nat)) : CardStats :=
  foldl add_stat
    {| stats_total := 0; stats_new := 0; stats_learning := 0; stats_mastered := 0 |}
    stats.

(** [getCardStats(userId)], with the groups in the order of
    [groupByStatus]. *)
Definition getCardStats (userId : string)
    (tbl : gmap (string * string) CardProgress) : CardStats :=
  getCardStats_of (groupByStatus (rows_of_user userId tbl)).

End ProgressRoute.
Export ProgressRoute.

(* ===================================================================== *)
(** ** Vocabulary of the scan of [extractJSON] *)
(* ===================================================================== *)

Module ScanVocabulary.

(** A code unit the scan steps over outside a string without a change of
    state: no quote and no brace. *)
Definition is_plain (c : N) : bool :=
  negb (c =? QUOTE)%N && negb (c =? LBRACE)%N && negb (c =? RBRACE)%N.

(** The scan, started on [s] inside an object (depth at least 1), inside
    a string or not as [inString] says, comes to the rest [r] of [s]
    without having stopped, outside a string and at the same depth. *)
Definition passes (inString : bool) (s r : jsstring) : Prop :=
  length r <= length s /\
  forall i d, (1 <= d)%Z ->
    closing_brace s i d inString false
    = closing_brace r (i + (length s - length r)) d false false.

(** The scan, started on [s] inside an object, comes to the rest [r] of
    [s] having just read the brace that closes this object: at depth 1 it
    stops there, at a greater depth it goes on one level up. *)
Definition passes_close (s r : jsstring) : Prop :=
  length r < length s /\
  forall i d, (1 <= d)%Z ->
    closing_brace s i d false false
    = if (d =? 1)%Z then Some (i + (length s - length r) - 1)
      else closing_brace r (i + (length s - length r)) (d - 1) false false.

(** [t] is a JSON text of [v] that ends with the last code unit of the
    value. *)
Definition parses_exactly (t : jsstring) (v : json) : Prop :=
  parse_value (2 * length t + 2) t = Some (v, []).

End ScanVocabulary.
Export ScanVocabulary.

(* ===================================================================== *)
(** ** GET /api/cards: grouping and statistics of a page *)
(* ===================================================================== *)

Module CardList.

(** A row of the page query, with the columns the handler looks at: the
    id of the card and the id, title and artist of its song.  The other
    columns are copied to the response as they are. *)
Record ListedCard := {
  lc_id : string;
  lc_songId : string;
  lc_songTitle : jsstring;
  lc_songArtist : option jsstring
}.

(** A value of [progressMap]. *)
Record ProgressEntry := {
  pe_status : CardStatus;
  pe_reviewCount : Z
}.

(** [progressMap[cardId]]: the progress of the session user on a card of
    the page, when there is a session user. *)
Definition progressMap (userId : option string) (data : list ListedCard)
    (tbl : gmap (string * string) CardProgress) (cardId : string)
  : option ProgressEntry :=
  match userId with
  | Some u =>
      if bool_decide (u = ""%string) then None
      else if bool_decide (cardId ∈ lc_id <$> data)
      then (fun p => {| pe_status := status p; pe_reviewCount := reviewCount p |})
             <$> tbl !! (u, cardId)
      else None
  | None => None
  end.

(** A value of [cardsBySong]. *)
Record SongGroup := {
  g_songId : string;
  g_songTitle : jsstring;
  g_songArtist : option jsstring;
  g_cards : list (ListedCard * option ProgressEntry)
}.

(** [{ ...card, progress: progressMap[card.id] }] *)
Definition with_progress (pm : string -> option ProgressEntry)
    (card : ListedCard) : ListedCard * option ProgressEntry :=
  (card, pm (lc_id card)).

(** [acc[songKey].cards.push(item)]; the object [acc] is the list of its
    entries in the order in which its keys were added. *)
Fixpoint push_card (songKey : string) (item : ListedCard * option ProgressEntry)
    (acc : list (string * SongGroup)) : list (string * SongGroup) :=
  match acc with
  | [] => []
  | (k, g) :: rest =>
      if bool_decide (k = songKey)
      then (k, {| g_songId := g_songId g; g_songTitle := g_songTitle g;
                  g_songArtist := g_songArtist g;
                  g_cards := g_cards g ++ [item] |}) :: rest
      else (k, g) :: push_card songKey item rest
  end.

(** The callback of [data.reduce]. *)
Definition group_step (pm : string -> option ProgressEntry)
    (acc : list (string * SongGroup)) (card : ListedCard)
  : list (string * SongGroup) :=
  let songKey := lc_songId card in
  let acc1 :=
    if bool_decide (songKey ∈ acc.*1) then acc
    else acc ++ [(songKey, {| g_songId := lc_songId card;
                              g_songTitle := lc_songTitle card;
                              g_songArtist := lc_songArtist card;
                              g_cards := [] |})] in
  push_card songKey (with_progress pm card) acc1.

(** [Object.values(cardsBySong)] *)
Definition cardsBySong (pm : string -> option ProgressEntry)
    (data : list ListedCard) : list SongGroup :=
  (foldl (group_step pm) [] data).*2.

(** The three filters of [stats]. *)
Definition counts_as_new (p : option ProgressEntry) : bool :=
  match p with
  | None => true
  | Some e => status_eqb (pe_status e) StatusNew
  end.

Definition counts_as (st : CardStatus) (p : option ProgressEntry) : bool :=
  match p with
  | None => false
  | Some e => status_eqb (pe_status e) st
  end.

Definition page_stats (pm : string -> option ProgressEntry)
    (data : list ListedCard) : CardStats :=
  {| stats_total := length data;
     stats_new :=
       length (filter (fun d => Is_true (counts_as_new (pm (lc_id d)))) data);
     stats_learning :=
       length (filter (fun d => Is_true (counts_as StatusLearning (pm (lc_id d)))) data);
     stats_mastered :=
       length (filter (fun d => Is_true (counts_as StatusMastered (pm (lc_id d)))) data) |}.

(** The status recorded in [card_progress] for a user and a card of the
    page, if any. *)
Definition recorded_status (userId : string)
    (tbl : gmap (string * string) CardProgress) (d : ListedCard)
  : option CardStatus :=
  status <$> tbl !! (userId, lc_id d).

End CardList.
Export CardList.

(* ===================================================================== *)
(** ** The client stores: [song-store.ts] and [card-store.ts] *)
(* ===================================================================== *)

Module SongStore.

(** A song of the store: its id, its favorite flag and, standing for the
    fields that the store only copies, its title. *)
Record Song := {
  song_id : string;
  song_title : jsstring;
  isFavorite : bool
}.

Record SongState := {
  songs : list Song;
  recentlyPlayed : list string
}.

(** [toggleFavorite(id)] *)
Definition toggleFavorite (id : string) (s : SongState) : SongState :=
  {| songs :=
       map (fun song =>
              if bool_decide (song_id song = id)
              then {| song_id := song_id song; song_title := song_title song;
                      isFavorite := negb (isFavorite song) |}
              else song) (songs s);
     recentlyPlayed := recentlyPlayed s |}.

(** [addToRecent(id)] *)
Definition addToRecent (id : string) (s : SongState) : SongState :=
  {| songs := songs s;
     recentlyPlayed :=
       take 10 (id :: filter (fun i => i <> id) (recentlyPlayed s)) |}.

(** [xs.find((s) => s.id === id)] *)
Definition find_song (id : string) (xs : list Song) : option Song :=
  snd <$> list_find (fun s => song_id s = id) xs.

Definition getSongById (id : string) (s : SongState) : option Song :=
  find_song id (songs s).

Definition getFavorites (s : SongState) : list Song :=
  filter (fun song => Is_true (isFavorite song)) (songs s).

(** [getRecent()] *)
Definition getRecent (s : SongState) : list Song :=
  omap (fun id => find_song id (songs s)) (recentlyPlayed s).

(** What [partialize] keeps of a state, and what [merge] gets back from
    the storage: a [Partial<SongState>], either field of which may be
    missing. *)
Record Persisted := {
  p_recentlyPlayed : option (list string);
  p_songs : option (list (string * bool))
}.

Definition partialize (state : SongState) : Persisted :=
  {| p_recentlyPlayed := Some (recentlyPlayed state);
     p_songs := Some (map (fun s => (song_id s, isFavorite s)) (songs state)) |}.

(** [persisted.songs?.find((s) => s.id === song.id)] *)
Definition find_saved (id : string) (saved : option (list (string * bool)))
  : option (string * bool) :=
  match saved with
  | Some entries => snd <$> list_find (fun e => e.1 = id) entries
  | None => None
  end.

(** [merge(persistedState, currentState)] *)
Definition merge (persisted : Persisted) (currentState : SongState) : SongState :=
  let mergedSongs :=
    map (fun song =>
           match find_saved (song_id song) (p_songs persisted) with
           | Some savedSong =>
               {| song_id := song_id song; song_title := song_title song;
                  isFavorite := savedSong.2 |}
           | None => song
           end) (songs currentState) in
  {| songs := mergedSongs;
     recentlyPlayed :=
       match p_recentlyPlayed persisted with
       | Some recent => recent
       | None => recentlyPlayed currentState
       end |}.

End SongStore.
Export SongStore.

Module CardStore.

(** A card of the store: its id, song, status and time of the last
    update (milliseconds); the other fields are only copied. *)
Record StoreCard := {
  sc_id : string;
  sc_songId : string;
  sc_status : CardStatus;
  sc_updatedAt : Z
}.

Record CardState := {
  st_cards : list StoreCard;
  currentCardId : option string;
  favoritedLineIds : list string
}.

(** [toggleFavoriteLine(lineId)]: the new state of the line and the
    store. *)
Definition toggleFavoriteLine (lineId : string) (s : CardState) : bool * CardState :=
  let isFavorited := bool_decide (lineId ∈ favoritedLineIds s) in
  if isFavorited
  then (false,
        {| st_cards := st_cards s; currentCardId := currentCardId s;
           favoritedLineIds := filter (fun id => id <> lineId) (favoritedLineIds s) |})
  else (true,
        {| st_cards := st_cards s; currentCardId := currentCardId s;
           favoritedLineIds := favoritedLineIds s ++ [lineId] |}).

Definition isFavoritedLine (lineId : string) (s : CardState) : bool :=
  bool_decide (lineId ∈ favoritedLineIds s).

(** [addCard(data)]; [id] is the id generated and [now] the clock. *)
Definition addCard (id : string) (now : Z) (songId : string) (s : CardState)
  : string * CardState :=
  (id,
   {| st_cards :=
        {| sc_id := id; sc_songId := songId; sc_status := StatusNew;
           sc_updatedAt := now |} :: st_cards s;
      currentCardId := currentCardId s;
      favoritedLineIds := favoritedLineIds s |}).

(** [updateStatus(id, status)] *)
Definition updateStatus (now : Z) (id : string) (newStatus : CardStatus)
    (s : CardState) : CardState :=
  {| st_cards :=
       map (fun c =>
              if bool_decide (sc_id c = id)
              then {| sc_id := sc_id c; sc_songId := sc_songId c;
                      sc_status := newStatus; sc_updatedAt := now |}
              else c) (st_cards s);
     currentCardId := currentCardId s;
     favoritedLineIds := favoritedLineIds s |}.

(** [deleteCard(id)] *)
Definition store_deleteCard (id : string) (s : CardState) : CardState :=
  {| st_cards := filter (fun c => sc_id c <> id) (st_cards s);
     currentCardId :=
       if bool_decide (currentCardId s = Some id) then None else currentCardId s;
     favoritedLineIds := favoritedLineIds s |}.

Definition store_getCardById (id : string) (s : CardState) : option StoreCard :=
  snd <$> list_find (fun c => sc_id c = id) (st_cards s).

(** [getCardStats()] of the store *)
Definition store_getCardStats (s : CardState) : CardStats :=
  {| stats_new :=
       length (filter (fun c => Is_true (status_eqb (sc_status c) StatusNew)) (st_cards s));
     stats_learning :=
       length (filter (fun c => Is_true (status_eqb (sc_status c) StatusLearning)) (st_cards s));
     stats_mastered :=
       length (filter (fun c => Is_true (status_eqb (sc_status c) StatusMastered)) (st_cards s));
     stats_total := length (st_cards s) |}.

End CardStore.
Export CardStore.

(* ===================================================================== *)
(** ** The pages: lyrics with furigana, and the study list *)
(* ===================================================================== *)

Module Pages.

(** [xs.sort((a, b) => key(a) - key(b))]: the sort of the language is
    stable, so its result is the one of any stable sort; this one inserts
    from the right, each element before the first one that is not
    smaller. *)
Fixpoint insert_by {A} (key : A -> Z) (x : A) (sorted : list A) : list A :=
  match sorted with
  | [] => [x]
  | y :: rest =>
      if (key x <=? key y)%Z then x :: y :: rest
      else y :: insert_by key x rest
  end.

Definition sort_by {A} (key : A -> Z) (xs : list A) : list A :=
  foldr (insert_by key) [] xs.

(** [s.slice(from, to)] on a string, for integers. *)
Definition relative_index (len k : Z) : Z :=
  if (k <? 0)%Z then Z.max (len + k) 0 else Z.min k len.

Definition string_slice (from to : Z) (s : jsstring) : jsstring :=
  let len := Z.of_nat (length s) in
  let a := relative_index len from in
  let b := relative_index len to in
  take (Z.to_nat (b - a)) (drop (Z.to_nat a) s).

(** A [FuriganaItem], with integer offsets. *)
Record FuriganaItem := {
  f_word : jsstring;
  f_reading : jsstring;
  f_start : Z;
  f_end : Z
}.

(** What [renderWithFurigana] puts out: plain text, a word with its
    reading above it, a word shown without reading. *)
Inductive Segment :=
| TextSegment (text : jsstring)
| RubySegment (word reading : jsstring)
| WordSegment (word : jsstring).

(** The body of [sortedItems.forEach]. *)
Definition render_item (contentJa : jsstring)
    (state : list Segment * Z) (item : FuriganaItem) : list Segment * Z :=
  let '(result, lastEnd) := state in
  let result1 :=
    if (lastEnd <? f_start item)%Z
    then result ++ [TextSegment (string_slice lastEnd (f_start item) contentJa)]
    else result in
  let actualWord := string_slice (f_start item) (f_end item) contentJa in
  let result2 :=
    if negb (bool_decide (f_reading item = []))
       && negb (bool_decide (f_reading item = actualWord))
    then result1 ++ [RubySegment actualWord (f_reading item)]
    else result1 ++ [WordSegment actualWord] in
  (result2, f_end item).

(** [renderWithFurigana()] for a line with the given furigana items. *)
Definition renderWithFurigana (contentJa : jsstring)
    (furiganaItems : list FuriganaItem) : list Segment :=
  match furiganaItems with
  | [] => [TextSegment contentJa]
  | _ :: _ =>
      let sortedItems := sort_by f_start furiganaItems in
      let '(result, lastEnd) := foldl (render_item contentJa) ([], 0%Z) sortedItems in
      if (lastEnd <? Z.of_nat (length contentJa))%Z
      then result ++ [TextSegment
                        (string_slice lastEnd (Z.of_nat (length contentJa)) contentJa)]
      else result
  end.

(** The text of the line as the segments show it, readings apart. *)
Definition segment_text (seg : Segment) : jsstring :=
  match seg with
  | TextSegment text => text
  | RubySegment word _ => word
  | WordSegment word => word
  end.

Definition shown_text (segments : list Segment) : jsstring :=
  concat (map segment_text segments).

(** The spans of the items, in this order, lie within a text of [len]
    code units from [lastEnd] on without overlapping. *)
Fixpoint spans_chained (lastEnd : Z) (items : list FuriganaItem) (len : Z) : Prop :=
  match items with
  | [] => (lastEnd <= len)%Z
  | item :: rest =>
      (lastEnd <= f_start item <= f_end item)%Z /\
      spans_chained (f_end item) rest len
  end.

(** *** The study list of the cards page *)

(** A card as the cards page holds it: the fields the page looks at. *)
Record ClientCard := {
  cc_id : string;
  cc_songId : string;
  cc_progress : option ProgressEntry
}.

Record ClientGroup := {
  cg_songId : string;
  cg_cards : list ClientCard
}.

(** [card.progress?.status || 'new'] *)
Definition status_or_new (card : ClientCard) : CardStatus :=
  match cc_progress card with
  | Some e => pe_status e
  | None => StatusNew
  end.

(** [allCards]: every card of every group, with its status. *)
Definition allCards (songGroups : list ClientGroup) : list (ClientCard * CardStatus) :=
  flat_map (fun group => map (fun card => (card, status_or_new card)) (cg_cards group))
           songGroups.

(** [order[status]] *)
Definition status_order (st : CardStatus) : Z :=
  match st with
  | StatusNew => 0
  | StatusLearning => 1
  | StatusMastered => 2
  end.

(** [studyCards]; a [studyLimit] of 0 stands for no limit. *)
Definition studyCards (cards : list (ClientCard * CardStatus)) (studyLimit : nat)
  : list (ClientCard * CardStatus) :=
  let sorted := sort_by (fun c => status_order c.2) cards in
  if bool_decide (studyLimit = 0) then sorted else take studyLimit sorted.

(** The cards with a given status, in the order of the list. *)
Definition with_status (st : CardStatus) (cards : list (ClientCard * CardStatus))
  : list (ClientCard * CardStatus) :=
  filter (fun c => Is_true (status_eqb c.2 st)) cards.

(** The statistics the page shows; they are numbers that the page itself
    increments and decrements. *)
Record ClientStats := {
  cs_total : Z;
  cs_new : Z;
  cs_learning : Z;
  cs_mastered : Z
}.

Definition get_stat (st : CardStatus) (stats : ClientStats) : Z :=
  match st with
  | StatusNew => cs_new stats
  | StatusLearning => cs_learning stats
  | StatusMastered => cs_mastered stats
  end.

(** [{ ...prev, [st]: value }] *)
Definition set_stat (st : CardStatus) (value : Z) (stats : ClientStats) : ClientStats :=
  match st with
  | StatusNew =>
      {| cs_total := cs_total stats; cs_new := value;
         cs_learning := cs_learning stats; cs_mastered := cs_mastered stats |}
  | StatusLearning =>
      {| cs_total := cs_total stats; cs_new := cs_new stats;
         cs_learning := value; cs_mastered := cs_mastered stats |}
  | StatusMastered =>
      {| cs_total := cs_total stats; cs_new := cs_new stats;
         cs_learning := cs_learning stats; cs_mastered := value |}
  end.

(** [(card.progress?.reviewCount || 0) + 1] *)
Definition next_reviewCount (card : ClientCard) : Z :=
  let n := match cc_progress card with
           | Some e => pe_reviewCount e
           | None => 0%Z
           end in
  ((if (n =? 0)%Z then 0 else n) + 1)%Z.

(** The update of one card in [handleStudyStatusChange]. *)
Definition study_card (cardId : string) (newStatus : CardStatus)
    (card : ClientCard) : ClientCard :=
  if bool_decide (cc_id card = cardId)
  then {| cc_id := cc_id card; cc_songId := cc_songId card;
          cc_progress := Some {| pe_status := newStatus;
                                 pe_reviewCount := next_reviewCount card |} |}
  else card.

(** [handleStudyStatusChange(cardId, status)] on the state of the page,
    after a request that did not throw (the page does not look at its
    answer): the new groups and the new statistics.  A request that
    throws leaves the page as it is. *)
Definition handleStudyStatusChange (cardId : string) (newStatus : CardStatus)
    (songGroups : list ClientGroup) (stats : ClientStats)
  : list ClientGroup * ClientStats :=
  let groups' :=
    map (fun group =>
           {| cg_songId := cg_songId group;
              cg_cards := map (study_card cardId newStatus) (cg_cards group) |})
        songGroups in
  let oldCard :=
    snd <$> list_find (fun c : ClientCard * CardStatus => cc_id c.1 = cardId)
              (allCards songGroups) in
  let oldStatus := match oldCard with Some c => c.2 | None => StatusNew end in
  let stats' :=
    if bool_decide (oldStatus <> newStatus)
    then
      (* both keys are written into one object, the later one last *)
      set_stat newStatus (get_stat newStatus stats + 1)
        (set_stat oldStatus (get_stat oldStatus stats - 1) stats)
    else stats in
  (groups', stats').

(** The same update seen on a card of [allCards]. *)
Definition restudy (cardId : string) (newStatus : CardStatus)
    (p : ClientCard * CardStatus) : ClientCard * CardStatus :=
  (study_card cardId newStatus p.1, status_or_new (study_card cardId newStatus p.1)).

(** The statistics that agree with the cards of the page. *)
Definition stats_of (cards : list (ClientCard * CardStatus)) : ClientStats :=
  {| cs_total := Z.of_nat (length cards);
     cs_new :=
       Z.of_nat (length (filter (fun c => Is_true (status_eqb c.2 StatusNew)) cards));
     cs_learning :=
       Z.of_nat (length (filter (fun c => Is_true (status_eqb c.2 StatusLearning)) cards));
     cs_mastered :=
       Z.of_nat (length (filter (fun c => Is_true (status_eqb c.2 StatusMastered)) cards)) |}.

End Pages.
Export Pages.

(* ===================================================================== *)
(** ** [src/middleware.ts] *)
(* ===================================================================== *)

Module Middleware.

(** [s.startsWith(prefix)] *)
Fixpoint startsWith (prefix s : jsstring) : bool :=
  match prefix, s with
  | [], _ => true
  | a :: prefix', b :: s' => (a =? b)%N && startsWith prefix' s'
  | _ :: _, [] => false
  end.

Definition protectedRoutes : list jsstring :=
  [js "/profile"; js "/cards"; js "/favorites"; js "/learn"].

Definition adminRoutes : list jsstring := [js "/admin"].

Definition authRoutes : list jsstring := [js "/login"; js "/register"].

(** [routes.some((route) => pathname.startsWith(route))] *)
Definition some_prefix (routes : list jsstring) (pathname : jsstring) : bool :=
  existsb (fun route => startsWith route pathname) routes.

Inductive outcome :=
| RedirectHome                          (* redirect to '/' *)
| RedirectLogin (callbackUrl : jsstring) (* redirect to '/login?callbackUrl=...' *)
| PassOn.                               (* NextResponse.next() *)

(** [middleware(request)], given the path and the value of the session
    cookie, if there is one. *)
Definition middleware (pathname : jsstring) (sessionCookie : option jsstring)
  : outcome :=
  let isAuthenticated :=
    match sessionCookie with
    | Some value => negb (bool_decide (value = []))
    | None => false
    end in
  let isAuthRoute := some_prefix authRoutes pathname in
  let isProtectedRoute := some_prefix protectedRoutes pathname in
  let isAdminRoute := some_prefix adminRoutes pathname in
  if isAuthenticated && isAuthRoute then RedirectHome
  else if negb isAuthenticated && isProtectedRoute then RedirectLogin pathname
  else if negb isAuthenticated && isAdminRoute then RedirectLogin pathname
  else PassOn.

End Middleware.
Export Middleware.

(* ===================================================================== *)
(** * Properties *)
(* ===================================================================== *)

Module JsonParseTests.

Example parse_nested :
  JSON_parse (jsq "{'a':1,'b':{'c':2}}")
  = Some (JObj [(js "a", JNum 1 0); (js "b", JObj [(js "c", JNum 2 0)])]).
Proof. vm_compute. reflexivity. Qed.

Example parse_escaped_quote :
  JSON_parse (jsq "{'a':'he said \'hi\''}")
  = Some (JObj [(js "a", JStr (jsq "he said 'hi'"))]).
Proof. vm_compute. reflexivity. Qed.

Example parse_misc :
  JSON_parse (jsq " [ 1.50 , -2e3, true,false , null, 'xA\n', [], {} ] ")
  = Some (JArr [JNum 150 (-2); JNum (-2) 3; JBool true; JBool false; JNull;
                JStr [120; 65; 10]%N; JArr []; JObj []]).
Proof. vm_compute. reflexivity. Qed.

Example parse_duplicate_key :
  JSON_parse (jsq "{'a':1,'b':2,'a':3}")
  = Some (JObj [(js "a", JNum 3 0); (js "b", JNum 2 0)]).
Proof. vm_compute. reflexivity. Qed.

Example parse_rejects :
  map JSON_parse
    [js ""; js "prefix {}"; js "{} trailing"; jsq "{'a':1,}"; js "[1,]";
     js "01"; js "1."; js ".5"; js "+1"; jsq "'abc"; jsq "{a:1}"; js "tru";
     jsq "'\x'"; js "{"; js "[[[["]
  = replicate 15 None.
Proof. vm_compute. reflexivity. Qed.

End JsonParseTests.

(* ===================================================================== *)
(** ** The JSON parser does not depend on its fuel *)
(* ===================================================================== *)

Module JsonParseFacts.

Lemma skip_ws_length s : length (skip_ws s) <= length s.
Proof.
  induction s as [|c s IH]; cbn; [done|].
  destruct (is_ws c); cbn; lia.
Qed.

Lemma skip_ws_cons s c rest : skip_ws s = c :: rest -> length rest < length s.
Proof. intros H. pose proof (skip_ws_length s) as Hl. rewrite H in Hl. cbn in Hl. lia. Qed.

Lemma take_digits_length s : length (take_digits s).2 <= length s.
Proof.
  induction s as [|c s IH]; cbn; [done|].
  destruct (is_digit c); cbn; [|lia].
  destruct (take_digits s) as [ds rest]. cbn in *. lia.
Qed.

Lemma parse_string_body_length s body rest :
  parse_string_body s = Some (body, rest) -> length rest < length s.
Proof.
  remember (length s) as n eqn:Hn. revert s body rest Hn.
  induction n as [n IH] using lt_wf_ind. intros s body rest -> Hp.
  destruct s as [|c s]; [done|]. cbn [parse_string_body] in Hp.
  destruct (c =? QUOTE)%N; [injection Hp as _ <-; cbn; lia|].
  destruct (c =? BACKSLASH)%N.
  - destruct s as [|x s]; [done|].
    destruct (x =? 117)%N.
    + destruct s as [|h1 [|h2 [|h3 [|h4 s]]]]; try done.
      destruct (hex_val h1), (hex_val h2), (hex_val h3), (hex_val h4); try done.
      destruct (parse_string_body s) as [[b r]|] eqn:Hs; [|done].
      cbn in Hp. injection Hp as _ <-.
      eapply (IH (length s)) in Hs; [|cbn; lia|done]. cbn. lia.
    + destruct (if (x =? QUOTE)%N then _ else _); [|done].
      destruct (parse_string_body s) as [[b r]|] eqn:Hs; [|done].
      cbn in Hp. injection Hp as _ <-.
      eapply (IH (length s)) in Hs; [|cbn; lia|done]. cbn. lia.
  - destruct (c <? 32)%N; [done|].
    destruct (parse_string_body s) as [[b r]|] eqn:Hs; [|done].
    cbn in Hp. injection Hp as _ <-.
    eapply (IH (length s)) in Hs; [|cbn; lia|done]. cbn. lia.
Qed.

Lemma strip_prefix_length p s rest :
  strip_prefix p s = Some rest -> length rest + length p = length s.
Proof.
  revert s. induction p as [|a p IH]; intros s; cbn.
  - intros [= <-]. lia.
  - destruct s as [|b s]; [done|]. destruct (a =? b)%N; [|done].
    intros H%IH. cbn. lia.
Qed.

Lemma parse_number_length s v rest :
  parse_number s = Some (v, rest) -> length rest < length s.
Proof.
  unfold parse_number.
  destruct (match s with
            | [] => (false, s)
            | c :: rest0 => if (c =? MINUS)%N then (true, rest0) else (false, s)
            end) as [neg s1] eqn:Hsign.
  assert (length s1 <= length s) as H1.
  { destruct s as [|c s]; [by injection Hsign as _ <-|].
    destruct (c =? MINUS)%N; injection Hsign as _ <-; cbn; lia. }
  destruct (parse_int_part s1) as [[ints s2]|] eqn:Hint; [|done].
  assert (length s2 < length s1) as H2.
  { unfold parse_int_part in Hint. destruct s1 as [|c s1]; [done|].
    destruct (c =? 48)%N; [injection Hint as _ <-; cbn; lia|].
    destruct (is_digit c) eqn:Hd; [|done].
    cbn [take_digits] in Hint. rewrite Hd in Hint.
    pose proof (take_digits_length s1) as Hl.
    destruct (take_digits s1) as [ds r]. injection Hint as _ <-. cbn in *. lia. }
  cbn.
  destruct (parse_frac_part s2) as [[fracs s3]|] eqn:Hfrac; [|done].
  assert (length s3 <= length s2) as H3.
  { unfold parse_frac_part in Hfrac. destruct s2 as [|c s2]; [by injection Hfrac as _ <-|].
    destruct (c =? DOT)%N; [|by injection Hfrac as _ <-].
    pose proof (take_digits_length s2) as Hl.
    destruct (take_digits s2) as [[|d ds] r]; [done|].
    injection Hfrac as _ <-. cbn in *. lia. }
  cbn.
  destruct (parse_exp_part s3) as [[ex s4]|] eqn:Hexp; [|done].
  assert (length s4 <= length s3) as H4.
  { assert (forall neg' t, parse_exp_digits neg' t = Some (ex, s4) ->
                           length s4 <= length t) as Hdig.
    { intros neg' t. unfold parse_exp_digits.
      pose proof (take_digits_length t) as Hl.
      destruct (take_digits t) as [[|d ds] r]; [done|].
      intros [= _ <-]. done. }
    unfold parse_exp_part in Hexp. destruct s3 as [|c s3]; [by injection Hexp as _ <-|].
    destruct ((c =? 101) || (c =? 69))%N; [|by injection Hexp as _ <-].
    destruct s3 as [|sg s3]; [done|].
    destruct (sg =? PLUS)%N; [apply Hdig in Hexp; cbn; lia|].
    destruct (sg =? MINUS)%N; [apply Hdig in Hexp; cbn; lia|].
    apply Hdig in Hexp. cbn in *. lia. }
  cbn. intros [= _ <-]. lia.
Qed.

Lemma parse_scalar_length c rest v r :
  parse_scalar c rest = Some (v, r) -> length r <= length rest.
Proof.
  unfold parse_scalar.
  destruct (c =? QUOTE)%N.
  { destruct (parse_string_body rest) as [[b r']|] eqn:Hb; [|done].
    cbn. intros [= _ <-]. apply parse_string_body_length in Hb. lia. }
  assert (forall p v', (r' ← strip_prefix p (c :: rest); Some (v', r')) = Some (v, r) ->
                       0 < length p -> length r <= length rest) as Hkw.
  { intros p v' H Hp. destruct (strip_prefix p (c :: rest)) as [r'|] eqn:Hs; [|done].
    cbn in H. injection H as _ <-. apply strip_prefix_length in Hs. cbn in Hs.
    clear -Hs Hp. lia. }
  destruct (c =? 116)%N; [intros H; eapply Hkw; [done|vm_compute; lia]|].
  destruct (c =? 102)%N; [intros H; eapply Hkw; [done|vm_compute; lia]|].
  destruct (c =? 110)%N; [intros H; eapply Hkw; [done|vm_compute; lia]|].
  intros H%parse_number_length. cbn in H. lia.
Qed.

(** Every successful parse consumes at least one code unit. *)
Lemma parse_consumes fuel :
  (forall s v rest, parse_value fuel s = Some (v, rest) -> length rest < length s) /\
  (forall s acc v rest, parse_elements fuel s acc = Some (v, rest) -> length rest + 1 < length s) /\
  (forall s acc v rest, parse_members fuel s acc = Some (v, rest) -> length rest + 4 < length s).
Proof.
  induction fuel as [|fuel (IHv & IHe & IHm)]; [done|].
  split; [|split].
  - intros s v rest H. cbn [parse_value] in H.
    destruct (skip_ws s) as [|c r] eqn:Hs; [done|]. apply skip_ws_cons in Hs.
    destruct (c =? LBRACE)%N.
    { destruct (skip_ws r) as [|c' r'] eqn:Hr; [done|]. apply skip_ws_cons in Hr.
      destruct (c' =? RBRACE)%N; [injection H as _ <-; lia|].
      apply IHm in H. lia. }
    destruct (c =? LBRACKET)%N.
    { destruct (skip_ws r) as [|c' r'] eqn:Hr; [done|]. apply skip_ws_cons in Hr.
      destruct (c' =? RBRACKET)%N; [injection H as _ <-; lia|].
      apply IHe in H. lia. }
    apply parse_scalar_length in H. lia.
  - intros s acc v rest H. cbn [parse_elements] in H.
    destruct (parse_value fuel s) as [[v' r]|] eqn:Hv; [|done]. cbn in H.
    apply IHv in Hv.
    destruct (skip_ws r) as [|c r'] eqn:Hr; [done|]. apply skip_ws_cons in Hr.
    destruct (c =? COMMA)%N; [apply IHe in H; lia|].
    destruct (c =? RBRACKET)%N; [|done]. injection H as _ <-. lia.
  - intros s acc v rest H. cbn [parse_members] in H.
    destruct (skip_ws s) as [|q r] eqn:Hs; [done|]. apply skip_ws_cons in Hs.
    destruct (q =? QUOTE)%N; [|done].
    destruct (parse_string_body r) as [[key r1]|] eqn:Hk; [|done]. cbn in H.
    apply parse_string_body_length in Hk.
    destruct (skip_ws r1) as [|c r2] eqn:Hr1; [done|]. apply skip_ws_cons in Hr1.
    destruct (c =? COLON)%N; [|done].
    destruct (parse_value fuel r2) as [[v' r3]|] eqn:Hv; [|done]. cbn in H.
    apply IHv in Hv.
    destruct (skip_ws r3) as [|c' r4] eqn:Hr3; [done|]. apply skip_ws_cons in Hr3.
    destruct (c' =? COMMA)%N; [apply IHm in H; lia|].
    destruct (c' =? RBRACE)%N; [|done]. injection H as _ <-. lia.
Qed.

(** More fuel never changes a result. *)
Lemma parse_more_fuel fuel :
  (forall s r, parse_value fuel s = Some r -> parse_value (S fuel) s = Some r) /\
  (forall s acc r, parse_elements fuel s acc = Some r -> parse_elements (S fuel) s acc = Some r) /\
  (forall s acc r, parse_members fuel s acc = Some r -> parse_members (S fuel) s acc = Some r).
Proof.
  induction fuel as [|fuel (IHv & IHe & IHm)]; [done|].
  split; [|split].
  - intros s r H. cbn [parse_value] in H |- *.
    destruct (skip_ws s) as [|c t]; [done|].
    destruct (c =? LBRACE)%N.
    { destruct (skip_ws t) as [|c' t']; [done|].
      destruct (c' =? RBRACE)%N; [done|]. by apply IHm. }
    destruct (c =? LBRACKET)%N; [|done].
    destruct (skip_ws t) as [|c' t']; [done|].
    destruct (c' =? RBRACKET)%N; [done|]. by apply IHe.
  - intros s acc r H.
    change (parse_elements (S (S fuel)) s acc)
      with ('(v, rest) ← parse_value (S fuel) s;
            match skip_ws rest with
            | c :: rest' =>
                if (c =? COMMA)%N then parse_elements (S fuel) rest' (acc ++ [v])
                else if (c =? RBRACKET)%N then Some (JArr (acc ++ [v]), rest')
                else None
            | [] => None
            end).
    cbn [parse_elements] in H.
    destruct (parse_value fuel s) as [[v t]|] eqn:Hv; [|done].
    rewrite (IHv _ _ Hv). cbn in H |- *.
    destruct (skip_ws t) as [|c t']; [done|].
    destruct (c =? COMMA)%N; [by apply IHe|done].
  - intros s acc r H.
    cbn [parse_members] in H.
    destruct (skip_ws s) as [|q t] eqn:Hs; [done|].
    destruct (q =? QUOTE)%N eqn:Hq; [|done].
    destruct (parse_string_body t) as [[key t1]|] eqn:Hk; [|done]. cbn in H.
    destruct (skip_ws t1) as [|c t2] eqn:Ht1; [done|].
    destruct (c =? COLON)%N eqn:Hc; [|done].
    destruct (parse_value fuel t2) as [[v t3]|] eqn:Hv; [|done]. cbn in H.
    destruct (skip_ws t3) as [|c' t4] eqn:Ht3; [done|].
    remember (S fuel) as fuel1.
    cbn [parse_members]. rewrite Hs, Hq, Hk. cbn. rewrite Ht1, Hc.
    subst fuel1. rewrite (IHv _ _ Hv). cbn. rewrite Ht3.
    destruct (c' =? COMMA)%N; [by apply IHm|done].
Qed.

(** A result obtained with some fuel is obtained with any fuel beyond
    twice the length of the text. *)
Lemma parse_enough_fuel m :
  (forall s r, parse_value m s = Some r ->
     forall n, 2 * length s + 1 <= n -> parse_value n s = Some r) /\
  (forall s acc r, parse_elements m s acc = Some r ->
     forall n, 2 * length s + 2 <= n -> parse_elements n s acc = Some r) /\
  (forall s acc r, parse_members m s acc = Some r ->
     forall n, 2 * length s + 2 <= n -> parse_members n s acc = Some r).
Proof.
  induction m as [|m (IHv & IHe & IHm)]; [done|].
  split; [|split].
  - intros s r H [|n] Hn; [lia|].
    cbn [parse_value] in H |- *.
    destruct (skip_ws s) as [|c t] eqn:Hs; [done|]. apply skip_ws_cons in Hs.
    destruct (c =? LBRACE)%N.
    { destruct (skip_ws t) as [|c' t']; [done|].
      destruct (c' =? RBRACE)%N; [done|]. eapply IHm; [done|lia]. }
    destruct (c =? LBRACKET)%N; [|done].
    destruct (skip_ws t) as [|c' t']; [done|].
    destruct (c' =? RBRACKET)%N; [done|]. eapply IHe; [done|lia].
  - intros s acc r H [|n] Hn; [lia|].
    cbn [parse_elements] in H |- *.
    destruct (parse_value m s) as [[v t]|] eqn:Hv; [|done].
    rewrite (IHv _ _ Hv n) by lia. cbn in H |- *.
    apply (proj1 (parse_consumes m)) in Hv.
    destruct (skip_ws t) as [|c t'] eqn:Ht; [done|]. apply skip_ws_cons in Ht.
    destruct (c =? COMMA)%N; [|done]. eapply IHe; [done|lia].
  - intros s acc r H [|n] Hn; [lia|].
    cbn [parse_members] in H |- *.
    destruct (skip_ws s) as [|q t] eqn:Hs; [done|]. apply skip_ws_cons in Hs.
    destruct (q =? QUOTE)%N; [|done].
    destruct (parse_string_body t) as [[key t1]|] eqn:Hk; [|done]. cbn in H |- *.
    apply parse_string_body_length in Hk.
    destruct (skip_ws t1) as [|c t2] eqn:Ht1; [done|]. apply skip_ws_cons in Ht1.
    destruct (c =? COLON)%N; [|done].
    destruct (parse_value m t2) as [[v t3]|] eqn:Hv; [|done].
    rewrite (IHv _ _ Hv n) by lia. cbn in H |- *.
    apply (proj1 (parse_consumes m)) in Hv.
    destruct (skip_ws t3) as [|c' t4] eqn:Ht3; [done|]. apply skip_ws_cons in Ht3.
    destruct (c' =? COMMA)%N; [|done]. eapply IHm; [done|lia].
Qed.

(** The fuel given by [JSON_parse] is never exhausted: any larger amount
    gives the same result, so [None] always is a syntax error. *)
Lemma parse_value_fuel s fuel :
  2 * length s + 2 <= fuel ->
  parse_value fuel s = parse_value (2 * length s + 2) s.
Proof.
  intros Hfuel.
  destruct (parse_value fuel s) as [r|] eqn:H1.
  - symmetry. eapply (proj1 (parse_enough_fuel fuel)); [done|lia].
  - destruct (parse_value (2 * length s + 2) s) as [r|] eqn:H2; [|done].
    pose proof (proj1 (parse_enough_fuel _) _ _ H2 fuel ltac:(lia)). congruence.
Qed.

Lemma JSON_parse_fuel text fuel :
  2 * length text + 2 <= fuel ->
  JSON_parse text
  = '(v, rest) ← parse_value fuel text;
    match skip_ws rest with [] => Some v | _ :: _ => None end.
Proof.
  intros Hfuel. unfold JSON_parse. rewrite (parse_value_fuel text fuel) by done.
  by destruct (parse_value _ _) as [[v rest]|].
Qed.

End JsonParseFacts.

(* ===================================================================== *)
(** ** JSON extraction *)
(* ===================================================================== *)

Module ExtractFacts.

(** The loop of [extractJSON] stops at the closing brace found by
    [closing_brace] and parses the text from the first brace up to it. *)
Lemma scan_closing_brace text startIndex rest i braceCount inString escapeNext :
  scan text startIndex rest i braceCount inString escapeNext
  = match closing_brace rest i braceCount inString escapeNext with
    | Some j => parsed_or_null (slice startIndex (j + 1) text)
    | None => JNull
    end.
Proof.
  revert i braceCount inString escapeNext.
  induction rest as [|char rest IH]; intros i braceCount inString escapeNext.
  - reflexivity.
  - cbn [scan closing_brace].
    destruct escapeNext; [apply IH|].
    destruct ((char =? BACKSLASH)%N && inString); [apply IH|].
    destruct (char =? QUOTE)%N; [apply IH|].
    destruct inString; [apply IH|].
    destruct (char =? RBRACE)%N; [|apply IH].
    cbn zeta.
    destruct (_ =? 0)%Z; [|apply IH].
    unfold parsed_or_null. destruct (JSON_parse _); reflexivity.
Qed.

Lemma extract_from_first_brace_balanced text :
  extract_from_first_brace text
  = match balanced_substring text with
    | Some sub => parsed_or_null sub
    | None => JNull
    end.
Proof.
  unfold extract_from_first_brace, balanced_substring.
  destruct (indexOf LBRACE text) as [startIndex|]; [|reflexivity].
  rewrite scan_closing_brace. cbn.
  destruct (closing_brace _ _ _ _ _); reflexivity.
Qed.

(** [indexOf] finds the first occurrence. *)
Lemma indexOf_Some c text i :
  indexOf c text = Some i ->
  exists pre post, text = pre ++ c :: post /\ (c ∉ pre) /\ length pre = i.
Proof.
  revert i. induction text as [|x text IH]; intros i; [done|]. cbn.
  destruct (x =? c)%N eqn:Hx.
  - intros [= <-]. apply N.eqb_eq in Hx as ->.
    exists [], text. split; [done|]. split; [apply not_elem_of_nil|done].
  - destruct (indexOf c text) as [j|]; [|done]. intros [= <-].
    destruct (IH j eq_refl) as (pre & post & -> & Hpre & <-).
    exists (x :: pre), post. split; [done|]. split; [|done].
    apply N.eqb_neq in Hx. rewrite not_elem_of_cons. done.
Qed.

Lemma indexOf_None c text : indexOf c text = None -> c ∉ text.
Proof.
  induction text as [|x text IH]; cbn; [intros _; apply not_elem_of_nil|].
  destruct (x =? c)%N eqn:Hx; [done|].
  destruct (indexOf c text); [done|]. intros _.
  apply N.eqb_neq in Hx. rewrite not_elem_of_cons. split; [done|by apply IH].
Qed.

(** The walk stops on a closing brace. *)
Lemma closing_brace_Some rest i braceCount inString escapeNext j :
  closing_brace rest i braceCount inString escapeNext = Some j ->
  exists k, j = i + k /\ rest !! k = Some RBRACE.
Proof.
  revert i braceCount inString escapeNext.
  induction rest as [|char rest IH]; intros i braceCount inString escapeNext; [done|].
  cbn [closing_brace].
  assert (forall b s e, closing_brace rest (S i) b s e = Some j ->
                        exists k, j = i + k /\ (char :: rest) !! k = Some RBRACE) as Hnext.
  { intros b s e H. apply IH in H as (k & -> & Hk). exists (S k). split; [lia|done]. }
  destruct escapeNext; [apply Hnext|].
  destruct ((char =? BACKSLASH)%N && inString); [apply Hnext|].
  destruct (char =? QUOTE)%N; [apply Hnext|].
  destruct inString; [apply Hnext|].
  destruct (char =? RBRACE)%N eqn:Hc; [|apply Hnext].
  destruct (_ =? 0)%Z; [|apply Hnext].
  intros [= <-]. exists 0. split; [lia|]. apply N.eqb_eq in Hc as ->. done.
Qed.

(** The balanced substring starts at the first opening brace of the text
    and ends with a closing brace. *)
Lemma balanced_substring_shape text sub :
  balanced_substring text = Some sub ->
  exists pre body post,
    text = pre ++ sub ++ post /\ (LBRACE ∉ pre) /\
    sub = LBRACE :: body ++ [RBRACE].
Proof.
  unfold balanced_substring.
  destruct (indexOf LBRACE text) as [startIndex|] eqn:Hi; [|done]. cbn.
  destruct (closing_brace _ _ _ _ _) as [j|] eqn:Hc; [|done]. cbn.
  intros [= <-].
  apply indexOf_Some in Hi as (pre & rest & -> & Hpre & <-).
  rewrite drop_app_length in Hc.
  apply closing_brace_Some in Hc as (k & -> & Hk).
  destruct k as [|k]; [done|]. cbn in Hk.
  unfold slice. rewrite drop_app_length.
  replace (length pre + S k + 1 - length pre) with (S (S k)) by lia.
  exists pre, (take k rest), (drop (S k) rest).
  assert (take (S (S k)) (LBRACE :: rest) = LBRACE :: take k rest ++ [RBRACE]) as ->.
  { cbn. f_equal. by apply take_S_r. }
  split; [|done].
  f_equal. cbn. f_equal. rewrite <- app_assoc. cbn.
  symmetry. by apply take_drop_middle.
Qed.

Lemma indexOf_not_elem c text : c ∉ text -> indexOf c text = None.
Proof.
  intros Hc. destruct (indexOf c text) as [i|] eqn:Hi; [|done].
  apply indexOf_Some in Hi as (pre & post & -> & _ & _).
  exfalso. apply Hc. apply elem_of_app. right. apply list_elem_of_here.
Qed.

Lemma extractJSON_whole text v :
  JSON_parse text = Some v -> extractJSON text = v.
Proof. unfold extractJSON. intros ->. reflexivity. Qed.

Lemma extractJSON_fallback text :
  JSON_parse text = None ->
  extractJSON text = extract_from_first_brace text.
Proof. unfold extractJSON. intros ->. reflexivity. Qed.

Lemma extractJSON_no_brace text :
  JSON_parse text = None -> LBRACE ∉ text -> extractJSON text = JNull.
Proof.
  intros Hp Hi. rewrite extractJSON_fallback by done.
  unfold extract_from_first_brace. by rewrite indexOf_not_elem.
Qed.

(** C3, as amended.  [extractJSON] first parses the whole text and returns
    that value when the text is JSON.  Otherwise it takes the first opening
    brace, walks forward counting brace depth outside string literals
    (quotes toggle the string state, a backslash inside a string skips the
    next code unit) up to the closing brace at depth zero, and parses that
    substring, with [null] when there is none or it is not JSON.  The text
    with a prefix and a trailer yields the object [{a:1, b:{c:2}}]; an
    escaped quote inside a string value does not end the string, nor do
    braces inside a string count; a text with no opening brace that is not
    itself JSON yields [null]. *)
Theorem extractJSON_algorithm :
  (forall text v, JSON_parse text = Some v -> extractJSON text = v) /\
  (forall text, JSON_parse text = None ->
     extractJSON text
     = match balanced_substring text with
       | Some sub => parsed_or_null sub
       | None => JNull
       end) /\
  (forall text sub, balanced_substring text = Some sub ->
     exists pre body post,
       text = pre ++ sub ++ post /\ (LBRACE ∉ pre) /\
       sub = LBRACE :: body ++ [RBRACE]) /\
  extractJSON (jsq "prefix text {'a':1,'b':{'c':2}} trailing")
  = JObj [(js "a", JNum 1 0); (js "b", JObj [(js "c", JNum 2 0)])] /\
  extractJSON (jsq "{'a':'he said \'hi\''}")
  = JObj [(js "a", JStr (jsq "he said 'hi'"))] /\
  extractJSON (jsq "Sure: {'a':'he said \'hi\''} Done.")
  = JObj [(js "a", JStr (jsq "he said 'hi'"))] /\
  extractJSON (jsq "see {'a':'}{','b':[{}]} }")
  = JObj [(js "a", JStr (js "}{")); (js "b", JArr [JObj []])] /\
  (forall text, JSON_parse text = None -> LBRACE ∉ text ->
     extractJSON text = JNull).
Proof.
  split; [exact extractJSON_whole|].
  split.
  { intros text Hp. rewrite extractJSON_fallback by done.
    apply extract_from_first_brace_balanced. }
  split; [exact balanced_substring_shape|].
  repeat (split; [vm_compute; reflexivity|]).
  exact extractJSON_no_brace.
Qed.

Lemma extractJSON_algorithm_witness :
  extractJSON (js "[1, 2]") = JArr [JNum 1 0; JNum 2 0] /\
  extractJSON (js "no json in this reply") = JNull.
Proof.
  destruct extractJSON_algorithm as (Hwhole & _ & _ & _ & _ & _ & _ & Hnone).
  split.
  - apply Hwhole. vm_compute. reflexivity.
  - apply Hnone; [vm_compute; reflexivity|].
    apply indexOf_None. vm_compute. reflexivity.
Defined.

(** C3 as stated fails: a text without any opening brace that is itself
    JSON, here the empty array, is returned parsed, not as [null]. *)
Lemma extractJSON_json_text_without_brace :
  (LBRACE ∉ js "[]") /\
  extractJSON (js "[]") = JArr [] /\
  extractJSON (js "[]") <> JNull.
Proof.
  split; [apply indexOf_None; vm_compute; reflexivity|].
  split; [vm_compute; reflexivity|]. vm_compute. discriminate.
Qed.

(** C9.  On the scanning path [extractJSON] commits to the first opening
    brace: when the balanced substring that starts there is not JSON the
    result is [null], whatever follows in the text, also a well-formed
    object. *)
Theorem extractJSON_commits_to_first_brace :
  (forall text sub,
     balanced_substring text = Some sub -> JSON_parse sub = None ->
     extract_from_first_brace text = JNull) /\
  (forall text sub,
     JSON_parse text = None ->
     balanced_substring text = Some sub -> JSON_parse sub = None ->
     extractJSON text = JNull) /\
  (JSON_parse (jsq "{'a':1}") = Some (JObj [(js "a", JNum 1 0)]) /\
   extractJSON (jsq "{oops} and then {'a':1}") = JNull).
Proof.
  split; [|split].
  - intros text sub Hb Hs. rewrite extract_from_first_brace_balanced, Hb.
    unfold parsed_or_null. rewrite Hs. reflexivity.
  - intros text sub Hp Hb Hs. rewrite extractJSON_fallback by done.
    rewrite extract_from_first_brace_balanced, Hb.
    unfold parsed_or_null. rewrite Hs. reflexivity.
  - split; vm_compute; reflexivity.
Qed.

Lemma extractJSON_commits_to_first_brace_witness :
  extractJSON (jsq "{oops} and then {'a':1}") = JNull.
Proof.
  apply (proj1 (proj2 extractJSON_commits_to_first_brace)
           (jsq "{oops} and then {'a':1}") (js "{oops}"));
    vm_compute; reflexivity.
Defined.

End ExtractFacts.

(* ===================================================================== *)
(** ** The batch annotator *)
(* ===================================================================== *)

Module ParseLyricsFacts.

Lemma batch_count_step n i :
  i < n -> (n - i + 7) / 8 = S ((n - (i + 8) + 7) / 8).
Proof.
  intros Hi.
  destruct (decide (8 <= n - i)) as [Hge|Hlt].
  - replace (n - i + 7) with ((n - (i + 8) + 7) + 1 * 8) by lia.
    rewrite Nat.div_add by lia. lia.
  - replace (n - (i + 8)) with 0 by lia.
    replace (n - i + 7) with ((n - i - 1) + 1 * 8) by lia.
    rewrite Nat.div_add by lia.
    rewrite !Nat.div_small by lia. reflexivity.
Qed.

Lemma batch_count_done n i : n <= i -> (n - i + 7) / 8 = 0.
Proof. intros Hi. apply Nat.div_small. lia. Qed.

Lemma batch_count_le n : batch_count n <= n.
Proof.
  unfold batch_count, batchSize. cbn [Nat.sub].
  destruct n as [|n]; [reflexivity|].
  apply Nat.Div0.div_le_upper_bound. lia.
Qed.

Section Loop.
Context (llm : lyrics_model) (lyrics : list jsstring).

(** The loop pushes the results of the batches that remain, in order. *)
Lemma parseLyrics_loop_batches fuel i results :
  (length lyrics - i + 7) / 8 <= fuel ->
  parseLyrics_loop fuel llm lyrics i results
  = results ++ concat (map (results_at llm lyrics)
                         (batch_starts ((length lyrics - i + 7) / 8) i)).
Proof.
  revert i results.
  induction fuel as [|fuel IH]; intros i results Hfuel.
  - replace ((length lyrics - i + 7) / 8) with 0 by lia.
    cbn. by rewrite app_nil_r.
  - cbn [parseLyrics_loop]. case_bool_decide as Hi.
    + rewrite (batch_count_step _ _ Hi) in Hfuel |- *.
      unfold batchSize at 1. rewrite IH by lia.
      cbn [batch_starts map concat]. unfold batchSize at 2.
      rewrite <- app_assoc. reflexivity.
    + rewrite batch_count_done by lia. cbn. by rewrite app_nil_r.
Qed.

(** The fuel given by [parseLyrics] is never exhausted: any larger amount
    gives the same result. *)
Lemma parseLyrics_loop_fuel fuel :
  length lyrics <= fuel ->
  parseLyrics_loop fuel llm lyrics 0 [] = parseLyrics llm lyrics.
Proof.
  intros Hfuel. unfold parseLyrics.
  pose proof (batch_count_le (length lyrics)) as Hle.
  unfold batch_count, batchSize in Hle. cbn [Nat.sub] in Hle.
  rewrite !parseLyrics_loop_batches; rewrite ?Nat.sub_0_r; [done|lia..].
Qed.

(** [parseLyrics] is the concatenation of what each batch contributes. *)
Lemma parseLyrics_batches :
  parseLyrics llm lyrics
  = concat (map (results_at llm lyrics)
              (batch_starts (batch_count (length lyrics)) 0)).
Proof.
  unfold parseLyrics.
  pose proof (batch_count_le (length lyrics)) as Hle.
  unfold batch_count, batchSize in Hle |- *. cbn [Nat.sub] in Hle |- *.
  rewrite parseLyrics_loop_batches; rewrite ?Nat.sub_0_r; [done|lia].
Qed.

End Loop.

Lemma batch_at_take_drop (lyrics : list jsstring) i :
  batch_at lyrics i = take 8 (drop i lyrics).
Proof.
  unfold batch_at, slice, batchSize. f_equal. lia.
Qed.

Lemma batch_at_lookup (lyrics : list jsstring) i j line :
  batch_at lyrics i !! j = Some line -> lyrics !! (i + j) = Some line /\ j < 8.
Proof.
  rewrite batch_at_take_drop. intros H.
  apply lookup_take_Some in H as [H Hj]. rewrite lookup_drop in H. done.
Qed.

(** Consecutive batches tile the text: results computed line by line from
    the global index come out the same batch by batch. *)
Lemma batches_tile {B} (h : nat -> jsstring -> B) (lyrics : list jsstring) count i :
  concat (map (fun i => imap (fun j => h (i + j)) (batch_at lyrics i))
            (batch_starts count i))
  = imap (fun j => h (i + j)) (take (count * 8) (drop i lyrics)).
Proof.
  revert i. induction count as [|count IH]; intros i; [done|].
  cbn [batch_starts map concat]. unfold batchSize at 1. rewrite IH.
  replace (S count * 8) with (8 + count * 8) by lia.
  rewrite <- take_take_drop, imap_app, drop_drop, batch_at_take_drop.
  f_equal.
  destruct (decide (length (take 8 (drop i lyrics)) = 8)) as [Hfull|Hshort].
  - apply imap_ext. intros j x _. cbn. rewrite Hfull. f_equal. lia.
  - rewrite length_take, length_drop in Hshort.
    rewrite (drop_ge lyrics (i + 8)) by lia. by rewrite take_nil.
Qed.

Lemma batches_cover (lyrics : list jsstring) :
  take (batch_count (length lyrics) * 8) lyrics = lyrics.
Proof.
  apply take_ge. unfold batch_count, batchSize. cbn [Nat.sub].
  pose proof (Nat.div_mod_eq (length lyrics + 7) 8) as Hd.
  pose proof (Nat.mod_upper_bound (length lyrics + 7) 8). lia.
Qed.

(** [parseLyricsBatch] throws exactly on the requests that fail. *)
Lemma parseLyricsBatch_fails answer batch i :
  batch_fails answer ->
  parseLyricsBatch answer batch i = Err LyricsParsingFailed.
Proof.
  destruct answer as [|content]; [done|].
  unfold batch_fails, parseLyricsBatch. cbv zeta.
  intros [->|(v & Hv & Ht & Harr)]; [done|].
  destruct (truthy (extractJSON _)); [|done]. cbn [negb].
  unfold js_or. rewrite Hv, Ht.
  destruct v as [| | | |lines|]; try done. by destruct (Harr lines).
Qed.

Lemma parseLyricsBatch_Err answer batch i e :
  parseLyricsBatch answer batch i = Err e -> batch_fails answer.
Proof.
  destruct answer as [|content]; [done|].
  unfold batch_fails, parseLyricsBatch. cbv zeta.
  destruct (truthy (extractJSON _)) eqn:Ht; [|by left]. cbn [negb].
  unfold js_or. destruct (get_prop _ _) as [v|] eqn:Hv; [|done].
  destruct (truthy v) eqn:Htv; [|done].
  intros He. right. exists v. split; [done|]. split; [done|].
  intros lines ->. done.
Qed.

Lemma batch_results_fails answer batch i :
  batch_fails answer ->
  batch_results answer batch i = imap (placeholder i) batch.
Proof.
  intros Hf. unfold batch_results. by rewrite parseLyricsBatch_fails.
Qed.

(** C2.  [parseLyrics] always returns: its result is what the batches
    contribute, in order.  [parseLyricsBatch] throws exactly when the
    request fails: the API throws, the value extracted from the reply is
    falsy, or its [lines] is truthy and no array.  A batch whose request
    fails contributes one placeholder per line of the batch: line [j] of
    the batch that starts at [i], which is line [i + j] of the input, gets
    the record with line number [i + j + 1], its own text, the empty
    translation and the texts '[]' for furigana and tokens.  When every
    batch fails the whole result is these placeholders for all lines. *)
Theorem parseLyrics_placeholders_on_failure (llm : lyrics_model) (lyrics : list jsstring) :
  parseLyrics llm lyrics
  = concat (map (results_at llm lyrics)
              (batch_starts (batch_count (length lyrics)) 0)) /\
  (forall answer batch i,
     (exists e, parseLyricsBatch answer batch i = Err e) <-> batch_fails answer) /\
  (forall i e,
     parseLyricsBatch (llm i (batch_at lyrics i)) (batch_at lyrics i) i = Err e ->
     length (results_at llm lyrics i) = length (batch_at lyrics i) /\
     forall j line, batch_at lyrics i !! j = Some line ->
       lyrics !! (i + j) = Some line /\
       results_at llm lyrics i !! j
       = Some (JObj [ (js "lineNumber", JNum (Z.of_nat (i + j + 1)) 0);
                      (js "contentJa", JStr line);
                      (js "contentZh", JStr []);
                      (js "furigana", JStr (js "[]"));
                      (js "tokens", JStr (js "[]")) ])) /\
  ((forall i batch, exists e, parseLyricsBatch (llm i batch) batch i = Err e) ->
     length (parseLyrics llm lyrics) = length lyrics /\
     forall k line, lyrics !! k = Some line ->
       parseLyrics llm lyrics !! k
       = Some (JObj [ (js "lineNumber", JNum (Z.of_nat (k + 1)) 0);
                      (js "contentJa", JStr line);
                      (js "contentZh", JStr []);
                      (js "furigana", JStr (js "[]"));
                      (js "tokens", JStr (js "[]")) ])).
Proof.
  split; [apply parseLyrics_batches|]. split; [|split].
  - intros answer batch i. split.
    + intros [e He]. by apply parseLyricsBatch_Err in He.
    + intros Hf. eexists. by apply parseLyricsBatch_fails.
  - intros i e He. apply parseLyricsBatch_Err in He as Hf.
    unfold results_at. rewrite batch_results_fails by done.
    split; [apply length_imap|].
    intros j line Hj. split; [by apply batch_at_lookup in Hj as [? _]|].
    rewrite list_lookup_imap, Hj. reflexivity.
  - intros Hall.
    assert (forall i batch, batch_fails (llm i batch)) as Hall'.
    { intros i batch. destruct (Hall i batch) as [e He].
      by apply parseLyricsBatch_Err in He. }
    assert (parseLyrics llm lyrics = imap (placeholder 0) lyrics) as ->.
    { rewrite parseLyrics_batches.
      rewrite (map_ext _ (fun i => imap (fun j => placeholder 0 (i + j))
                                     (batch_at lyrics i))).
      - rewrite (batches_tile (placeholder 0)), drop_0, batches_cover.
        reflexivity.
      - intros i. unfold results_at. rewrite batch_results_fails by apply Hall'.
        apply imap_ext. intros j line _. unfold placeholder. cbn.
        do 4 f_equal. }
    split; [apply length_imap|].
    intros k line Hk. rewrite list_lookup_imap, Hk. reflexivity.
Qed.

(** The same on a model that answers every request with a reply whose
    [lines] is a number. *)
Lemma parseLyrics_placeholders_on_failure_witness :
  parseLyrics (fun _ _ => Reply (Some (jsq "{'lines':5}"))) [js "a"; js "b"] !! 1
  = Some (JObj [ (js "lineNumber", JNum 2 0);
                 (js "contentJa", JStr (js "b"));
                 (js "contentZh", JStr []);
                 (js "furigana", JStr (js "[]"));
                 (js "tokens", JStr (js "[]")) ]).
Proof.
  apply (proj2 (proj2 (proj2 (proj2
           (parseLyrics_placeholders_on_failure
              (fun _ _ => Reply (Some (jsq "{'lines':5}"))) [js "a"; js "b"])))
           ltac:(intros; eexists; vm_compute; reflexivity)) 1 (js "b")).
  reflexivity.
Defined.

Lemma lookup_set_prop_eq k v ms : lookup_prop k (set_prop k v ms) = Some v.
Proof.
  induction ms as [|[k' v'] ms IH]; cbn.
  - by rewrite decide_True.
  - destruct (decide (k' = k)) as [->|Hne]; cbn.
    + by rewrite decide_True.
    + by rewrite decide_False.
Qed.

(** Step 4 of the batch annotator: whatever a batch contributes, success
    or failure, its entry at position [j] carries the line number
    [i + j + 1]. *)
Lemma batch_results_numbered answer batch i j r :
  batch_results answer batch i !! j = Some r ->
  lineNumber_of r = Some (num (i + j + 1)).
Proof.
  unfold batch_results.
  destruct (parseLyricsBatch answer batch i) as [rs|e] eqn:Hb.
  - unfold parseLyricsBatch in Hb.
    destruct answer as [|content]; [done|].
    destruct (negb _); [done|].
    destruct (js_or _ _) as [| | | |lines|]; try done.
    injection Hb as <-. rewrite list_lookup_imap.
    destruct (lines !! j) as [line|]; [|done].
    intros [= <-]. apply lookup_set_prop_eq.
  - rewrite list_lookup_imap. destruct (batch !! j) as [line|]; [|done].
    intros [= <-]. reflexivity.
Qed.

Section CountsMatch.
Context (llm : lyrics_model) (lyrics : list jsstring).

(** Every batch contributes as many entries as it has lines: it failed, or
    the model answered with one line per line of the batch. *)
Hypothesis counts_match :
  forall i, i < length lyrics ->
    length (results_at llm lyrics i) = length (batch_at lyrics i).

Lemma parseLyrics_loop_numbered fuel i results :
  length results = i `min` length lyrics ->
  (forall k r, results !! k = Some r -> lineNumber_of r = Some (num (k + 1))) ->
  (length lyrics - i + 7) / 8 <= fuel ->
  let out := parseLyrics_loop fuel llm lyrics i results in
  length out = length lyrics /\
  forall k r, out !! k = Some r -> lineNumber_of r = Some (num (k + 1)).
Proof using counts_match.
  revert i results.
  induction fuel as [|fuel IH]; intros i results Hlen Hnum Hfuel.
  - cbn. split; [|done].
    assert (length lyrics <= i); [|lia].
    destruct (decide (length lyrics <= i)) as [|Hlt]; [done|].
    rewrite batch_count_step in Hfuel by lia. lia.
  - cbn [parseLyrics_loop]. case_bool_decide as Hi; [|split; [lia|done]].
    fold (batch_at lyrics i). fold (results_at llm lyrics i).
    apply IH.
    + rewrite length_app, counts_match, batch_at_take_drop by done.
      rewrite length_take, length_drop. unfold batchSize. lia.
    + intros k r Hk. apply lookup_app_Some in Hk as [Hk|[Hge Hk]]; [by apply Hnum|].
      apply batch_results_numbered in Hk. rewrite Hk. do 2 f_equal. lia.
    + rewrite batch_count_step in Hfuel by done. unfold batchSize. lia.
Qed.

(** When every batch contributes one entry per line, the result has one
    entry per input line and entry [k] carries line number [k + 1]. *)
Lemma parseLyrics_numbered_when_counts_match :
  length (parseLyrics llm lyrics) = length lyrics /\
  forall k r, parseLyrics llm lyrics !! k = Some r ->
    lineNumber_of r = Some (num (k + 1)).
Proof using counts_match.
  unfold parseLyrics. apply parseLyrics_loop_numbered.
  - cbn. lia.
  - intros k r Hk. done.
  - rewrite Nat.sub_0_r. pose proof (batch_count_le (length lyrics)) as Hle.
    unfold batch_count, batchSize in Hle. cbn [Nat.sub] in Hle. done.
Qed.

End CountsMatch.

(** C1 fails on the code.  A reply that parses but holds fewer lines than
    the batch (here one entry for two lines) is passed on as it is: the
    result has one entry for two input lines. *)
Theorem parseLyrics_short_reply :
  length merging_lyrics = 2 /\
  parseLyrics merging_model merging_lyrics
  = [ JObj [ (js "lineNumber", JNum 1 0);
             (js "contentJa", JStr (js "yume no tsuzuki oikakete"));
             (js "contentZh", JStr (js "chasing the rest of the dream"));
             (js "furigana", JStr (js "[]"));
             (js "tokens", JStr (js "[]")) ] ].
Proof. split; vm_compute; reflexivity. Qed.

End ParseLyricsFacts.

(* ===================================================================== *)
(** ** Card generation for one line *)
(* ===================================================================== *)

Module GenerateCardsFacts.

Lemma generateCardsFromLine_Ok answer v :
  generateCardsFromLine answer = Ok v ->
  exists content,
    answer = Reply content /\
    truthy (extractJSON (reply_text content)) = true /\
    v = js_or (get_prop "cards" (extractJSON (reply_text content))) (JArr []).
Proof.
  destruct answer as [|content]; [done|]. cbn.
  destruct (truthy _) eqn:Ht; [|done]. cbn.
  intros [= <-]. eauto.
Qed.

(** C5.  When no JSON can be extracted from the reply, the call throws
    the error of card generation; so does it when the request itself
    throws.  Nothing stands in for the missing result: a value is returned
    only together with a successful extraction, the generation handler
    answers with the error and the import skips the line, and neither
    stores a card. *)
Theorem generateCardsFromLine_hard_failure :
  (forall content,
     extractJSON (reply_text content) = JNull ->
     generateCardsFromLine (Reply content) = Err CardGenerationFailed) /\
  generateCardsFromLine ApiError = Err CardGenerationFailed /\
  (forall answer v,
     generateCardsFromLine answer = Ok v ->
     exists content,
       answer = Reply content /\
       extractJSON (reply_text content) <> JNull) /\
  (forall content count n line cards,
     extractJSON (reply_text content) = JNull ->
     validate_count count = Some n ->
     generateRoute count (Some line) (Reply content) cards
     = (ServerError CardGenerationFailed, cards)) /\
  (forall content n line generated cards,
     extractJSON (reply_text content) = JNull ->
     importCards (fun _ => Reply content) n [line] generated cards
     = (generated, cards)).
Proof.
  assert (forall content,
            extractJSON (reply_text content) = JNull ->
            generateCardsFromLine (Reply content) = Err CardGenerationFailed)
    as Hfail.
  { intros content H. cbn. rewrite H. reflexivity. }
  split; [done|]. split; [reflexivity|]. split; [|split].
  - intros answer v H.
    apply generateCardsFromLine_Ok in H as (content & -> & Ht & _).
    exists content. split; [done|]. intros Hn. by rewrite Hn in Ht.
  - intros content count n line cards H Hv. unfold generateRoute.
    by rewrite Hv, Hfail.
  - intros content n line generated cards H. cbn [importCards].
    by rewrite Hfail.
Qed.

Lemma generateCardsFromLine_hard_failure_witness :
  generateCardsFromLine (Reply (Some (js "Sorry, I cannot help with that.")))
  = Err CardGenerationFailed.
Proof.
  apply (proj1 generateCardsFromLine_hard_failure).
  vm_compute. reflexivity.
Defined.

Lemma slice_to_nil {A} n : slice_to (@nil A) n = [].
Proof. unfold slice_to. destruct (_ <? _)%Z; apply take_nil. Qed.

(** When the extraction succeeds and the parsed value has no [cards]
    property, or one that is falsy such as [null], the call returns the
    empty list and does not throw; both handlers then store no card for
    the line and report success. *)
Lemma generateCardsFromLine_missing_cards content :
  truthy (extractJSON (reply_text content)) = true ->
  truthy_opt (get_prop "cards" (extractJSON (reply_text content))) = false ->
  generateCardsFromLine (Reply content) = Ok (JArr []) /\
  (forall count n line cards,
     validate_count count = Some n ->
     generateRoute count (Some line) (Reply content) cards = (Success [], cards)) /\
  (forall n line generated cards,
     importCards (fun _ => Reply content) n [line] generated cards
     = (generated ++ [(line_id line, [])], cards)).
Proof.
  intros Ht Hc.
  assert (generateCardsFromLine (Reply content) = Ok (JArr [])) as Hg.
  { cbn. rewrite Ht. cbn. f_equal. unfold js_or.
    destruct (get_prop _ _) as [v|]; [|done]. cbn in Hc. by rewrite Hc. }
  split; [done|]. split.
  - intros count n line cards Hv. unfold generateRoute.
    rewrite Hv, Hg. cbn. by rewrite slice_to_nil.
  - intros n line generated cards. cbn [importCards].
    rewrite Hg. cbn. by rewrite slice_to_nil.
Qed.

Lemma generateCardsFromLine_missing_cards_sample :
  generateCardsFromLine (Reply (Some (jsq "{'words':[{'word':'yume'}]}")))
  = Ok (JArr []).
Proof.
  apply (generateCardsFromLine_missing_cards
           (Some (jsq "{'words':[{'word':'yume'}]}")));
    vm_compute; reflexivity.
Qed.

(** C10 fails on the code.  A reply whose [cards] is truthy without being
    an array, here a single card object, holds no 'cards' array; yet the
    call does not return the empty list: it returns the object as it is,
    against its declared result, an array of cards.  The generation
    handler then fails on it with a type error, and the import skips the
    line without an entry for it, where a line without cards gets an
    entry with the empty list.  The sibling [parseSingleLine] guards the
    same kind of value: a furigana that is no array becomes the empty
    list. *)
Theorem generateCardsFromLine_cards_not_an_array :
  extractJSON (jsq "{'cards':{'word':'yume'}}")
  = JObj [(js "cards", JObj [(js "word", JStr (js "yume"))])] /\
  generateCardsFromLine (Reply (Some (jsq "{'cards':{'word':'yume'}}")))
  = Ok (JObj [(js "word", JStr (js "yume"))]) /\
  generateCardsFromLine (Reply (Some (jsq "{'cards':{'word':'yume'}}")))
  <> Ok (JArr []) /\
  generateRoute None (Some sample_line)
    (Reply (Some (jsq "{'cards':{'word':'yume'}}"))) []
  = (ServerError TypeError, []) /\
  importCards (fun _ => Reply (Some (jsq "{'cards':{'word':'yume'}}")))
    (1, 0)%Z [sample_line] [] []
  = ([], []) /\
  importCards (fun _ => Reply (Some (jsq "{'words':[{'word':'yume'}]}")))
    (1, 0)%Z [sample_line] [] []
  = ([(line_id sample_line, [])], []) /\
  match parseSingleLine
          (Reply (Some (jsq "{'contentZh':'dream','furigana':{'word':'yume'}}"))) with
  | Ok parsed => Some (sl_furigana parsed)
  | Err _ => None
  end = Some [].
Proof.
  split; [vm_compute; reflexivity|]. split; [vm_compute; reflexivity|].
  split; [vm_compute; discriminate|]. repeat split; vm_compute; reflexivity.
Qed.

End GenerateCardsFacts.

(* ===================================================================== *)
(** ** Numbers of a request body *)
(* ===================================================================== *)

Module DoubleFacts.
Local Open Scope Z_scope.






(** The number validated lies within the bounds once truncated. *)
Lemma validate_bounded_trunc lo hi v n :
  validate_bounded lo hi v = Some n -> 1 <= lo <= hi ->
  1 <= num_trunc n.1 n.2 <= hi.
Proof.
  intros Hv Hlo. unfold validate_bounded in Hv.
  destruct v as [[| |m e| | |]|]; try done.
  - destruct (int_leb_num lo m e && num_leb_int m e hi) eqn:Hb; [|done].
    injection Hv as <-. apply andb_prop in Hb as [H1 H2]. cbn [fst snd].
    unfold int_leb_num, num_leb_int, num_trunc in *.
    destruct (to_double m e) as [d s].
    unfold int_leb_double, double_leb_int, double_trunc in *. cbn [fst snd] in *.
    destruct (0 <=? s) eqn:He.
    + apply Z.leb_le in H1, H2. lia.
    + apply Z.leb_le in H1, H2. apply Z.leb_gt in He.
      assert (0 < 2 ^ (- s)) as Hp by (apply Z.pow_pos_nonneg; lia).
      split.
      * apply Z.quot_le_lower_bound; [done|]. nia.
      * apply Z.quot_le_upper_bound; [done|].
        rewrite Z.mul_comm. done.
  - injection Hv as <-. cbn [fst snd].
    assert (num_trunc 1 0 = 1) as -> by (vm_compute; reflexivity). lia.
Qed.

End DoubleFacts.

(* ===================================================================== *)
(** ** Persisting candidate cards *)
(* ===================================================================== *)

Module PersistFacts.
Import DoubleFacts.












End PersistFacts.

(* ===================================================================== *)
(** ** Part of speech *)
(* ===================================================================== *)

Module PartOfSpeechFacts.

(** The normalizer of the import only ever answers with one of the six
    tags. *)
Lemma normalizePartOfSpeech_closed pos p :
  normalizePartOfSpeech pos = Ok p -> p ∈ validPartOfSpeech.
Proof.
  assert (js "other" ∈ validPartOfSpeech) as Hother
    by (unfold validPartOfSpeech; rewrite !elem_of_cons; auto 10).
  assert (js "particle" ∈ validPartOfSpeech) as Hparticle
    by (unfold validPartOfSpeech; rewrite !elem_of_cons; auto 10).
  unfold normalizePartOfSpeech.
  destruct pos as [v|]; [|by intros [= <-]].
  destruct (negb _); [by intros [= <-]|].
  destruct v as [| | |s| |]; try done.
  unfold is_one_of. case_bool_decide as Hv; [by intros [= <-]|].
  repeat (destruct (_ || _); [by intros [= <-]|]). by intros [= <-].
Qed.

Lemma normalizePartOfSpeech_examples :
  normalizePartOfSpeech (Some (JStr (js "pronoun"))) = Ok (js "other") /\
  normalizePartOfSpeech (Some (JStr (js "preposition"))) = Ok (js "particle") /\
  normalizePartOfSpeech (Some (JStr (js "verb"))) = Ok (js "verb") /\
  normalizePartOfSpeech (Some (JStr (js "Verb"))) = Ok (js "verb") /\
  normalizePartOfSpeech (Some (JStr (js "meishi"))) = Ok (js "other") /\
  normalizePartOfSpeech None = Ok (js "other").
Proof. repeat split; vm_compute; reflexivity. Qed.

(** A string that is, in lower case, neither one of the six tags nor a
    name of the preposition maps to 'other'. *)
Lemma normalizePartOfSpeech_unrecognized s :
  toLowerCase s ∉ validPartOfSpeech ->
  toLowerCase s ∉ [js "preposition"; js "prep"] ->
  normalizePartOfSpeech (Some (JStr s)) = Ok (js "other").
Proof.
  intros Hv Hp. unfold normalizePartOfSpeech.
  destruct (negb _); [done|]. unfold is_one_of.
  rewrite (bool_decide_eq_false_2 _ Hv).
  destruct (_ || _); [done|]. destruct (_ || _); [done|].
  assert (str_eq (toLowerCase s) (js "preposition")
          || str_eq (toLowerCase s) (js "prep") = false) as ->.
  { apply orb_false_intro; apply bool_decide_eq_false_2; intros Heq;
      apply Hp; rewrite Heq, !elem_of_cons; auto. }
  by destruct (_ || _).
Qed.

(** The rows stored by the import carry one of the six tags. *)
Lemma imported_row_closed line c :
  exists p, card_partOfSpeech (imported_row line c) = Some (JStr p) /\
            p ∈ validPartOfSpeech.
Proof.
  unfold imported_row, card_row. cbn.
  destruct (normalizePartOfSpeech _) as [p|e] eqn:Hn.
  - exists p. split; [done|]. by eapply normalizePartOfSpeech_closed.
  - eexists. split; [done|].
    unfold validPartOfSpeech. rewrite !elem_of_cons. auto 10.
Qed.

(** C6 fails on POST /api/cards/generate.  For a candidate tagged
    'pronoun' the import stores the tag 'other', while the generation
    handler sends the tag 'pronoun' to the insert as it is: the insert is
    rejected, the request fails and no card is stored. *)
Theorem generateRoute_keeps_raw_part_of_speech :
  card_partOfSpeech <$>
    (importCards (fun _ => pronoun_card) (1, 0)%Z [sample_line] [] []).2
  = [Some (JStr (js "other"))] /\
  match generateCardInput sample_line
          (JObj [(js "word", JStr (js "kimi")); (js "reading", JStr (js "kimi"));
                 (js "meaning", JStr (js "you"));
                 (js "partOfSpeech", JStr (js "pronoun"))]) with
  | Ok input => in_partOfSpeech input
  | Err _ => None
  end = Some (JStr (js "pronoun")) /\
  generateRoute None (Some sample_line) pronoun_card []
  = (ServerError DatabaseError, []).
Proof. repeat split; vm_compute; reflexivity. Qed.

End PartOfSpeechFacts.

(* ===================================================================== *)
(** ** Furigana stored by the import *)
(* ===================================================================== *)

Module FuriganaFacts.

Import ParseLyricsFacts.


(** [parseSingleLine] hands on the furigana array of the reply as it is. *)
Lemma parseSingleLine_returns_model_furigana content r :
  parseSingleLine (Reply content) = Ok r ->
  sl_furigana r
  = array_or_empty (get_prop "furigana" (extractJSON (reply_text content))).
Proof.
  cbn. destruct (negb _); [done|]. by intros [= <-].
Qed.

(** The rows of [createLines], when the insert is accepted: one per
    lyric, in order. *)
Lemma createLines_Ok lyrics timestamps created :
  createLines lyrics timestamps = Ok created ->
  length created = length lyrics /\
  forall k, created !! k = lyrics !! k ≫= line_row timestamps k.
Proof.
  unfold createLines.
  destruct (mapM id _) as [rows|] eqn:Hm; [|done]. intros [= <-].
  apply mapM_Some in Hm. split.
  - apply Forall2_length in Hm. by rewrite length_imap in Hm.
  - intros k. destruct (rows !! k) as [row|] eqn:Hrow.
    + destruct (Forall2_lookup_r _ _ _ _ _ Hm Hrow) as (x & Hx & Hid).
      rewrite list_lookup_imap in Hx.
      destruct (lyrics !! k) as [text|]; [|done]. cbn in Hx |- *.
      injection Hx as <-. done.
    + apply lookup_ge_None in Hrow. apply Forall2_length in Hm.
      rewrite length_imap in Hm.
      rewrite (proj2 (lookup_ge_None lyrics k)); [done|lia].
Qed.

Lemma line_row_Some timestamps k text row :
  line_row timestamps k text = Some row ->
  line_id row = k /\ lineNumber row = k + 1 /\ contentJa row = text /\
  contentZh row = None /\ furigana row = None /\ storable_text text = true.
Proof.
  unfold line_row. destruct (storable_text text); [|done].
  destruct (integer_column (fst <$> _)); [|done].
  destruct (integer_column (snd <$> _)); [|done].
  by intros [= <-].
Qed.

Section Stored.
Context (number_to_string : Z -> Z -> jsstring).



End Stored.



End FuriganaFacts.

(* ===================================================================== *)
(** ** Learning progress *)
(* ===================================================================== *)

Module ProgressFacts.

Section Update.
Context (userId cardId : string).

Lemma row_before_existing (dbNow : Z) (tbl : gmap (string * string) CardProgress)
    (row : CardProgress) :
  tbl !! (userId, cardId) = Some row -> row_before userId cardId dbNow tbl = row.
Proof. intros Hl. unfold row_before. by rewrite Hl. Qed.

(** One update.  When the database takes it, the row returned is the row
    stored, it has the requested status, one more review than before and
    the time of the update; otherwise the update throws and the table is
    what it was. *)
Lemma updateCardStatus_outcome (dbNow reviewedAt now : Z) (references_hold : bool)
    (newStatus : CardStatus) (tbl : gmap (string * string) CardProgress) :
  match updateCardStatus dbNow reviewedAt now references_hold userId cardId
          newStatus tbl with
  | (Ok returned, tbl') =>
      update_possible references_hold userId cardId tbl /\
      exists progress,
        returned = Some progress /\
        tbl' = <[(userId, cardId) := progress]> tbl /\
        status progress = newStatus /\
        reviewCount progress
        = (reviewCount (row_before userId cardId dbNow tbl) + 1)%Z /\
        lastReviewedAt progress = Some reviewedAt /\
        updatedAt progress = now /\
        createdAt progress = createdAt (row_before userId cardId dbNow tbl)
  | (Err e, tbl') =>
      ~ update_possible references_hold userId cardId tbl /\
      e = DatabaseError /\ tbl' = tbl
  end.
Proof.
  unfold updateCardStatus, getOrCreateProgress, update_possible, row_before.
  destruct (tbl !! (userId, cardId)) as [row|] eqn:Hl.
  - rewrite Hl. cbn [default].
    destruct (reviewCount row + 1 <=? INT_MAX)%Z eqn:Hc.
    + apply Z.leb_le in Hc. split; [lia|]. eexists. split; [done|].
      repeat split.
    + apply Z.leb_gt in Hc. split; [lia|]. done.
  - destruct references_hold.
    + rewrite lookup_insert_eq. cbn [reviewCount default].
      change (0 + 1 <=? INT_MAX)%Z with true. cbv iota.
      split; [done|]. eexists. split; [done|].
      split; [by rewrite insert_insert_eq|]. repeat split.
    + split; [done|]. done.
Qed.

Lemma updateCardStatus_row (dbNow reviewedAt now : Z) (references_hold : bool)
    (newStatus : CardStatus) (tbl : gmap (string * string) CardProgress) :
  update_possible references_hold userId cardId tbl ->
  exists progress tbl',
    updateCardStatus dbNow reviewedAt now references_hold userId cardId
      newStatus tbl
    = (Ok (Some progress), tbl') /\
    tbl' !! (userId, cardId) = Some progress /\
    status progress = newStatus /\
    reviewCount progress = (reviewCount (row_before userId cardId dbNow tbl) + 1)%Z /\
    lastReviewedAt progress = Some reviewedAt /\
    updatedAt progress = now /\
    (forall key, key <> (userId, cardId) ->
       tbl' !! key = tbl !! key).
Proof.
  intros Hp.
  pose proof (updateCardStatus_outcome dbNow reviewedAt now references_hold
                newStatus tbl) as Ho.
  destruct (updateCardStatus _ _ _ _ _ _ _ _) as [[returned|e] tbl'].
  - destruct Ho as (_ & progress & -> & -> & Hs & Hc & Hr & Hu & _).
    exists progress, (<[(userId, cardId) := progress]> tbl).
    split; [done|]. split; [apply lookup_insert_eq|]. repeat split; try done.
    intros key Hk. by rewrite lookup_insert_ne.
  - by destruct Ho as [Hn _].
Qed.

Lemma updateCardStatus_refused (dbNow reviewedAt now : Z) (references_hold : bool)
    (newStatus : CardStatus) (tbl : gmap (string * string) CardProgress) :
  ~ update_possible references_hold userId cardId tbl ->
  updateCardStatus dbNow reviewedAt now references_hold userId cardId newStatus tbl
  = (Err DatabaseError, tbl).
Proof.
  intros Hp.
  pose proof (updateCardStatus_outcome dbNow reviewedAt now references_hold
                newStatus tbl) as Ho.
  destruct (updateCardStatus _ _ _ _ _ _ _ _) as [[returned|e] tbl'].
  - by destruct Ho as [Hn _].
  - by destruct Ho as (_ & -> & ->).
Qed.

End Update.

(** C8, as amended.  From a row in state 'new' with no review, marking
    the card mastered and then learning leaves it learning with two
    reviews.  An update, from any state to any state, succeeds whenever
    the database can take it: the pair of user and card has a row whose
    count is below the largest 32-bit integer, or it has no row and the
    user and the card exist.  It then stores the requested status, adds
    exactly one to the review count and records the time of the review;
    when the pair had no row, one is first created in state 'new' with no
    review.  In every other case the update throws and the table stays as
    it was. *)
Theorem updateCardStatus_counts_reviews :
  (forall (userId cardId : string) (tbl : gmap (string * string) CardProgress)
          (row : CardProgress) (references1 references2 : bool)
          (dbNow1 dbNow2 t1 t1' t2 t2' : Z),
     tbl !! (userId, cardId) = Some row ->
     status row = StatusNew -> reviewCount row = 0%Z ->
     exists mid tbl1 final tbl2,
       updateCardStatus dbNow1 t1 t1' references1 userId cardId StatusMastered tbl
       = (Ok (Some mid), tbl1) /\
       updateCardStatus dbNow2 t2 t2' references2 userId cardId StatusLearning tbl1
       = (Ok (Some final), tbl2) /\
       tbl2 !! (userId, cardId) = Some final /\
       status final = StatusLearning /\
       reviewCount final = 2%Z /\
       lastReviewedAt final = Some t2) /\
  (forall (userId cardId : string) (tbl : gmap (string * string) CardProgress)
          (references_hold : bool) (dbNow reviewedAt now : Z) (newStatus : CardStatus),
     match tbl !! (userId, cardId) with
     | Some row => (reviewCount row < 2147483647)%Z
     | None => references_hold = true
     end ->
     exists progress tbl',
       updateCardStatus dbNow reviewedAt now references_hold userId cardId
         newStatus tbl
       = (Ok (Some progress), tbl') /\
       tbl' !! (userId, cardId) = Some progress /\
       status progress = newStatus /\
       reviewCount progress
       = (match tbl !! (userId, cardId) with
          | Some row => reviewCount row
          | None => 0
          end + 1)%Z /\
       lastReviewedAt progress = Some reviewedAt) /\
  (forall (userId cardId : string) (tbl : gmap (string * string) CardProgress)
          (references_hold : bool) (dbNow reviewedAt now : Z) (newStatus : CardStatus),
     ~ match tbl !! (userId, cardId) with
       | Some row => (reviewCount row < 2147483647)%Z
       | None => references_hold = true
       end ->
     updateCardStatus dbNow reviewedAt now references_hold userId cardId
       newStatus tbl
     = (Err DatabaseError, tbl)) /\
  (forall (userId cardId : string) (tbl : gmap (string * string) CardProgress)
          (dbNow : Z),
     tbl !! (userId, cardId) = None ->
     exists progress tbl',
       getOrCreateProgress dbNow true userId cardId tbl = (Ok progress, tbl') /\
       tbl' !! (userId, cardId) = Some progress /\
       status progress = StatusNew /\
       reviewCount progress = 0%Z) /\
  (forall (userId cardId : string) (tbl : gmap (string * string) CardProgress)
          (dbNow : Z),
     tbl !! (userId, cardId) = None ->
     getOrCreateProgress dbNow false userId cardId tbl = (Err DatabaseError, tbl)) /\
  (forall (userId cardId : string) (tbl : gmap (string * string) CardProgress)
          (references_hold : bool) (dbNow : Z) (row : CardProgress),
     tbl !! (userId, cardId) = Some row ->
     getOrCreateProgress dbNow references_hold userId cardId tbl = (Ok row, tbl)).
Proof.
  split; [|split; [|split; [|split; [|split]]]].
  - intros * Hrow Hst Hcount.
    destruct (updateCardStatus_row userId cardId dbNow1 t1 t1' references1
                StatusMastered tbl)
      as (mid & tbl1 & Hu1 & Hl1 & _ & Hc1 & _).
    { unfold update_possible. rewrite Hrow, Hcount. done. }
    rewrite (row_before_existing _ _ _ _ _ Hrow), Hcount in Hc1.
    destruct (updateCardStatus_row userId cardId dbNow2 t2 t2' references2
                StatusLearning tbl1)
      as (final & tbl2 & Hu2 & Hl2 & Hs2 & Hc2 & Ht2 & _).
    { unfold update_possible. rewrite Hl1, Hc1. done. }
    exists mid, tbl1, final, tbl2. repeat split; try done.
    rewrite Hc2, (row_before_existing _ _ _ _ _ Hl1), Hc1. reflexivity.
  - intros * Hp.
    destruct (updateCardStatus_row userId cardId dbNow reviewedAt now
                references_hold newStatus tbl)
      as (progress & tbl' & Hu & Hl & Hs & Hc & Ht & _); [done|].
    exists progress, tbl'. repeat split; try done.
    rewrite Hc. unfold row_before.
    by destruct (tbl !! (userId, cardId)).
  - intros * Hp. by apply updateCardStatus_refused.
  - intros * Hnone. unfold getOrCreateProgress. rewrite Hnone.
    do 2 eexists. split; [done|]. split; [apply lookup_insert_eq|done].
  - intros * Hnone. unfold getOrCreateProgress. by rewrite Hnone.
  - intros * Hrow. unfold getOrCreateProgress. by rewrite Hrow.
Qed.

Lemma updateCardStatus_counts_reviews_witness :
  exists mid tbl1 final tbl2,
    updateCardStatus 2000 2000 2001 false "user-1" "card-1" StatusMastered fresh_table
    = (Ok (Some mid), tbl1) /\
    updateCardStatus 3000 3000 3001 false "user-1" "card-1" StatusLearning tbl1
    = (Ok (Some final), tbl2) /\
    tbl2 !! ("user-1"%string, "card-1"%string) = Some final /\
    status final = StatusLearning /\
    reviewCount final = 2%Z /\
    lastReviewedAt final = Some 3000%Z.
Proof.
  apply (proj1 updateCardStatus_counts_reviews
           "user-1"%string "card-1"%string fresh_table fresh_row false false
           2000 3000 2000 2001 3000 3001)%Z.
  - apply lookup_singleton_eq.
  - reflexivity.
  - reflexivity.
Defined.

(** C8 as stated fails: not every update adds a review, and a row is not
    always created.  At the largest count the column holds the update
    throws and the row stays as it is; for a pair without a row whose
    card does not exist, nothing is created. *)
Lemma updateCardStatus_refused_updates :
  updateCardStatus 2000 2000 2001 true "user-1" "card-1" StatusMastered full_table
  = (Err DatabaseError, full_table) /\
  full_table !! ("user-1"%string, "card-1"%string) = Some full_row /\
  reviewCount full_row = 2147483647%Z /\
  updateCardStatus 2000 2000 2001 false "user-1" "no-such-card" StatusMastered
    fresh_table
  = (Err DatabaseError, fresh_table) /\
  fresh_table !! ("user-1"%string, "no-such-card"%string) = None.
Proof.
  split; [|split; [apply lookup_singleton_eq|split; [reflexivity|split]]].
  - apply updateCardStatus_refused. unfold update_possible, full_table.
    rewrite lookup_singleton_eq. cbn. unfold INT_MAX. lia.
  - apply updateCardStatus_refused. unfold update_possible, fresh_table.
    rewrite lookup_singleton_ne by done. done.
  - unfold fresh_table. by rewrite lookup_singleton_ne.
Qed.

End ProgressFacts.

(* ===================================================================== *)
(** * Further properties *)
(* ===================================================================== *)

(** ** Batching and numbering in [parseLyrics] *)

Module BatchingFacts.

Import ParseLyricsFacts.

Lemma imap_ignore_index {A} (l : list A) : imap (fun _ x => x) l = l.
Proof.
  induction l as [|x l IH]; [done|]. rewrite imap_cons. f_equal. exact IH.
Qed.

Lemma batch_starts_elem count i0 i :
  i ∈ batch_starts count i0 -> exists k, k < count /\ i = i0 + k * 8.
Proof.
  revert i0. induction count as [|count IH]; intros i0; cbn.
  - intros H. by apply elem_of_nil in H.
  - intros [->|H]%elem_of_cons.
    + exists 0. lia.
    + apply IH in H as (k & Hk & ->). exists (S k). unfold batchSize. lia.
Qed.

Lemma batch_count_last n : 0 < n -> (batch_count n - 1) * 8 < n.
Proof.
  intros Hn. unfold batch_count, batchSize. cbn [Nat.sub].
  pose proof (Nat.div_mod_eq (n + 7) 8) as Hd.
  pose proof (Nat.mod_upper_bound (n + 7) 8). lia.
Qed.

(** X1.  The loop of [parseLyrics] makes one request per batch, for the
    batches that start at 0, 8, 16, ...: its result is what these
    requests contribute, in order, and depends on the model through these
    requests alone.  The batches cut the input into consecutive pieces:
    put end to end they give back the input, and each has at least one
    line and at most eight, so that no request is made for an empty
    batch. *)
Theorem parseLyrics_batches_partition (llm : lyrics_model) (lyrics : list jsstring) :
  let starts := batch_starts (batch_count (length lyrics)) 0 in
  parseLyrics llm lyrics
  = concat (map (fun i =>
                   batch_results (llm i (slice i (i + 8) lyrics))
                     (slice i (i + 8) lyrics) i) starts) /\
  (forall llm' : lyrics_model,
     (forall i, i ∈ starts ->
        llm' i (slice i (i + 8) lyrics) = llm i (slice i (i + 8) lyrics)) ->
     parseLyrics llm' lyrics = parseLyrics llm lyrics) /\
  concat (map (fun i => slice i (i + 8) lyrics) starts) = lyrics /\
  forall i, i ∈ starts -> 0 < length (slice i (i + 8) lyrics) <= 8.
Proof.
  cbv zeta. split; [apply parseLyrics_batches|]. split; [|split].
  - intros llm' Hsame. rewrite !parseLyrics_batches. f_equal.
    apply map_ext_in. intros i Hi%list_elem_of_In.
    unfold results_at, batch_at, batchSize. by rewrite Hsame.
  - pose proof (batches_tile (fun _ x => x) lyrics
                  (batch_count (length lyrics)) 0) as Ht.
    rewrite drop_0, batches_cover, imap_ignore_index in Ht.
    etrans; [|exact Ht]. f_equal. apply map_ext. intros i.
    by rewrite imap_ignore_index.
  - intros i Hi. apply batch_starts_elem in Hi as (k & Hk & ->).
    change (slice (0 + k * 8) (0 + k * 8 + 8) lyrics)
      with (batch_at lyrics (0 + k * 8)).
    rewrite batch_at_take_drop, length_take, length_drop.
    destruct (decide (length lyrics = 0)) as [H0|Hpos].
    { rewrite H0 in Hk. cbn in Hk. lia. }
    pose proof (batch_count_last (length lyrics)). lia.
Qed.

End BatchingFacts.

(** ** Roles *)

Module RoleFacts.

Lemma roleHierarchy_role_name r :
  roleHierarchy (role_name r)
  = Some (match r with RoleGuest => 0 | RoleUser => 1 | RoleAdmin => 2 end).
Proof. destruct r; vm_compute; reflexivity. Qed.

(** X21.  The role check of the auth client follows the order guest, user,
    admin: whoever passes for a role passes for every lower one.  Without
    a user nothing passes; a user without stored role is a 'user'; a
    stored role that is none of the three names passes for nothing, not
    even for guest. *)
Theorem hasRole_hierarchy :
  (forall session, hasRole session RoleAdmin = true -> hasRole session RoleUser = true) /\
  (forall session, hasRole session RoleUser = true -> hasRole session RoleGuest = true) /\
  (forall r, hasRole None r = false) /\
  (forall r, hasRole (Some {| stored_role := None |}) r
             = match r with RoleAdmin => false | _ => true end) /\
  (forall name r,
     name <> [] -> roleHierarchy name = None ->
     hasRole (Some {| stored_role := Some name |}) r = false).
Proof.
  assert (forall session r r' x y,
            roleHierarchy (role_name r) = Some x ->
            roleHierarchy (role_name r') = Some y -> y <= x ->
            hasRole session r = true -> hasRole session r' = true) as Hmono.
  { intros [user|] r r' x y Hr Hr' Hle; cbn; [|done].
    rewrite Hr, Hr'. unfold level_geb.
    destruct (roleHierarchy (role_or_user _)) as [l|]; [|done].
    intros Hx%Nat.leb_le. apply Nat.leb_le. lia. }
  split; [|split; [|split; [|split]]].
  - intros session. by apply (Hmono _ RoleAdmin RoleUser 2 1); [..|lia].
  - intros session. by apply (Hmono _ RoleUser RoleGuest 1 0); [..|lia].
  - done.
  - by intros [].
  - intros name r Hne Hnone. cbn. unfold role_or_user.
    rewrite bool_decide_eq_false_2 by done. by rewrite Hnone.
Qed.

Lemma hasRole_hierarchy_witness :
  hasRole (Some {| stored_role := Some (js "admin") |}) RoleUser = true /\
  hasRole (Some {| stored_role := Some (js "superadmin") |}) RoleGuest = false.
Proof.
  destruct hasRole_hierarchy as (Hadmin & _ & _ & _ & Hunknown).
  split.
  - apply Hadmin. vm_compute. reflexivity.
  - apply Hunknown; [vm_compute; discriminate|vm_compute; reflexivity].
Defined.

(** X22.  The auth context and the auth client decide alike: the same roles
    pass, and the context's [isAdmin] (the role is literally 'admin') is
    the client's [isAdmin] (the role passes for admin). *)
Theorem role_checks_agree (session : option SessionUser) :
  (forall r, context_hasRole session r = hasRole session r) /\
  context_isAdmin session = isAdmin session.
Proof.
  split; [by destruct session|].
  destruct session as [user|]; [|done].
  unfold context_isAdmin, isAdmin, hasRole, context_user.
  rewrite roleHierarchy_role_name. unfold roleHierarchy.
  repeat case_bool_decide; subst; try done;
    match goal with H : _ = js "admin" |- _ => rewrite H in *; done end.
Qed.

End RoleFacts.

(** ** The streaming generator and the mock path *)

Module ServicesRestFacts.

(** X5.  The streaming generator reports what [generateCardsFromLine] returns
    for the same reply: one card event per element of the returned array
    and then the complete event with the array; the single error event
    where [generateCardsFromLine] throws.  The two differ only on a
    [cards] that is no array: a string is streamed code point by code
    point, any other value ends the stream with the error event, where
    [generateCardsFromLine] returns it. *)
Theorem streamCardGeneration_follows_generateCardsFromLine (content : option jsstring) :
  match generateCardsFromLine (Reply content) with
  | Err _ => streamCardGeneration (Reply content) = StreamYields [ErrorEvent]
  | Ok (JArr cards) =>
      streamCardGeneration (Reply content)
      = StreamYields (map CardEvent cards ++ [CompleteEvent (JArr cards)])
  | Ok (JStr s) =>
      streamCardGeneration (Reply content)
      = StreamYields (map (fun p => CardEvent (JStr p)) (code_points s)
                      ++ [CompleteEvent (JStr s)])
  | Ok _ => streamCardGeneration (Reply content) = StreamYields [ErrorEvent]
  end.
Proof.
  unfold generateCardsFromLine, streamCardGeneration.
  destruct (truthy (extractJSON (reply_text content))); cbn [negb]; [|done].
  destruct (js_or _ _) as [| | | s | cards |]; cbn [iterate]; try done.
  by rewrite map_map.
Qed.

(** A stream that does not throw ends with exactly one closing event,
    complete or error, and every event before it is a card event: after
    an error event no card was sent, and the complete event carries the
    value whose elements were sent. *)
Theorem streamCardGeneration_closes_once (answer : completion)
    (events : list stream_event) :
  streamCardGeneration answer = StreamYields events ->
  exists cards last,
    events = map CardEvent cards ++ [last] /\
    ((last = ErrorEvent /\ cards = []) \/
     exists v, last = CompleteEvent v /\ iterate v = Some cards).
Proof.
  unfold streamCardGeneration. destruct answer as [|content]; [done|].
  destruct (truthy _); cbn [negb].
  - destruct (iterate _) as [items|] eqn:Hit; intros [= <-].
    + exists items, (CompleteEvent (js_or (get_prop "cards"
               (extractJSON (reply_text content))) (JArr []))).
      split; [done|]. right. eauto.
    + exists [], ErrorEvent. split; [done|]. by left.
  - intros [= <-]. exists [], ErrorEvent. split; [done|]. by left.
Qed.

Lemma streamCardGeneration_closes_once_witness :
  exists cards last,
    [CardEvent (JStr (js "yume")); CompleteEvent (JArr [JStr (js "yume")])]
    = map CardEvent cards ++ [last] /\
    ((last = ErrorEvent /\ cards = []) \/
     exists v, last = CompleteEvent v /\ iterate v = Some cards).
Proof.
  apply (streamCardGeneration_closes_once
           (Reply (Some (jsq "{'cards':['yume']}")))).
  vm_compute. reflexivity.
Defined.

(** *** [split] undoes [join] *)

Lemma split_lines_no_LF (l : jsstring) :
  LF ∉ l -> split_lines l = [l].
Proof.
  induction l as [|c l IH]; [done|].
  intros Hc. apply not_elem_of_cons in Hc as [Hc Hl]. cbn.
  destruct (N.eqb_spec c LF) as [->|_]; [done|].
  by rewrite IH.
Qed.

Lemma split_lines_app (l r : jsstring) :
  LF ∉ l -> split_lines (l ++ LF :: r) = l :: split_lines r.
Proof.
  induction l as [|c l IH]; [done|].
  intros Hc. apply not_elem_of_cons in Hc as [Hc Hl]. cbn.
  destruct (N.eqb_spec c LF) as [->|_]; [done|].
  by rewrite IH.
Qed.

Lemma split_lines_join_lines (lines : list jsstring) :
  lines <> [] -> Forall (fun l => LF ∉ l) lines ->
  split_lines (join_lines lines) = lines.
Proof.
  induction lines as [|l lines IH]; [done|].
  intros _ Hall. apply Forall_cons in Hall as [Hl Hall].
  destruct lines as [|l' lines].
  - cbn. by apply split_lines_no_LF.
  - change (join_lines (l :: l' :: lines))
      with (l ++ LF :: join_lines (l' :: lines)).
    rewrite split_lines_app by done. by rewrite IH.
Qed.

Lemma filter_all {A} (P : A -> Prop) `{forall x, Decision (P x)} (l : list A) :
  Forall P l -> filter P l = l.
Proof.
  induction 1 as [|x l Hx _ IH]; [done|].
  by rewrite filter_cons_True, IH.
Qed.

Lemma imap_imap {A B C} (f : nat -> B -> C) (g : nat -> A -> B) (l : list A) :
  imap f (imap g l) = imap (fun i x => f i (g i x)) l.
Proof.
  revert f g. induction l as [|x l IH]; intros f g; [done|].
  cbn. by rewrite IH.
Qed.

(** In mock mode [parseLyrics] answers line by line when no line holds a
    line feed and none is blank: entry i (from 0) has line number i + 1,
    the text of line i, the mock translation numbered i + 1 and the empty
    furigana and tokens. *)
Theorem parseLyrics_mock_line_by_line (lyrics : list jsstring) :
  Forall (fun l => (LF ∉ l) /\ trim_is_truthy l = true) lyrics ->
  parseLyrics_mock lyrics
  = imap (fun i line =>
            JObj [ (js "lineNumber", num (i + 1));
                   (js "contentJa", JStr line);
                   (js "contentZh", JStr (mock_translation (i + 1)));
                   (js "furigana", JStr (js "[]"));
                   (js "tokens", JStr (js "[]")) ]) lyrics.
Proof.
  intros Hall. unfold parseLyrics_mock, parseMockLyrics.
  destruct lyrics as [|l lyrics]; [done|].
  rewrite split_lines_join_lines; [|done|].
  - rewrite filter_all.
    + by rewrite imap_imap.
    + eapply Forall_impl; [exact Hall|]. intros x [_ ->]. done.
  - eapply Forall_impl; [exact Hall|]. by intros x [? _].
Qed.

Lemma parseLyrics_mock_line_by_line_witness :
  parseLyrics_mock [js "yume wo miru"; js "sora e"]
  = [ JObj [ (js "lineNumber", num 1);
             (js "contentJa", JStr (js "yume wo miru"));
             (js "contentZh", JStr (mock_translation 1));
             (js "furigana", JStr (js "[]"));
             (js "tokens", JStr (js "[]")) ];
      JObj [ (js "lineNumber", num 2);
             (js "contentJa", JStr (js "sora e"));
             (js "contentZh", JStr (mock_translation 2));
             (js "furigana", JStr (js "[]"));
             (js "tokens", JStr (js "[]")) ] ].
Proof.
  apply (parseLyrics_mock_line_by_line [js "yume wo miru"; js "sora e"]).
  apply (bool_decide_unpack _). vm_compute. exact I.
Defined.

Lemma split_lines_not_nil (s : jsstring) : split_lines s <> [].
Proof.
  destruct s as [|c s]; [done|]. cbn.
  destruct (c =? LF)%N; [done|]. by destruct (split_lines s).
Qed.

Lemma split_lines_app_LF (l r : jsstring) :
  split_lines (l ++ LF :: r) = split_lines l ++ split_lines r.
Proof.
  induction l as [|c l IH]; [done|]. cbn.
  destruct (c =? LF)%N; [by rewrite IH|].
  rewrite IH. pose proof (split_lines_not_nil l).
  by destruct (split_lines l).
Qed.

Lemma split_lines_join_lines_pieces (lines : list jsstring) :
  lines <> [] ->
  split_lines (join_lines lines) = concat (map split_lines lines).
Proof.
  induction lines as [|l lines IH]; [done|]. intros _.
  destruct lines as [|l' lines].
  - cbn. by rewrite app_nil_r.
  - change (join_lines (l :: l' :: lines))
      with (l ++ LF :: join_lines (l' :: lines)).
    rewrite split_lines_app_LF, IH by done. done.
Qed.

(** X4.  In mock mode the entries of [parseLyrics] are not one per line of the
    lyrics but one per non-blank piece between line feeds: a blank line
    gives no entry and a line holding line feeds gives one entry for each
    of its non-blank pieces, the entries being numbered from 1 in that
    order. *)
Theorem parseLyrics_mock_pieces (lyrics : list jsstring) :
  parseLyrics_mock lyrics
  = imap (fun i piece =>
            JObj [ (js "lineNumber", num (i + 1));
                   (js "contentJa", JStr piece);
                   (js "contentZh", JStr (mock_translation (i + 1)));
                   (js "furigana", JStr (js "[]"));
                   (js "tokens", JStr (js "[]")) ])
         (filter (fun l => Is_true (trim_is_truthy l))
                 (concat (map split_lines lyrics))).
Proof.
  unfold parseLyrics_mock, parseMockLyrics. rewrite imap_imap.
  destruct lyrics as [|l lyrics]; [done|].
  by rewrite split_lines_join_lines_pieces.
Qed.

(** *** Reading the stored furigana back *)





End ServicesRestFacts.

(** ** Line numbers of the annotator *)

Module NumberingFacts.
Import ParseLyricsFacts.

(** X2.  Every entry of the result of [parseLyrics] comes from one batch and
    carries the line number the code gives it there: the start index of
    the batch plus the position of the entry in what the batch
    contributes, plus one.  The number the model wrote is never kept. *)
Theorem parseLyrics_overrides_line_numbers (llm : lyrics_model)
    (lyrics : list jsstring) (r : json) :
  r ∈ parseLyrics llm lyrics ->
  exists i j,
    i ∈ batch_starts (batch_count (length lyrics)) 0 /\
    results_at llm lyrics i !! j = Some r /\
    lineNumber_of r = Some (num (i + j + 1)).
Proof.
  rewrite parseLyrics_batches. intros Hr.
  apply list_elem_of_In, in_concat in Hr as (rs & Hrs & Hr).
  apply in_map_iff in Hrs as (i & <- & Hi).
  apply list_elem_of_In, list_elem_of_lookup in Hr as [j Hj].
  exists i, j. split; [by apply list_elem_of_In|]. split; [done|].
  by eapply batch_results_numbered.
Qed.

Lemma parseLyrics_overrides_line_numbers_witness :
  exists i j,
    i ∈ batch_starts (batch_count (length merging_lyrics)) 0 /\
    results_at misnumbering_model merging_lyrics i !! j
    = Some (JObj [ (js "lineNumber", JNum 2 0);
                   (js "contentJa", JStr (js "oikakete"));
                   (js "contentZh", JStr (js "chasing"));
                   (js "furigana", JStr (js "[]"));
                   (js "tokens", JStr (js "[]")) ]) /\
    lineNumber_of (JObj [ (js "lineNumber", JNum 2 0);
                          (js "contentJa", JStr (js "oikakete"));
                          (js "contentZh", JStr (js "chasing"));
                          (js "furigana", JStr (js "[]"));
                          (js "tokens", JStr (js "[]")) ])
    = Some (num (i + j + 1)).
Proof.
  apply (parseLyrics_overrides_line_numbers misnumbering_model merging_lyrics).
  vm_compute. apply list_elem_of_further, list_elem_of_here.
Defined.

(** X3.  When every batch contributes as many entries as it has lines (it
    failed, or the model answered line by line), the result of
    [parseLyrics] has one entry per input line and the entry at position
    k carries line number k + 1.  Batches start at the multiples of the
    batch size. *)
Theorem parseLyrics_one_entry_per_line (llm : lyrics_model)
    (lyrics : list jsstring) :
  (forall i, i < length lyrics -> i mod batchSize = 0 ->
     length (results_at llm lyrics i) = length (batch_at lyrics i)) ->
  length (parseLyrics llm lyrics) = length lyrics /\
  forall k r, parseLyrics llm lyrics !! k = Some r ->
    lineNumber_of r = Some (num (k + 1)).
Proof.
  intros Hcounts.
  set (llm' := fun i batch => if decide (i mod batchSize = 0) then llm i batch
                              else ApiError).
  assert (parseLyrics llm lyrics = parseLyrics llm' lyrics) as ->.
  { rewrite !parseLyrics_batches. f_equal. apply map_ext_in.
    intros i Hi%list_elem_of_In.
    apply BatchingFacts.batch_starts_elem in Hi as (k & _ & ->).
    unfold results_at, llm'. rewrite decide_True; [done|].
    unfold batchSize. cbn [Nat.add]. by rewrite Nat.Div0.mod_mul. }
  apply parseLyrics_numbered_when_counts_match.
  intros i Hi. destruct (decide (i mod batchSize = 0)) as [Hm|Hm].
  - rewrite <- Hcounts by done. unfold results_at, llm'.
    by rewrite decide_True.
  - unfold results_at, llm'. rewrite decide_False by done.
    rewrite batch_results_fails by done. apply length_imap.
Qed.

Lemma parseLyrics_one_entry_per_line_witness :
  length (parseLyrics misnumbering_model merging_lyrics) = length merging_lyrics /\
  forall k r, parseLyrics misnumbering_model merging_lyrics !! k = Some r ->
    lineNumber_of r = Some (num (k + 1)).
Proof.
  apply (parseLyrics_one_entry_per_line misnumbering_model merging_lyrics).
  intros i Hi Hm. change (length merging_lyrics) with 2 in Hi.
  destruct i as [|[|i]]; [vm_compute; reflexivity|discriminate Hm|lia].
Defined.

End NumberingFacts.

(** ** The import handler *)

Module ImportFacts.
Import ParseLyricsFacts FuriganaFacts.

Lemma line_row_storable timestamps k text :
  is_Some (line_row timestamps k text) <-> line_storable timestamps k text.
Proof.
  unfold line_row, line_storable, integer_column.
  destruct (storable_text text);
    [|split; [intros [x Hx]; discriminate|intros [Hf _]; discriminate]].
  destruct (timestamps ≫= (.!! k)) as [[[m1 e1] [m2 e2]]|]; cbn.
  - destruct (int32_value m1 e1) as [v1|] eqn:H1,
      (int32_value m2 e2) as [v2|] eqn:H2; cbn;
      split; try (by intros [x Hx]).
    + intros _. split; [done|]. intros stamp [= <-]. cbn.
      rewrite H1, H2. split; by eexists.
    + intros [_ H]. destruct (H _ eq_refl) as [_ [x Hx]].
      cbn in Hx. congruence.
    + intros [_ H]. destruct (H _ eq_refl) as [[x Hx] _].
      cbn in Hx. congruence.
    + intros [_ H]. destruct (H _ eq_refl) as [[x Hx] _].
      cbn in Hx. congruence.
  - split; [|by eexists]. intros _. split; [done|]. done.
Qed.

Lemma line_row_times timestamps k text row :
  line_row timestamps k text = Some row ->
  startTime row = stored_startTime timestamps k /\
  endTime row = stored_endTime timestamps k.
Proof.
  unfold line_row, stored_startTime, stored_endTime, integer_column.
  destruct (storable_text text); [|done].
  destruct (timestamps ≫= (.!! k)) as [[[m1 e1] [m2 e2]]|]; cbn.
  - destruct (int32_value m1 e1) as [v1|]; [|done].
    destruct (int32_value m2 e2) as [v2|]; [|done]. by intros [= <-].
  - by intros [= <-].
Qed.

(** The insert of [createLines] is accepted exactly when every row is. *)
Lemma createLines_accepted lyrics timestamps :
  (forall k text, lyrics !! k = Some text -> line_storable timestamps k text) ->
  exists created, createLines lyrics timestamps = Ok created.
Proof.
  intros Hall. unfold createLines.
  destruct (mapM id _) as [rows|] eqn:Hm; [by eexists|].
  assert (is_Some (mapM id (imap (line_row timestamps) lyrics))) as [rows Hr];
    [|congruence].
  apply mapM_is_Some, Forall_lookup. intros k x Hx.
  rewrite list_lookup_imap in Hx.
  destruct (lyrics !! k) as [text|] eqn:Hk; [|done]. injection Hx as <-.
  cbn. by apply line_row_storable, Hall.
Qed.

Lemma createLines_refused lyrics timestamps k text :
  lyrics !! k = Some text -> ~ line_storable timestamps k text ->
  createLines lyrics timestamps = Err DatabaseError.
Proof.
  intros Hk Hn. unfold createLines.
  destruct (mapM id _) as [rows|] eqn:Hm; [|done].
  exfalso. apply Hn, line_row_storable.
  assert (is_Some (mapM id (imap (line_row timestamps) lyrics))) as Hs
    by (by rewrite Hm).
  apply mapM_is_Some in Hs.
  apply (Forall_lookup_1 _ _ k (line_row timestamps k text)) in Hs; [done|].
  by rewrite list_lookup_imap, Hk.
Qed.

Section Handler.
Context (number_to_string : Z -> Z -> jsstring).

Lemma annotateLines_lookup (aiParsed : list json) (createdLines : list Line)
    (k : nat) (line : Line) :
  createdLines !! k = Some line ->
  exists line',
    annotateLines number_to_string aiParsed createdLines !! k = Some line' /\
    line_id line' = line_id line /\ lineNumber line' = lineNumber line /\
    contentJa line' = contentJa line /\
    startTime line' = startTime line /\ endTime line' = endTime line.
Proof.
  intros Hk. unfold annotateLines. rewrite list_lookup_imap, Hk. cbn.
  eexists. split; [done|]. unfold annotateLine.
  destruct (aiParsed !! k) as [parsed|]; [|done].
  destruct (truthy parsed); [|done]. unfold updateLine.
  destruct (get_prop "contentZh" parsed), (furiganaArray _ parsed);
    try done; by destruct (update_accepts _ _).
Qed.

(** X9.  The import stores and returns lines exactly when the database
    takes the insert of step 2: every lyric is a storable text and the
    time stamps given for it are integers of 32 bits.  Then, whatever the
    two models answer and whatever the options are, it returns one line
    per line of the lyrics, in order, and stores one: the line at
    position k has number k + 1, the text of lyric k unchanged and the
    time stamps given for position k, if any.  Otherwise it answers with
    the error of the insert and stores neither line nor card. *)
Theorem importRoute_one_line_per_lyric
    (lyricsModel : lyrics_model) (cardsModel : cards_model)
    (lyrics : list jsstring) (timestamps : option (list TimeStamp))
    (options : ImportOptions) (cards : list Card) :
  let result :=
    importRoute number_to_string lyricsModel cardsModel lyrics timestamps
      options cards in
  ((forall k text, lyrics !! k = Some text -> line_storable timestamps k text) ->
   exists lines generatedCards stored cards',
     result = (Imported lines generatedCards, stored, cards') /\
     length lines = length lyrics /\ length stored = length lyrics /\
     forall k text, lyrics !! k = Some text ->
       exists line line',
         lines !! k = Some line /\ stored !! k = Some line' /\
         lineNumber line = k + 1 /\ contentJa line = text /\
         startTime line = stored_startTime timestamps k /\
         endTime line = stored_endTime timestamps k /\
         lineNumber line' = k + 1 /\ contentJa line' = text /\
         startTime line' = stored_startTime timestamps k /\
         endTime line' = stored_endTime timestamps k) /\
  (forall k text, lyrics !! k = Some text -> ~ line_storable timestamps k text ->
     result = (ImportFailed DatabaseError, [], cards)).
Proof.
  cbv zeta. split.
  - intros Hall.
    destruct (createLines_accepted lyrics timestamps Hall) as [created Hc].
    unfold importRoute. rewrite Hc.
    set (aiParsed := parseLyrics lyricsModel lyrics).
    set (stored := if parseWithAI options then _ else created).
    set (parsedLines := if parseWithAI options && _ then _ else _).
    destruct (if generateCards options then _ else _) as [generated cards'].
    exists parsedLines, generated, stored, cards'. split; [done|].
    apply createLines_Ok in Hc as [Hlen Hrows].
    assert (forall k text, lyrics !! k = Some text ->
              exists line, created !! k = Some line /\
                lineNumber line = k + 1 /\ contentJa line = text /\
                startTime line = stored_startTime timestamps k /\
                endTime line = stored_endTime timestamps k) as Hcreated.
    { intros k text Hk. rewrite Hrows, Hk. cbn.
      destruct (line_row timestamps k text) as [row|] eqn:Hrow.
      - exists row. split; [done|].
        destruct (line_row_times _ _ _ _ Hrow) as [Hs He].
        apply line_row_Some in Hrow as (_ & Hn & Ht & _). done.
      - assert (is_Some (line_row timestamps k text)) as [row Hr];
          [by apply line_row_storable, Hall|congruence]. }
    assert (forall k text, lyrics !! k = Some text ->
              exists line, annotateLines number_to_string aiParsed created !! k
                           = Some line /\
                lineNumber line = k + 1 /\ contentJa line = text /\
                startTime line = stored_startTime timestamps k /\
                endTime line = stored_endTime timestamps k) as Hannotated.
    { intros k text Hk.
      destruct (Hcreated k text Hk) as (line & Hl & Hn & Ht & Hs & He).
      destruct (annotateLines_lookup aiParsed created k line Hl)
        as (line' & Hl' & _ & Hn' & Ht' & Hs' & He').
      exists line'. split; [done|]. by rewrite Hn', Ht', Hs', He'. }
    assert (length (annotateLines number_to_string aiParsed created)
            = length lyrics) as Hlen'.
    { unfold annotateLines. by rewrite length_imap. }
    assert (length stored = length lyrics /\
            forall k text, lyrics !! k = Some text ->
              exists line, stored !! k = Some line /\
                lineNumber line = k + 1 /\ contentJa line = text /\
                startTime line = stored_startTime timestamps k /\
                endTime line = stored_endTime timestamps k) as [Hls Hstored].
    { subst stored. by destruct (parseWithAI options). }
    assert (length parsedLines = length lyrics /\
            forall k text, lyrics !! k = Some text ->
              exists line, parsedLines !! k = Some line /\
                lineNumber line = k + 1 /\ contentJa line = text /\
                startTime line = stored_startTime timestamps k /\
                endTime line = stored_endTime timestamps k) as [Hlp Hparsed].
    { subst parsedLines. by destruct (_ && _). }
    split; [done|]. split; [done|].
    intros k text Hk.
    destruct (Hparsed k text Hk) as (line & Hl & H1).
    destruct (Hstored k text Hk) as (line' & Hl' & H2).
    exists line, line'. split; [done|]. split; [done|]. tauto.
  - intros k text Hk Hn. unfold importRoute.
    by rewrite (createLines_refused lyrics timestamps k text).
Qed.

Lemma parseLyrics_all_fail (llm : lyrics_model) (lyrics : list jsstring) :
  (forall i batch, batch_fails (llm i batch)) ->
  parseLyrics llm lyrics = imap (placeholder 0) lyrics.
Proof.
  intros Hall. rewrite parseLyrics_batches.
  rewrite (map_ext _ (fun i => imap (fun j => placeholder 0 (i + j))
                                 (batch_at lyrics i))).
  - rewrite (batches_tile (placeholder 0)), drop_0, batches_cover.
    reflexivity.
  - intros i. unfold results_at. rewrite batch_results_fails by apply Hall.
    apply imap_ext. intros j line _. unfold placeholder. cbn.
    do 4 f_equal.
Qed.

(** X10.  When every request of the annotator fails and the database has
    taken the lines, the import still annotates every line: no update
    fails, and line k is stored with number k + 1, the text of lyric k,
    its time stamps, the empty text as translation (not with no
    translation) and without furigana. *)
Theorem importLines_when_annotation_fails
    (llm : lyrics_model) (lyrics : list jsstring)
    (timestamps : option (list TimeStamp)) (created : list Line) :
  (forall i batch, batch_fails (llm i batch)) ->
  createLines lyrics timestamps = Ok created ->
  annotation_resolves number_to_string (parseLyrics llm lyrics) created = true /\
  importLines number_to_string llm lyrics timestamps
  = Ok (imap (fun k text =>
                {| line_id := k;
                   lineNumber := k + 1;
                   contentJa := text;
                   contentZh := Some (JStr []);
                   furigana := None;
                   startTime := stored_startTime timestamps k;
                   endTime := stored_endTime timestamps k |}) lyrics).
Proof.
  intros Hall Hc. unfold importLines. rewrite Hc.
  rewrite parseLyrics_all_fail by done.
  apply createLines_Ok in Hc as [Hlen Hrows].
  assert (forall k line, created !! k = Some line ->
            annotateLine number_to_string (imap (placeholder 0) lyrics) k line
            = Ok (set_fields (Some (JStr [])) None line) /\
            exists text, lyrics !! k = Some text /\
                         line_row timestamps k text = Some line) as Hline.
  { intros k line Hl. rewrite Hrows in Hl.
    destruct (lyrics !! k) as [text|] eqn:Hk; [|done]. cbn in Hl.
    split; [|by exists text].
    unfold annotateLine. rewrite list_lookup_imap, Hk. reflexivity. }
  split.
  - unfold annotation_resolves. apply forallb_forall.
    intros outcome Hin%list_elem_of_In%list_elem_of_lookup.
    destruct Hin as [k Hk]. rewrite list_lookup_imap in Hk.
    destruct (created !! k) as [line|] eqn:Hl; [|done]. injection Hk as <-.
    destruct (Hline k line Hl) as [-> _]. done.
  - f_equal. apply list_eq. intros k. unfold annotateLines.
    rewrite !list_lookup_imap.
    destruct (created !! k) as [line|] eqn:Hl.
    + destruct (Hline k line Hl) as (Ha & text & Hk & Hrow).
      cbn. rewrite Ha, Hk. cbn.
      destruct (line_row_times _ _ _ _ Hrow) as [<- <-].
      apply line_row_Some in Hrow as (Hid & Hn & Hja & Hzh & Hfu & _).
      f_equal. destruct line. cbn in *. by subst.
    + apply lookup_ge_None in Hl.
      rewrite (proj2 (lookup_ge_None lyrics k)); [done|lia].
Qed.

End Handler.

Lemma importLines_when_annotation_fails_witness :
  importLines integer_to_string failing_model [js "yume"; js "sora"]
    (Some [((0, 0), (25, 2)); ((2500, 0), (5, 3))])%Z
  = Ok [ {| line_id := 0; lineNumber := 1; contentJa := js "yume";
            contentZh := Some (JStr []); furigana := None;
            startTime := Some 0%Z; endTime := Some 2500%Z |};
         {| line_id := 1; lineNumber := 2; contentJa := js "sora";
            contentZh := Some (JStr []); furigana := None;
            startTime := Some 2500%Z; endTime := Some 5000%Z |} ].
Proof.
  apply (proj2 (importLines_when_annotation_fails integer_to_string failing_model
                  [js "yume"; js "sora"]
                  (Some [((0, 0), (25, 2)); ((2500, 0), (5, 3))])%Z
                  _ ltac:(intros i batch; exact I)
                  ltac:(vm_compute; reflexivity))).
Defined.

(** An update of step 3 that has nothing to set throws: the translation of
    the first line is stored, yet the import returns the lines as they
    were created. *)
Lemma importRoute_annotation_throws :
  (fun '(answer, stored, _) =>
     (match answer with
      | Imported lines _ => Some (contentZh <$> lines)
      | ImportFailed _ => None
      end, contentZh <$> stored))
    (importRoute integer_to_string half_annotating_model (fun _ => ApiError)
       [js "yume"; js "sora"] None
       {| parseWithAI := true; generateCards := false; cardsPerLine := (1, 0)%Z |}
       [])
  = (Some [None; None], [Some (JStr (js "dream")); None]).
Proof. vm_compute. reflexivity. Qed.

(** Time stamps the database refuses: a fraction, and a number beyond 32
    bits.  The import of a line with such a time stamp fails. *)
Lemma importRoute_refused_timestamps :
  int32_value 15 (-1) = None /\ int32_value 3000000000 0 = None /\
  forall options,
    importRoute integer_to_string failing_model (fun _ => ApiError) [js "yume"]
      (Some [((0, 0), (3000000000, 0))])%Z options []
    = (ImportFailed DatabaseError, [], []).
Proof.
  split; [vm_compute; reflexivity|]. split; [vm_compute; reflexivity|].
  intros options. unfold importRoute.
  assert (createLines [js "yume"] (Some [((0, 0), (3000000000, 0))])%Z
          = Err DatabaseError) as -> by (vm_compute; reflexivity).
  reflexivity.
Qed.

End ImportFacts.

(** ** Saving the generated cards *)

Module SavingFacts.
Import DoubleFacts PersistFacts PartOfSpeechFacts.


(** [Promise.all] over the outcomes of the inserts: all the rows, or the
    error of a rejected one. *)
Lemma promise_all_outcomes (rows : list Card) :
  match promise_all (map insert_outcome rows) with
  | Ok rows' => rows' = rows /\ forallb accepted rows = true
  | Err e =>
      forallb accepted rows = false /\
      exists bad, bad ∈ rows /\ accepted bad = false /\ e = insert_error bad
  end.
Proof.
  induction rows as [|row rows IH]; [done|]. cbn [map promise_all forallb].
  unfold insert_outcome at 1. destruct (accepted row) eqn:Hacc.
  - destruct (promise_all _) as [rows'|e].
    + destruct IH as [-> ->]. done.
    + destruct IH as (-> & bad & Hin & Hbad & ->). split; [done|].
      exists bad. split; [by apply list_elem_of_further|done].
  - split; [done|]. exists row. split; [apply list_elem_of_here|done].
Qed.




(** The three answers on samples: a candidate tagged 'pronoun' after an
    accepted one (500, the accepted row stays), a candidate without a
    meaning (500), a candidate whose part of speech reads 'API key'
    (503). *)
Lemma generateRoute_rejections :
  (fun '(answer, table) => (answer, card_word <$> table))
    (generateRoute (Some (JNum 2 0)) (Some sample_line) mixed_cards [])
  = (ServerError DatabaseError, [Some (JStr (js "yume"))]) /\
  generateRoute (Some (JNum 1 0)) (Some sample_line) no_meaning_cards []
  = (ServerError DatabaseError, []) /\
  generateRoute None (Some sample_line) api_key_card []
  = (ServiceUnavailable, []).
Proof. repeat split; vm_compute; reflexivity. Qed.

Lemma valid_partOfSpeech_truthy p :
  p ∈ validPartOfSpeech -> truthy (JStr p) = true.
Proof.
  intros Hp. cbn. case_bool_decide as Hnil; [|done]. subst p.
  exfalso. revert Hp. unfold validPartOfSpeech.
  rewrite !elem_of_cons, elem_of_nil. intros H. by intuition.
Qed.


Lemma importCardInput_outcome line c :
  match importCardInput line c with
  | Ok input => new_card input = imported_row line c
  | Err e => e = TypeError /\ unusable_candidate c
  end.
Proof.
  assert (c = JNull \/ c <> JNull) as [->|Hc]
    by (destruct c; [by left|by right..]).
  { cbn. split; [done|by left]. }
  assert (importCardInput line c
          = match normalizePartOfSpeech (get_prop "partOfSpeech" c) with
            | Ok pos =>
                Ok {| in_lineId := line_id line;
                      in_word := get_prop "word" c;
                      in_reading := get_prop "reading" c;
                      in_meaning := get_prop "meaning" c;
                      in_partOfSpeech := Some (JStr pos);
                      in_exampleSentence := Some (JStr (contentJa line));
                      in_exampleTranslation := truthy_or_undefined (contentZh line);
                      in_audioClipUrl := None;
                      in_wordPosition := get_prop "wordPosition" c |}
            | Err e => Err e
            end) as -> by (by destruct c).
  unfold imported_row.
  destruct (normalizePartOfSpeech _) as [p|e] eqn:Hn.
  - pose proof (normalizePartOfSpeech_closed _ _ Hn) as Hp.
    pose proof (valid_partOfSpeech_truthy _ Hp) as Ht.
    unfold new_card, card_row, js_or. cbn [in_partOfSpeech]. by rewrite Ht.
  - unfold normalizePartOfSpeech in Hn.
    destruct (get_prop "partOfSpeech" c) as [v|] eqn:Hv; [|done].
    destruct (truthy v) eqn:Ht; [|done]. cbn [negb] in Hn.
    assert (forall s, v <> JStr s) as Hs.
    { intros s ->. unfold is_one_of in Hn. case_bool_decide; [done|].
      repeat (destruct (_ || _); [done|]). done. }
    split.
    + destruct v as [| | |s| |]; try by injection Hn as <-. by destruct (Hs s).
    + right. by exists v.
Qed.

(** The inserts of the import for the candidates of one line: each has
    its own outcome, unless building an argument throws a type error,
    which stops the inserts after those already made. *)
Lemma createAll_import line candidates cards :
  match createAll (importCardInput line) candidates cards with
  | (Ok outcomes, cards') =>
      outcomes = map insert_outcome (map (imported_row line) candidates) /\
      cards' = cards ++ filter (fun row => Is_true (accepted row))
                          (map (imported_row line) candidates)
  | (Err e, cards') =>
      e = TypeError /\
      exists k c, candidates !! k = Some c /\ unusable_candidate c /\
        cards' = cards ++ filter (fun row => Is_true (accepted row))
                            (map (imported_row line) (take k candidates))
  end.
Proof.
  revert cards. induction candidates as [|c rest IH]; intros cards.
  - cbn. by rewrite app_nil_r.
  - cbn [createAll].
    pose proof (importCardInput_outcome line c) as Hc.
    destruct (importCardInput line c) as [input|e].
    + unfold createCard. rewrite Hc. fold (accepted (imported_row line c)).
      cbn [map]. unfold insert_outcome at 1.
      destruct (accepted (imported_row line c)) eqn:Hacc.
      * specialize (IH (cards ++ [imported_row line c])).
        destruct (createAll _ rest _) as [[outcomes|e] cards'].
        -- destruct IH as [-> ->]. split; [done|].
           rewrite filter_cons_True by (by rewrite Hacc).
           by rewrite <- app_assoc.
        -- destruct IH as (-> & k & c' & Hk & Hu & ->). split; [done|].
           exists (S k), c'. split; [done|]. split; [done|].
           cbn [take map]. rewrite filter_cons_True by (by rewrite Hacc).
           by rewrite <- app_assoc.
      * specialize (IH cards).
        destruct (createAll _ rest _) as [[outcomes|e] cards'].
        -- destruct IH as [-> ->]. split; [done|].
           by rewrite filter_cons_False by (rewrite Hacc; intros []).
        -- destruct IH as (-> & k & c' & Hk & Hu & ->). split; [done|].
           exists (S k), c'. split; [done|]. split; [done|].
           cbn [take map].
           by rewrite filter_cons_False by (rewrite Hacc; intros []).
    + destruct Hc as [-> Hu]. split; [done|]. exists 0, c.
      split; [done|]. split; [done|]. cbn. by rewrite app_nil_r.
Qed.

Lemma imported_rows_valid line candidates :
  Forall has_valid_partOfSpeech (map (imported_row line) candidates).
Proof.
  apply Forall_forall. intros row Hrow%list_elem_of_In.
  apply in_map_iff in Hrow as (c & <- & _). apply imported_row_closed.
Qed.

Lemma filter_all_accepted (rows : list Card) :
  forallb accepted rows = true ->
  filter (fun row => Is_true (accepted row)) rows = rows.
Proof.
  induction rows as [|row rows IH]; [done|]. cbn [forallb].
  intros [Hacc Hall]%andb_prop.
  rewrite filter_cons_True by (by rewrite Hacc). by rewrite IH.
Qed.

(** The outcomes of saving the cards of one line in the import. *)
Lemma persistCandidates_import_cases
    (line : Line) (generated : json) (n : Z * Z) (cards : list Card) :
  match persistCandidates (importCardInput line) generated n cards with
  | (Ok saved, cards') =>
      exists candidates,
        generated = JArr candidates /\
        saved = map (imported_row line) (slice_to candidates n) /\
        cards' = cards ++ saved /\
        Forall (fun row => accepted row = true) saved
  | (Err e, cards') =>
      (e = TypeError /\ (forall candidates, generated <> JArr candidates) /\
       cards' = cards) \/
      (e = TypeError /\
       exists candidates k c,
         generated = JArr candidates /\
         slice_to candidates n !! k = Some c /\ unusable_candidate c /\
         cards' = cards ++ filter (fun row => Is_true (accepted row))
                             (map (imported_row line)
                                (take k (slice_to candidates n)))) \/
      (exists candidates bad,
         generated = JArr candidates /\
         bad ∈ map (imported_row line) (slice_to candidates n) /\
         accepted bad = false /\ e = insert_error bad /\
         cards' = cards ++ filter (fun row => Is_true (accepted row))
                             (map (imported_row line) (slice_to candidates n)))
  end.
Proof.
  unfold persistCandidates.
  destruct generated as [| | | |candidates|];
    try (left; split; [done|]; split; [by intros ?|done]).
  pose proof (createAll_import line (slice_to candidates n) cards) as Hc.
  destruct (createAll _ _ _) as [[outcomes|e] cards'].
  - destruct Hc as [-> ->].
    pose proof (promise_all_outcomes
                  (map (imported_row line) (slice_to candidates n))) as Hp.
    destruct (promise_all _) as [saved|e].
    + destruct Hp as [-> Hall]. exists candidates. split; [done|]. split; [done|].
      rewrite filter_all_accepted by done. split; [done|].
      apply Forall_forall. intros row Hrow%list_elem_of_In.
      rewrite forallb_forall in Hall. by apply Hall.
    + destruct Hp as (_ & bad & Hin & Hbad & ->). right. right.
      by exists candidates, bad.
  - destruct Hc as (-> & k & c & Hk & Hu & ->). right. left. split; [done|].
    by exists candidates, k, c.
Qed.

Lemma filter_valid (rows : list Card) :
  Forall has_valid_partOfSpeech rows ->
  Forall has_valid_partOfSpeech (filter (fun row => Is_true (accepted row)) rows).
Proof.
  intros H. apply Forall_forall. intros row Hrow.
  apply list_elem_of_filter in Hrow as [_ Hrow].
  rewrite Forall_forall in H. by apply H.
Qed.

Lemma persistCandidates_import
    (line : Line) (generated : json) (n : Z * Z) (cards : list Card) :
  match persistCandidates (importCardInput line) generated n cards with
  | (Ok saved, cards') =>
      (exists candidates,
         generated = JArr candidates /\
         saved = map (imported_row line) (slice_to candidates n)) /\
      cards' = cards ++ saved /\ Forall has_valid_partOfSpeech saved
  | (Err e, cards') =>
      exists new, cards' = cards ++ new /\ Forall has_valid_partOfSpeech new
  end.
Proof.
  pose proof (persistCandidates_import_cases line generated n cards) as Hc.
  destruct (persistCandidates _ _ _ _) as [[saved|e] cards'].
  - destruct Hc as (candidates & -> & -> & -> & _).
    split; [by eexists|]. split; [done|]. apply imported_rows_valid.
  - destruct Hc as [(_ & _ & ->)|[(_ & cs & k & c & _ & _ & _ & ->)
                                 |(cs & bad & _ & _ & _ & _ & ->)]].
    + exists []. by rewrite app_nil_r.
    + eexists. split; [done|]. apply filter_valid, imported_rows_valid.
    + eexists. split; [done|]. apply filter_valid, imported_rows_valid.
Qed.


Lemma slice_to_length {A} (xs : list A) (lo hi : Z) (v : option json) (n : Z * Z) :
  validate_bounded lo hi v = Some n -> (1 <= lo <= hi)%Z ->
  length (slice_to xs n) <= Z.to_nat hi /\
  (xs <> [] -> slice_to xs n <> []).
Proof.
  intros Hv Hlo.
  pose proof (validate_bounded_trunc lo hi v n Hv Hlo) as Ht.
  unfold slice_to. destruct (num_trunc n.1 n.2 <? 0)%Z eqn:Hneg.
  { apply Z.ltb_lt in Hneg. lia. }
  split.
  - rewrite length_take. lia.
  - destruct xs as [|x xs]; [done|]. intros _.
    destruct (Z.to_nat (num_trunc n.1 n.2)) as [|k] eqn:Hk; [lia|]. done.
Qed.

(** X12.  The card step of the import, for any model.  The rows already in the
    table stay in place and the rows added all carry one of the six
    labels.  The list of generated cards grows by at most one entry per
    line: an entry for a line holds the rows of the first [cardsPerLine]
    candidates of that line, each of which is in the table, and at most
    three of them when [cardsPerLine] passed validation. *)
Theorem importCards_invariants
    (llm : cards_model) (v : option json) (n : Z * Z) (parsedLines : list Line)
    (generatedCards : list (nat * list Card)) (cards : list Card) :
  validate_cardsPerLine v = Some n ->
  exists added new,
    importCards llm n parsedLines generatedCards cards
    = (generatedCards ++ added, cards ++ new) /\
    Forall has_valid_partOfSpeech new /\
    length added <= length parsedLines /\
    Forall (fun entry =>
              length entry.2 <= 3 /\
              (forall row, row ∈ entry.2 -> row ∈ new) /\
              exists line candidates,
                line ∈ parsedLines /\ entry.1 = line_id line /\
                generateCardsFromLine (llm line) = Ok (JArr candidates) /\
                entry.2 = map (imported_row line) (slice_to candidates n))
           added.
Proof.
  intros Hv. revert generatedCards cards.
  induction parsedLines as [|line rest IH]; intros generatedCards cards.
  - exists [], []. cbn. by rewrite !app_nil_r.
  - cbn [importCards].
    assert (forall added new gen0 cards0,
              Forall has_valid_partOfSpeech new ->
              length added <= 1 ->
              Forall (fun entry =>
                length entry.2 <= 3 /\
                (forall row, row ∈ entry.2 -> row ∈ new) /\
                exists line' candidates,
                  line' ∈ line :: rest /\ entry.1 = line_id line' /\
                  generateCardsFromLine (llm line') = Ok (JArr candidates) /\
                  entry.2 = map (imported_row line') (slice_to candidates n))
                added ->
              gen0 = generatedCards ++ added -> cards0 = cards ++ new ->
              exists added' new',
                importCards llm n rest gen0 cards0
                = (generatedCards ++ added', cards ++ new') /\
                Forall has_valid_partOfSpeech new' /\
                length added' <= length (line :: rest) /\
                Forall (fun entry =>
                  length entry.2 <= 3 /\
                  (forall row, row ∈ entry.2 -> row ∈ new') /\
                  exists line' candidates,
                    line' ∈ line :: rest /\ entry.1 = line_id line' /\
                    generateCardsFromLine (llm line') = Ok (JArr candidates) /\
                    entry.2 = map (imported_row line') (slice_to candidates n))
                  added') as Hstep.
    { intros added new gen0 cards0 Hvalid Hlen Hadded -> ->.
      destruct (IH (generatedCards ++ added) (cards ++ new))
        as (added' & new' & Heq & Hvalid' & Hlen' & Hadded').
      exists (added ++ added'), (new ++ new').
      rewrite Heq, <- !app_assoc. split; [done|].
      split; [by apply Forall_app|].
      split; [rewrite length_app; cbn; lia|].
      apply Forall_app. split.
      - eapply Forall_impl; [exact Hadded|].
        intros entry (Hl & Hin & Hex). split; [done|]. split; [|done].
        intros row Hrow. apply elem_of_app. left. by apply Hin.
      - eapply Forall_impl; [exact Hadded'|].
        intros entry (Hl & Hin & line' & cs & Hline & Hex). split; [done|]. split.
        + intros row Hrow. apply elem_of_app. right. by apply Hin.
        + exists line', cs. split; [|done]. by apply list_elem_of_further. }
    destruct (generateCardsFromLine (llm line)) as [generated|e] eqn:Hg.
    + pose proof (persistCandidates_import line generated n cards) as Hp.
      destruct (persistCandidates _ _ _ _) as [[saved|e] cards1].
      * destruct Hp as ((cs & -> & ->) & -> & _).
        apply (Hstep [(line_id line, map (imported_row line) (slice_to cs n))]
                 (map (imported_row line) (slice_to cs n))); try done.
        -- apply imported_rows_valid.
        -- apply Forall_singleton. cbn [fst snd]. split.
           ++ rewrite length_map.
              destruct (slice_to_length cs 1 3 v n Hv) as [Hle _]; [lia|].
              change (Z.to_nat 3) with 3 in Hle. done.
           ++ split; [done|]. exists line, cs.
              split; [apply list_elem_of_here|done].
      * destruct Hp as (new & -> & Hvalid).
        apply (Hstep [] new); try done.
        -- cbn. lia.
        -- by rewrite app_nil_r.
    + apply (Hstep [] []); try done.
      * cbn. lia.
      * by rewrite app_nil_r.
      * by rewrite app_nil_r.
Qed.

(** What a batch of inserts does to the table, whatever the arguments:
    rows are only appended, at most one per candidate, and the rows that
    [Promise.all] resolves to are exactly the rows appended. *)
Lemma createAll_effect mk candidates cards :
  (forall c e, mk c = Err e -> e = TypeError) ->
  exists new,
    (createAll mk candidates cards).2 = cards ++ new /\
    length new <= length candidates /\
    match (createAll mk candidates cards).1 with
    | Ok outcomes =>
        match promise_all outcomes with
        | Ok rows => rows = new
        | Err e => e <> CardGenerationFailed
        end
    | Err e => e <> CardGenerationFailed
    end.
Proof.
  intros Hmk. revert cards.
  induction candidates as [|c rest IH]; intros cards.
  - exists []. cbn. by rewrite app_nil_r.
  - cbn [createAll]. destruct (mk c) as [input|e] eqn:Hc.
    + unfold createCard.
      destruct (insert_accepts _).
      * destruct (IH (cards ++ [new_card input])) as (new & Heq & Hlen & Hr).
        destruct (createAll mk rest _) as [[outcomes|e] cards2];
          cbn [fst snd] in *; subst cards2;
          exists (new_card input :: new); rewrite <- app_assoc;
          (split; [done|]); (split; [cbn; lia|]); [|done].
        cbn. destruct (promise_all outcomes); by subst.
      * destruct (IH cards) as (new & Heq & Hlen & Hr).
        destruct (createAll mk rest _) as [[outcomes|e] cards2];
          cbn [fst snd] in *; subst cards2;
          exists new; (split; [done|]); (split; [cbn; lia|]); [|done].
        cbn. unfold insert_error. by destruct (message_mentions_API_key _).
    + exists []. cbn. rewrite app_nil_r. split; [done|]. split; [lia|].
      by rewrite (Hmk _ _ Hc).
Qed.

Local Ltac untouched :=
  exists []; rewrite app_nil_r; cbn; split; [done|split; [lia|done]].

(** X14.  POST /api/cards/generate only ever appends to the cards table, and at
    most five rows.  A request that is refused (400), whose line does not
    exist (404) or whose generation fails leaves the table as it was, and
    a successful request returns exactly the rows it appended. *)
Theorem generateRoute_appends_at_most_five
    (count : option json) (line : option Line) (answer : completion)
    (cards : list Card) :
  exists new,
    (generateRoute count line answer cards).2 = cards ++ new /\
    length new <= 5 /\
    match (generateRoute count line answer cards).1 with
    | Success saved => saved = new
    | BadRequest | NotFound | ServerError CardGenerationFailed => new = []
    | ServerError _ => True
    | ServiceUnavailable => True
    end.
Proof.
  unfold generateRoute.
  destruct (validate_count count) as [n|] eqn:Hn; [|untouched].
  destruct line as [line|]; [|untouched].
  destruct (generateCardsFromLine answer) as [generated|e] eqn:Hg.
  2:{ assert (e = CardGenerationFailed) as ->; [|untouched].
      destruct answer as [|content]; cbn in Hg; [by injection Hg as <-|].
      destruct (negb _); [by injection Hg as <-|done]. }
  unfold persistCandidates.
  destruct generated as [| | | |candidates|]; try untouched.
  destruct (createAll_effect (generateCardInput line) (slice_to candidates n) cards)
    as (new & Heq & Hlen & Hr).
  { intros c e. destruct c; cbn; congruence. }
  destruct (slice_to_length candidates 1 5 count n Hn) as [Hle _]; [lia|].
  change (Z.to_nat 5) with 5 in Hle.
  exists new.
  destruct (createAll _ _ _) as [[outcomes|e] cards']; cbn [fst snd] in *.
  - destruct (promise_all outcomes) as [rows|e]; cbn [fst snd]; subst;
      (split; [done|]); (split; [lia|]); [done|].
    by destruct e.
  - subst. cbn [fst snd]. split; [done|]. split; [lia|]. by destruct e.
Qed.

Lemma importCards_invariants_witness :
  exists added new,
    importCards (fun _ => five_cards) (2, 0)%Z [sample_line] [] []
    = ([] ++ added, [] ++ new) /\
    Forall has_valid_partOfSpeech new /\
    length added <= length [sample_line] /\
    Forall (fun entry =>
              length entry.2 <= 3 /\
              (forall row, row ∈ entry.2 -> row ∈ new) /\
              exists line candidates,
                line ∈ [sample_line] /\ entry.1 = line_id line /\
                generateCardsFromLine ((fun _ => five_cards) line)
                = Ok (JArr candidates) /\
                entry.2 = map (imported_row line) (slice_to candidates (2, 0)%Z))
           added.
Proof.
  apply (importCards_invariants (fun _ => five_cards) (Some (JNum 2 0)) (2, 0)%Z
           [sample_line] [] []).
  vm_compute. reflexivity.
Defined.

End SavingFacts.

(** ** More on the learning progress *)

Module ProgressMoreFacts.
Import ProgressFacts.

(** An update of the progress of a user on a card touches that row only:
    every other row of the table, of this and of any other user, is what
    it was, no row is deleted, and a row that existed keeps its time of
    creation. *)
Theorem updateCardStatus_touches_one_row
    (dbNow reviewedAt now : Z) (references_hold : bool) (userId cardId : string)
    (newStatus : CardStatus) (tbl : gmap (string * string) CardProgress) :
  let tbl' :=
    (updateCardStatus dbNow reviewedAt now references_hold userId cardId
       newStatus tbl).2 in
  (forall key, key <> (userId, cardId) -> tbl' !! key = tbl !! key) /\
  dom tbl ⊆ dom tbl' /\ dom tbl' ⊆ {[ (userId, cardId) ]} ∪ dom tbl /\
  (forall row, tbl !! (userId, cardId) = Some row ->
     exists row', tbl' !! (userId, cardId) = Some row' /\
                  createdAt row' = createdAt row).
Proof.
  cbn zeta.
  pose proof (updateCardStatus_outcome userId cardId dbNow reviewedAt now
                references_hold newStatus tbl) as Ho.
  destruct (updateCardStatus _ _ _ _ _ _ _ _) as [[returned|e] tbl'];
    cbn [snd].
  - destruct Ho as (_ & progress & -> & -> & _ & _ & _ & _ & Hcreated).
    split; [|split; [|split]].
    + intros key Hk. by rewrite lookup_insert_ne.
    + rewrite dom_insert. set_solver.
    + rewrite dom_insert. set_solver.
    + intros row Hrow. exists progress. split; [apply lookup_insert_eq|].
      by rewrite Hcreated, (row_before_existing _ _ _ _ _ Hrow).
  - destruct Ho as (_ & _ & ->). split; [done|]. split; [done|].
    split; [set_solver|]. intros row Hrow. by exists row.
Qed.

(** The count recorded after one update: one more, unless the update is
    refused. *)
Lemma reviews_recorded_update
    (dbNow reviewedAt now : Z) (references_hold : bool) (userId cardId : string)
    (newStatus : CardStatus) (tbl : gmap (string * string) CardProgress) :
  let tbl' :=
    (updateCardStatus dbNow reviewedAt now references_hold userId cardId
       newStatus tbl).2 in
  (forall key, key <> (userId, cardId) -> tbl' !! key = tbl !! key) /\
  (update_possible references_hold userId cardId tbl ->
   is_Some (tbl' !! (userId, cardId)) /\
   reviews_recorded userId cardId tbl'
   = (reviews_recorded userId cardId tbl + 1)%Z) /\
  (~ update_possible references_hold userId cardId tbl -> tbl' = tbl).
Proof.
  cbn zeta.
  pose proof (updateCardStatus_outcome userId cardId dbNow reviewedAt now
                references_hold newStatus tbl) as Ho.
  destruct (updateCardStatus _ _ _ _ _ _ _ _) as [[returned|e] tbl'];
    cbn [snd].
  - destruct Ho as (Hp & progress & -> & -> & _ & Hc & _).
    split; [|split; [|done]].
    + intros key Hk. by rewrite lookup_insert_ne.
    + intros _. unfold reviews_recorded at 1. rewrite lookup_insert_eq.
      split; [by eexists|]. rewrite Hc. unfold row_before, reviews_recorded.
      by destruct (tbl !! (userId, cardId)).
  - destruct Ho as (Hn & _ & ->). done.
Qed.

(** X15.  The review count counts the updates the database takes.  After any
    number of reviews of a card by a user, whatever the statuses chosen,
    the rows of all other pairs are what they were.  When the pair has a
    row, or the user and the card exist, the count recorded for the pair
    has grown by the number of reviews, up to the largest value of the
    column, where it stays; when the pair has no row and the user or the
    card does not exist, every update is refused and the table stays as
    it was. *)
Theorem reviewAll_counts_every_review
    (references_hold : bool) (userId cardId : string) (reviews : list Review)
    (tbl : gmap (string * string) CardProgress) :
  (forall key, key <> (userId, cardId) ->
     reviewAll references_hold userId cardId reviews tbl !! key = tbl !! key) /\
  (is_Some (tbl !! (userId, cardId)) \/ references_hold = true ->
   (reviews_recorded userId cardId tbl <= 2147483647)%Z ->
   reviews_recorded userId cardId (reviewAll references_hold userId cardId reviews tbl)
   = Z.min (reviews_recorded userId cardId tbl + Z.of_nat (length reviews))
       2147483647) /\
  (tbl !! (userId, cardId) = None -> references_hold = false ->
   reviewAll references_hold userId cardId reviews tbl = tbl).
Proof.
  revert tbl. induction reviews as [|r reviews IH]; intros tbl.
  - cbn. split; [done|]. split; [lia|done].
  - change (reviewAll references_hold userId cardId (r :: reviews) tbl)
      with (reviewAll references_hold userId cardId reviews
              (updateCardStatus (review_dbNow r) (review_reviewedAt r)
                 (review_now r) references_hold userId cardId
                 (review_status r) tbl).2).
    destruct (reviews_recorded_update (review_dbNow r) (review_reviewedAt r)
                (review_now r) references_hold userId cardId (review_status r) tbl)
      as (Hframe & Hok & Hrefused).
    set (tbl1 := (updateCardStatus _ _ _ _ _ _ _ tbl).2) in *.
    clearbody tbl1.
    destruct (IH tbl1) as (IHframe & IHcount & IHnone).
    split; [|split].
    + intros key Hkey. rewrite IHframe by done. by apply Hframe.
    + intros Hrow Hmax. cbn [length].
      destruct (tbl !! (userId, cardId)) as [row|] eqn:Hl.
      * destruct (decide (reviewCount row < INT_MAX)%Z) as [Hlt|Hge].
        -- destruct Hok as [Hsome Hc].
           { unfold update_possible. by rewrite Hl. }
           rewrite IHcount; [|by left|].
           ++ rewrite Hc. unfold reviews_recorded. rewrite Hl. lia.
           ++ rewrite Hc. unfold reviews_recorded. rewrite Hl.
              unfold INT_MAX in Hlt. lia.
        -- assert (tbl1 = tbl) as ->.
           { apply Hrefused. unfold update_possible. by rewrite Hl. }
           rewrite IHcount; [|by left; rewrite Hl|done].
           unfold reviews_recorded in *. rewrite Hl in *.
           unfold INT_MAX in Hge. lia.
      * destruct Hrow as [[row Hrow]|Href]; [done|].
        destruct Hok as [Hsome Hc].
        { unfold update_possible. by rewrite Hl. }
        rewrite IHcount; [|by left|].
        -- rewrite Hc. unfold reviews_recorded. rewrite Hl. lia.
        -- rewrite Hc. unfold reviews_recorded. rewrite Hl. lia.
    + intros Hnone Href.
      assert (tbl1 = tbl) as ->.
      { apply Hrefused. unfold update_possible. rewrite Hnone, Href. done. }
      by apply IHnone.
Qed.

End ProgressMoreFacts.

(** ** The progress route and the statistics *)

Module ProgressRouteFacts.
Import ProgressFacts.

(** The schema accepts exactly the three status words. *)
Lemma parse_status_Some v st :
  parse_status v = Some st <->
  v = Some (JStr (match st with
                  | StatusNew => js "new"
                  | StatusLearning => js "learning"
                  | StatusMastered => js "mastered"
                  end)).
Proof.
  unfold parse_status. split.
  - destruct v as [[| | |s| |]|]; try done.
    repeat case_bool_decide; subst; intros [= <-]; done.
  - intros ->. by destruct st.
Qed.

(** X16.  A request to POST or PATCH /api/cards/[id]/progress changes at most
    the row of the session user and the card of the address: every row of
    another user or card is left as it is.  A request that is answered
    with 401, 400 or 500 changes nothing, and one that succeeds comes from
    a signed-in user and a body whose status is one of the three words,
    and returns the row it stored, with that status. *)
Theorem handleUpdateProgress_isolation
    (dbNow reviewedAt now : Z) (sessionUserId : option string)
    (cardId : string) (body : option json) (references_hold : bool)
    (tbl : gmap (string * string) CardProgress) :
  let answer := (handleUpdateProgress dbNow reviewedAt now sessionUserId cardId
                   body references_hold tbl).1 in
  let tbl' := (handleUpdateProgress dbNow reviewedAt now sessionUserId cardId
                 body references_hold tbl).2 in
  (forall key, sessionUserId <> Some key.1 \/ cardId <> key.2 ->
     tbl' !! key = tbl !! key) /\
  match answer with
  | ProgressData progress =>
      exists userId b newStatus row,
        sessionUserId = Some userId /\ userId <> ""%string /\
        body = Some b /\ get_prop "status" b = Some (JStr
          (match newStatus with
           | StatusNew => js "new"
           | StatusLearning => js "learning"
           | StatusMastered => js "mastered"
           end)) /\
        progress = Some row /\ status row = newStatus /\
        tbl' !! (userId, cardId) = Some row
  | Unauthorized | InvalidInput | InternalError => tbl' = tbl
  end.
Proof.
  cbn zeta. unfold handleUpdateProgress.
  destruct sessionUserId as [userId|]; [|done].
  case_bool_decide as Hempty; [done|].
  destruct body as [b|]; [|done].
  destruct (updateProgressSchema b) as [newStatus|] eqn:Hschema; [|done].
  pose proof (updateCardStatus_outcome userId cardId dbNow reviewedAt now
                references_hold newStatus tbl) as Ho.
  destruct (updateCardStatus _ _ _ _ _ _ _ _) as [[returned|e] tbl'];
    cbn [fst snd].
  - destruct Ho as (_ & progress & -> & -> & Hs & _). split.
    + intros [u c] Hkey. rewrite lookup_insert_ne; [done|].
      cbn in Hkey. intros [= -> ->].
      destruct Hkey as [Hkey|Hkey]; by apply Hkey.
    + exists userId, b, newStatus, progress.
      unfold updateProgressSchema in Hschema.
      destruct b as [| | | | |ms]; try done.
      apply parse_status_Some in Hschema.
      repeat split; try done. apply lookup_insert_eq.
  - destruct Ho as (_ & _ & ->). done.
Qed.

Lemma foldl_add_stat (stats : list (CardStatus * nat)) (acc : CardStats) :
  NoDup stats.*1 ->
  stats_total (foldl add_stat acc stats) = stats_total acc + sum_list stats.*2 /\
  (forall st n, (st, n) ∈ stats -> stats_field st (foldl add_stat acc stats) = n) /\
  (forall st, st ∉ stats.*1 -> stats_field st (foldl add_stat acc stats) = stats_field st acc).
Proof.
  revert acc. induction stats as [|[st0 n0] stats IH]; intros acc Hnd.
  - cbn. split; [lia|]. split; [|done]. intros st n H. by apply elem_of_nil in H.
  - cbn [fmap list_fmap fst] in Hnd. apply NoDup_cons in Hnd as [Hnot Hnd].
    cbn [foldl].
    destruct (IH (add_stat acc (st0, n0)) Hnd) as (Ht & Hin & Hout).
    split; [|split].
    + rewrite Ht. cbn. lia.
    + intros st n Hel. apply elem_of_cons in Hel as [[= -> ->]|Hel].
      * rewrite Hout by done. by destruct st0.
      * by apply Hin.
    + intros st Hst. cbn [fmap list_fmap fst] in Hst.
      apply not_elem_of_cons in Hst as [Hne Hst].
      rewrite Hout by done. by destruct st, st0.
Qed.

Lemma status_counts_sum (rows : list CardProgress) :
  status_count StatusNew rows + status_count StatusLearning rows
  + status_count StatusMastered rows = length rows.
Proof.
  unfold status_count. induction rows as [|row rows IH]; [done|].
  rewrite !filter_cons. destruct (status row); cbn;
    repeat (destruct (decide _) as [?|?]; try done; cbn); lia.
Qed.

Lemma groupByStatus_facts (rows : list CardProgress) :
  NoDup (groupByStatus rows).*1 /\
  sum_list (groupByStatus rows).*2 = length rows /\
  (forall st n, (st, n) ∈ groupByStatus rows -> n = status_count st rows) /\
  (forall st, st ∉ (groupByStatus rows).*1 -> status_count st rows = 0).
Proof.
  rewrite <- (status_counts_sum rows). unfold groupByStatus.
  destruct (status_count StatusNew rows) as [|a] eqn:Ha,
           (status_count StatusLearning rows) as [|b] eqn:Hb,
           (status_count StatusMastered rows) as [|c] eqn:Hc;
    rewrite !filter_cons, filter_nil;
    repeat (destruct (decide _) as [?|?]; cbn [fst snd] in *; try lia);
    cbn [fmap list_fmap fst snd sum_list sum_list_with]; unfold id.
  all: split; [repeat (apply NoDup_cons; split;
                       [rewrite ?elem_of_cons, elem_of_nil; intuition discriminate|]);
               apply NoDup_nil_2|].
  all: split; [lia|].
  all: split;
    [ intros st n'; rewrite ?elem_of_cons, elem_of_nil; intros H;
      repeat destruct H as [H|H]; try done; by injection H as -> ->
    | intros st; rewrite ?elem_of_cons, elem_of_nil; intros H;
      destruct st; try done; exfalso; apply H; auto ].
Qed.

Lemma getCardStats_of_groups (userId : string)
    (tbl : gmap (string * string) CardProgress)
    (stats : list (CardStatus * nat)) :
  stats ≡ₚ groupByStatus (rows_of_user userId tbl) ->
  getCardStats_of stats
  = {| stats_total := length (rows_of_user userId tbl);
       stats_new := status_count StatusNew (rows_of_user userId tbl);
       stats_learning := status_count StatusLearning (rows_of_user userId tbl);
       stats_mastered := status_count StatusMastered (rows_of_user userId tbl) |} /\
  stats_total (getCardStats_of stats)
  = stats_new (getCardStats_of stats) + stats_learning (getCardStats_of stats)
    + stats_mastered (getCardStats_of stats).
Proof.
  intros Hperm. set (rows := rows_of_user userId tbl) in *.
  destruct (groupByStatus_facts rows) as (Hnd & Hsum & Hin & Hout).
  assert (NoDup stats.*1) as Hnd' by (by rewrite Hperm).
  destruct (foldl_add_stat stats
              {| stats_total := 0; stats_new := 0; stats_learning := 0;
                 stats_mastered := 0 |} Hnd') as (Ht & Hin' & Hout').
  fold (getCardStats_of stats) in Ht, Hin', Hout'.
  assert (forall st, stats_field st (getCardStats_of stats) = status_count st rows) as Hf.
  { intros st. destruct (decide (st ∈ stats.*1)) as [Hel|Hnel].
    - apply list_elem_of_fmap in Hel as ([st' n] & -> & Hel). cbn [fst].
      rewrite (Hin' _ _ Hel). apply Hin. by rewrite <- Hperm.
    - rewrite (Hout' _ Hnel). rewrite Hout; [by destruct st|]. by rewrite <- Hperm. }
  assert (stats_total (getCardStats_of stats) = length rows) as Htotal.
  { rewrite Ht, Hperm, Hsum. done. }
  pose proof (Hf StatusNew) as Hn. pose proof (Hf StatusLearning) as Hl.
  pose proof (Hf StatusMastered) as Hm. cbn [stats_field] in Hn, Hl, Hm.
  split.
  - rewrite <- Htotal, <- Hn, <- Hl, <- Hm. by destruct (getCardStats_of stats).
  - rewrite Htotal, Hn, Hl, Hm. by rewrite status_counts_sum.
Qed.

(** X17.  The statistics of [getCardStats] do not depend on the order in which
    the database returns the groups: the total is the number of progress
    rows of the user, each of the three counts is the number of these
    rows with that status, and the total is the sum of the three. *)
Theorem getCardStats_counts_rows (userId : string)
    (tbl : gmap (string * string) CardProgress)
    (stats : list (CardStatus * nat)) :
  stats ≡ₚ groupByStatus (rows_of_user userId tbl) ->
  getCardStats_of stats
  = {| stats_total := length (rows_of_user userId tbl);
       stats_new := status_count StatusNew (rows_of_user userId tbl);
       stats_learning := status_count StatusLearning (rows_of_user userId tbl);
       stats_mastered := status_count StatusMastered (rows_of_user userId tbl) |} /\
  stats_total (getCardStats_of stats)
  = stats_new (getCardStats_of stats) + stats_learning (getCardStats_of stats)
    + stats_mastered (getCardStats_of stats).
Proof. apply getCardStats_of_groups. Qed.

(** The same on a table whose groups come back in the reverse order. *)
Lemma getCardStats_counts_rows_witness :
  getCardStats_of [(StatusLearning, 1); (StatusNew, 1)]
  = {| stats_total := 2; stats_new := 1; stats_learning := 1; stats_mastered := 0 |} /\
  groupByStatus (rows_of_user "user-1" two_status_table)
  = [(StatusNew, 1); (StatusLearning, 1)].
Proof.
  assert (groupByStatus (rows_of_user "user-1" two_status_table)
          = [(StatusNew, 1); (StatusLearning, 1)]) as Hgroups
    by (vm_compute; reflexivity).
  split; [|done].
  destruct (getCardStats_counts_rows "user-1" two_status_table
              [(StatusLearning, 1); (StatusNew, 1)]) as [-> _].
  - rewrite Hgroups. apply perm_swap.
  - vm_compute. reflexivity.
Defined.

Lemma updateCardStatus_insert
    (dbNow reviewedAt now : Z) (references_hold : bool) (userId cardId : string)
    (newStatus : CardStatus) (tbl : gmap (string * string) CardProgress) :
  let tbl' :=
    (updateCardStatus dbNow reviewedAt now references_hold userId cardId
       newStatus tbl).2 in
  (update_possible references_hold userId cardId tbl ->
   exists progress, tbl' = <[(userId, cardId) := progress]> tbl) /\
  (~ update_possible references_hold userId cardId tbl -> tbl' = tbl).
Proof.
  cbn zeta.
  pose proof (updateCardStatus_outcome userId cardId dbNow reviewedAt now
                references_hold newStatus tbl) as Ho.
  destruct (updateCardStatus _ _ _ _ _ _ _ _) as [[returned|e] tbl'];
    cbn [snd].
  - destruct Ho as (Hp & progress & _ & -> & _). split; [by eexists|done].
  - destruct Ho as (Hn & _ & ->). done.
Qed.

Lemma getCardStats_total (userId : string)
    (tbl : gmap (string * string) CardProgress) :
  stats_total (getCardStats userId tbl)
  = size (filter (fun kv : string * string * CardProgress => kv.1.1 = userId) tbl).
Proof.
  unfold getCardStats.
  destruct (getCardStats_of_groups userId tbl
              (groupByStatus (rows_of_user userId tbl))) as [-> _]; [done|].
  cbn. unfold rows_of_user. by rewrite length_fmap, length_map_to_list.
Qed.

(** X18.  The statistics of a user depend on the rows of that user only: an
    update of the progress of one user leaves the statistics of every
    other user as they were.  It raises the total of the user by one when
    the pair of user and card had no row and the user and the card exist,
    so that the row is created; by nothing when the pair had a row, and
    by nothing when the insert of the new row is refused. *)
Theorem updateCardStatus_statistics
    (dbNow reviewedAt now : Z) (references_hold : bool) (userId cardId : string)
    (newStatus : CardStatus) (tbl : gmap (string * string) CardProgress) :
  let tbl' :=
    (updateCardStatus dbNow reviewedAt now references_hold userId cardId
       newStatus tbl).2 in
  (forall other, other <> userId ->
     getCardStats other tbl' = getCardStats other tbl) /\
  stats_total (getCardStats userId tbl')
  = stats_total (getCardStats userId tbl)
    + (match tbl !! (userId, cardId) with
       | Some _ => 0
       | None => if references_hold then 1 else 0
       end).
Proof.
  cbn zeta.
  destruct (updateCardStatus_insert dbNow reviewedAt now references_hold
              userId cardId newStatus tbl) as [Hok Hrefused].
  set (tbl' := (updateCardStatus _ _ _ _ _ _ _ tbl).2) in *.
  clearbody tbl'.
  assert ((tbl' = tbl /\
           match tbl !! (userId, cardId) with
           | Some _ => True
           | None => references_hold = false
           end) \/
          exists progress, tbl' = <[(userId, cardId) := progress]> tbl /\
            match tbl !! (userId, cardId) with
            | Some _ => True
            | None => references_hold = true
            end) as [[-> Hcase]|(progress & -> & Hcase)].
  { unfold update_possible in *.
    destruct (tbl !! (userId, cardId)) as [row|] eqn:Hl.
    - destruct (decide (reviewCount row < INT_MAX)%Z) as [Hlt|Hge].
      + right. destruct (Hok Hlt) as [progress ->]. by exists progress.
      + left. by rewrite (Hrefused Hge).
    - destruct references_hold.
      + right. destruct (Hok eq_refl) as [progress ->]. by exists progress.
      + left. split; [by apply Hrefused|done]. }
  - split; [done|].
    destruct (tbl !! (userId, cardId)); [lia|]. rewrite Hcase. lia.
  - split.
    + intros other Hother. unfold getCardStats, rows_of_user.
      replace (filter (fun kv : string * string * CardProgress => kv.1.1 = other)
                 (<[(userId, cardId) := progress]> tbl))
        with (filter (fun kv : string * string * CardProgress => kv.1.1 = other) tbl);
        [done|].
      apply map_filter_strong_ext_1. intros [u c] row. cbn.
      split; intros [-> Hl]; (split; [done|]).
      * rewrite lookup_insert_ne; [done|]. by intros [= -> _].
      * rewrite lookup_insert_ne in Hl; [done|]. by intros [= -> _].
    + rewrite !getCardStats_total.
      rewrite map_filter_insert_True by done.
      rewrite map_size_insert.
      rewrite map_lookup_filter.
      destruct (tbl !! (userId, cardId)) as [row|]; cbn.
      * rewrite option_guard_True by done. cbn. unfold id. lia.
      * rewrite Hcase. lia.
Qed.

End ProgressRouteFacts.

(** ** The scan of [extractJSON] over a JSON text *)

Module ScanFacts.
Import JsonParseFacts ExtractFacts.

Local Ltac case_unit c k :=
  let E := fresh "E" in
  destruct (c =? k)%N eqn:E;
  [apply N.eqb_eq in E; try subst c|apply N.eqb_neq in E].

Lemma passes_refl s : passes false s s.
Proof.
  split; [done|]. intros i d _. f_equal. lia.
Qed.

Lemma passes_trans b s r t : passes b s r -> passes false r t -> passes b s t.
Proof.
  intros [Hl1 H1] [Hl2 H2]. split; [lia|].
  intros i d Hd. rewrite H1, H2 by done. f_equal. lia.
Qed.

Lemma passes_step c s : is_plain c = true -> passes false (c :: s) s.
Proof.
  unfold is_plain. intros Hc.
  apply andb_prop in Hc as [Hc Hrb]. apply andb_prop in Hc as [Hq Hlb].
  apply negb_true_iff in Hq, Hlb, Hrb.
  split; [cbn; lia|]. intros i d _. cbn [closing_brace].
  rewrite andb_false_r, Hq, Hlb, Hrb. f_equal. cbn. lia.
Qed.

Lemma passes_plain_prefix p s r :
  forallb is_plain p = true -> strip_prefix p s = Some r -> passes false s r.
Proof.
  revert s. induction p as [|a p IH]; intros s Hp; cbn.
  - intros [= <-]. apply passes_refl.
  - destruct s as [|b s]; [done|]. cbn in Hp. apply andb_prop in Hp as [Ha Hp].
    destruct (N.eqb_spec a b) as [<-|]; [|done]. intros Hs.
    eapply passes_trans; [by apply passes_step|by apply IH].
Qed.

Lemma is_ws_plain c : is_ws c = true -> is_plain c = true.
Proof.
  unfold is_ws, is_plain, QUOTE, LBRACE, RBRACE.
  rewrite !orb_true_iff, !N.eqb_eq. intros [[[->| ->]| ->]| ->]; done.
Qed.

Lemma is_digit_plain c : is_digit c = true -> is_plain c = true.
Proof.
  unfold is_digit, is_plain, QUOTE, LBRACE, RBRACE.
  rewrite andb_true_iff, !N.leb_le. intros [H1 H2].
  rewrite !andb_true_iff, !negb_true_iff, !N.eqb_neq. lia.
Qed.

Lemma passes_skip_ws s : passes false s (skip_ws s).
Proof.
  induction s as [|c s IH]; cbn; [apply passes_refl|].
  destruct (is_ws c) eqn:Hc; [|apply passes_refl].
  eapply passes_trans; [apply passes_step, is_ws_plain, Hc|done].
Qed.

Lemma passes_take_digits s : passes false s (take_digits s).2.
Proof.
  induction s as [|c s IH]; cbn; [apply passes_refl|].
  destruct (is_digit c) eqn:Hc; [|apply passes_refl].
  destruct (take_digits s) as [ds r]. cbn in *.
  eapply passes_trans; [apply passes_step, is_digit_plain, Hc|done].
Qed.

Lemma passes_number s v r : parse_number s = Some (v, r) -> passes false s r.
Proof.
  unfold parse_number.
  destruct (match s with
            | [] => (false, s)
            | c :: rest0 => if (c =? MINUS)%N then (true, rest0) else (false, s)
            end) as [neg s1] eqn:Hsign.
  assert (passes false s s1) as H1.
  { destruct s as [|c s]; [injection Hsign as _ <-; apply passes_refl|].
    case_unit c MINUS; injection Hsign as _ <-;
      [by apply passes_step|apply passes_refl]. }
  destruct (parse_int_part s1) as [[ints s2]|] eqn:Hint; [|done].
  assert (passes false s1 s2) as H2.
  { unfold parse_int_part in Hint. destruct s1 as [|c s1]; [done|].
    case_unit c 48%N; [injection Hint as _ <-; by apply passes_step|].
    destruct (is_digit c) eqn:Hd; [|done].
    injection Hint as Hint. pose proof (passes_take_digits (c :: s1)) as Hp.
    change (take_digits (c :: s1) = (ints, s2)) in Hint.
    by rewrite Hint in Hp. }
  cbn.
  destruct (parse_frac_part s2) as [[fracs s3]|] eqn:Hfrac; [|done].
  assert (passes false s2 s3) as H3.
  { unfold parse_frac_part in Hfrac.
    destruct s2 as [|c s2]; [injection Hfrac as _ <-; apply passes_refl|].
    case_unit c DOT; [|injection Hfrac as _ <-; apply passes_refl].
    pose proof (passes_take_digits s2) as Hl.
    destruct (take_digits s2) as [[|d ds] r']; [done|].
    injection Hfrac as _ <-. cbn in Hl.
    eapply passes_trans; [by apply passes_step|done]. }
  cbn.
  destruct (parse_exp_part s3) as [[ex s4]|] eqn:Hexp; [|done].
  assert (passes false s3 s4) as H4.
  { assert (forall neg' t, parse_exp_digits neg' t = Some (ex, s4) ->
                           passes false t s4) as Hdig.
    { intros neg' t. unfold parse_exp_digits.
      pose proof (passes_take_digits t) as Hl.
      destruct (take_digits t) as [[|d ds] r']; [done|].
      intros [= _ <-]. done. }
    unfold parse_exp_part in Hexp.
    destruct s3 as [|c s3]; [injection Hexp as _ <-; apply passes_refl|].
    destruct ((c =? 101) || (c =? 69))%N eqn:He;
      [|injection Hexp as _ <-; apply passes_refl].
    assert (is_plain c = true) as Hc.
    { apply orb_prop in He as [->%N.eqb_eq| ->%N.eqb_eq]; done. }
    destruct s3 as [|sg s3]; [done|].
    case_unit sg PLUS.
    { apply Hdig in Hexp.
      eapply passes_trans; [by apply passes_step|].
      eapply passes_trans; [by apply passes_step|done]. }
    case_unit sg MINUS.
    { apply Hdig in Hexp.
      eapply passes_trans; [by apply passes_step|].
      eapply passes_trans; [by apply passes_step|done]. }
    apply Hdig in Hexp. eapply passes_trans; [by apply passes_step|done]. }
  cbn. intros [= _ <-].
  eapply passes_trans; [exact H1|]. eapply passes_trans; [exact H2|].
  eapply passes_trans; [exact H3|exact H4].
Qed.

(** Inside a string: one code unit that is neither the quote nor the
    backslash. *)
Lemma passes_in_string_step c s r :
  c <> QUOTE -> c <> BACKSLASH -> passes true s r -> passes true (c :: s) r.
Proof.
  intros Hq Hb [Hl H]. split; [cbn; lia|]. intros i d Hd. cbn [closing_brace].
  rewrite (proj2 (N.eqb_neq c BACKSLASH)), (proj2 (N.eqb_neq c QUOTE)) by done.
  cbn. rewrite H by done. f_equal. cbn. lia.
Qed.

(** Inside a string: a backslash and the code unit after it. *)
Lemma passes_in_string_escape x s r :
  passes true s r -> passes true (BACKSLASH :: x :: s) r.
Proof.
  intros [Hl H]. split; [cbn; lia|]. intros i d Hd. cbn [closing_brace].
  rewrite N.eqb_refl. cbn. rewrite H by done. f_equal. cbn. lia.
Qed.

Lemma hex_val_in_string h a : hex_val h = Some a -> h <> QUOTE /\ h <> BACKSLASH.
Proof.
  unfold hex_val, is_digit, QUOTE, BACKSLASH.
  destruct ((48 <=? h) && (h <=? 57))%N eqn:H1.
  { apply andb_prop in H1 as [?%N.leb_le ?%N.leb_le]. intros _. lia. }
  destruct ((97 <=? h) && (h <=? 102))%N eqn:H2.
  { apply andb_prop in H2 as [?%N.leb_le ?%N.leb_le]. intros _. lia. }
  destruct ((65 <=? h) && (h <=? 70))%N eqn:H3; [|done].
  apply andb_prop in H3 as [?%N.leb_le ?%N.leb_le]. intros _. lia.
Qed.

Lemma passes_string s body r :
  parse_string_body s = Some (body, r) -> passes true s r.
Proof.
  remember (length s) as n eqn:Hn. revert s body r Hn.
  induction n as [n IH] using lt_wf_ind. intros s body r -> Hp.
  destruct s as [|c s]; [done|]. cbn [parse_string_body] in Hp.
  case_unit c QUOTE.
  { injection Hp as _ <-. split; [cbn; lia|]. intros i d _. cbn. f_equal. lia. }
  case_unit c BACKSLASH.
  - destruct s as [|x s]; [done|].
    destruct (x =? 117)%N.
    + destruct s as [|h1 [|h2 [|h3 [|h4 s]]]]; try done.
      destruct (hex_val h1) eqn:E1, (hex_val h2) eqn:E2,
               (hex_val h3) eqn:E3, (hex_val h4) eqn:E4; try done.
      destruct (parse_string_body s) as [[b r']|] eqn:Hs; [|done].
      cbn in Hp. injection Hp as _ <-.
      eapply (IH (length s)) in Hs; [|cbn; lia|done].
      apply hex_val_in_string in E1 as [], E2 as [], E3 as [], E4 as [].
      apply passes_in_string_escape.
      do 4 (apply passes_in_string_step; [done|done|]). done.
    + destruct (if (x =? QUOTE)%N then _ else _); [|done].
      destruct (parse_string_body s) as [[b r']|] eqn:Hs; [|done].
      cbn in Hp. injection Hp as _ <-.
      eapply (IH (length s)) in Hs; [|cbn; lia|done].
      by apply passes_in_string_escape.
  - destruct (c <? 32)%N; [done|].
    destruct (parse_string_body s) as [[b r']|] eqn:Hs; [|done].
    cbn in Hp. injection Hp as _ <-.
    eapply (IH (length s)) in Hs; [|cbn; lia|done].
    by apply passes_in_string_step.
Qed.

(** The opening quote and the string after it. *)
Lemma passes_quoted s body r :
  parse_string_body s = Some (body, r) -> passes false (QUOTE :: s) r.
Proof.
  intros [Hl H]%passes_string. split; [cbn; lia|].
  intros i d Hd. cbn [closing_brace]. cbn. rewrite H by done. f_equal. cbn. lia.
Qed.

Lemma passes_scalar c rest v r :
  parse_scalar c rest = Some (v, r) -> passes false (c :: rest) r.
Proof.
  unfold parse_scalar.
  destruct (N.eqb_spec c QUOTE) as [->|_].
  { destruct (parse_string_body rest) as [[b r']|] eqn:Hb; [|done].
    cbn. intros [= _ <-]. by eapply passes_quoted. }
  assert (forall p v', (r' ← strip_prefix p (c :: rest); Some (v', r')) = Some (v, r) ->
                       forallb is_plain p = true -> passes false (c :: rest) r) as Hkw.
  { intros p v' H Hp. destruct (strip_prefix p (c :: rest)) as [r'|] eqn:Hs; [|done].
    cbn in H. injection H as _ <-. by eapply passes_plain_prefix. }
  destruct (c =? 116)%N; [intros H; eapply Hkw; [done|vm_compute; reflexivity]|].
  destruct (c =? 102)%N; [intros H; eapply Hkw; [done|vm_compute; reflexivity]|].
  destruct (c =? 110)%N; [intros H; eapply Hkw; [done|vm_compute; reflexivity]|].
  apply passes_number.
Qed.

(** The brace that closes an object. *)
Lemma passes_close_brace s : passes_close (RBRACE :: s) s.
Proof.
  split; [cbn; lia|]. intros i d Hd. cbn [closing_brace]. cbn.
  destruct (d - 1 =? 0)%Z eqn:H0, (d =? 1)%Z eqn:H1; try lia.
  - f_equal. lia.
  - f_equal. lia.
Qed.

Lemma passes_then_close s r t : passes false s r -> passes_close r t -> passes_close s t.
Proof.
  intros [Hl1 H1] [Hl2 H2]. split; [lia|].
  intros i d Hd. rewrite H1, H2 by done.
  destruct (d =? 1)%Z; f_equal; lia.
Qed.

(** An opening brace and the rest of the object. *)
Lemma passes_object s r : passes_close s r -> passes false (LBRACE :: s) r.
Proof.
  intros [Hl H]. split; [cbn; lia|]. intros i d Hd. cbn [closing_brace]. cbn.
  rewrite H by lia. destruct (d + 1 =? 1)%Z eqn:H1; [lia|].
  f_equal; [cbn; lia|lia].
Qed.

Lemma passes_values fuel :
  (forall s v r, parse_value fuel s = Some (v, r) -> passes false s r) /\
  (forall s acc v r, parse_elements fuel s acc = Some (v, r) -> passes false s r) /\
  (forall s acc v r, parse_members fuel s acc = Some (v, r) -> passes_close s r).
Proof.
  induction fuel as [|fuel (IHv & IHe & IHm)]; [done|].
  split; [|split].
  - intros s v r. cbn [parse_value].
    pose proof (passes_skip_ws s) as Hws.
    destruct (skip_ws s) as [|c rest]; [done|].
    destruct (N.eqb_spec c LBRACE) as [->|Hlb].
    { pose proof (passes_skip_ws rest) as Hws'.
      destruct (skip_ws rest) as [|c' rest'] eqn:Hrest; [done|].
      destruct (N.eqb_spec c' RBRACE) as [->|_].
      - intros [= _ <-]. eapply passes_trans; [exact Hws|].
        apply passes_object. eapply passes_then_close; [exact Hws'|].
        apply passes_close_brace.
      - intros Hm%IHm. eapply passes_trans; [exact Hws|]. by apply passes_object. }
    destruct (N.eqb_spec c LBRACKET) as [->|_].
    { pose proof (passes_skip_ws rest) as Hws'.
      destruct (skip_ws rest) as [|c' rest'] eqn:Hrest; [done|].
      destruct (N.eqb_spec c' RBRACKET) as [->|_].
      - intros [= _ <-]. eapply passes_trans; [exact Hws|].
        eapply passes_trans; [by apply passes_step|].
        eapply passes_trans; [exact Hws'|]. by apply passes_step.
      - intros He%IHe. eapply passes_trans; [exact Hws|].
        eapply passes_trans; [by apply passes_step|done]. }
    intros Hs%passes_scalar. eapply passes_trans; [exact Hws|done].
  - intros s acc v r. cbn [parse_elements].
    destruct (parse_value fuel s) as [[v' rest]|] eqn:Hv; [|done]. cbn.
    apply IHv in Hv.
    pose proof (passes_skip_ws rest) as Hws.
    destruct (skip_ws rest) as [|c rest']; [done|].
    destruct (N.eqb_spec c COMMA) as [->|_].
    { intros He%IHe. eapply passes_trans; [exact Hv|].
      eapply passes_trans; [exact Hws|].
      eapply passes_trans; [by apply passes_step|done]. }
    destruct (N.eqb_spec c RBRACKET) as [->|_]; [|done].
    intros [= _ <-]. eapply passes_trans; [exact Hv|].
    eapply passes_trans; [exact Hws|]. by apply passes_step.
  - intros s acc v r. cbn [parse_members].
    pose proof (passes_skip_ws s) as Hws.
    destruct (skip_ws s) as [|q rest]; [done|].
    destruct (N.eqb_spec q QUOTE) as [->|_]; [|done].
    destruct (parse_string_body rest) as [[key rest1]|] eqn:Hk; [|done]. cbn.
    apply passes_quoted in Hk.
    pose proof (passes_skip_ws rest1) as Hws1.
    destruct (skip_ws rest1) as [|c rest2]; [done|].
    destruct (N.eqb_spec c COLON) as [->|_]; [|done].
    destruct (parse_value fuel rest2) as [[v' rest3]|] eqn:Hv; [|done]. cbn.
    apply IHv in Hv.
    pose proof (passes_skip_ws rest3) as Hws3.
    destruct (skip_ws rest3) as [|c' rest4]; [done|].
    assert (passes false s (c' :: rest4)) as Hhere.
    { eapply passes_trans; [exact Hws|]. eapply passes_trans; [exact Hk|].
      eapply passes_trans; [exact Hws1|].
      eapply passes_trans; [by apply passes_step|].
      eapply passes_trans; [exact Hv|exact Hws3]. }
    destruct (N.eqb_spec c' COMMA) as [->|_].
    { intros Hm%IHm. eapply passes_then_close; [exact Hhere|].
      eapply passes_then_close; [by apply passes_step|done]. }
    destruct (N.eqb_spec c' RBRACE) as [->|_]; [|done].
    intros [= _ <-]. eapply passes_then_close; [exact Hhere|].
    apply passes_close_brace.
Qed.

Lemma closing_brace_app s t i d b e j :
  closing_brace s i d b e = Some j -> closing_brace (s ++ t) i d b e = Some j.
Proof.
  revert i d b e. induction s as [|c s IH]; intros i d b e; [done|].
  cbn [closing_brace app].
  destruct e; [apply IH|].
  destruct ((c =? BACKSLASH)%N && b); [apply IH|].
  destruct (c =? QUOTE)%N; [apply IH|].
  destruct b; [apply IH|].
  destruct (c =? RBRACE)%N; [|apply IH].
  destruct (_ =? 0)%Z; [done|apply IH].
Qed.

Lemma indexOf_first c pre post :
  c ∉ pre -> indexOf c (pre ++ c :: post) = Some (length pre).
Proof.
  induction pre as [|x pre IH]; cbn.
  - intros _. by rewrite N.eqb_refl.
  - intros [Hx Hpre]%not_elem_of_cons.
    rewrite (proj2 (N.eqb_neq x c)) by done. by rewrite IH.
Qed.

(** X7.  [extractJSON] recovers an object that stands in the middle of other
    text.  When the text is not JSON as a whole, no opening brace comes
    before the object and the object is a JSON text from its opening to
    its closing brace, the result is the value of the object, whatever
    follows it and whatever braces and quotes its strings hold. *)
Theorem extractJSON_recovers_embedded_object
    (pre obj post : jsstring) (v : json) :
  LBRACE ∉ pre ->
  head obj = Some LBRACE ->
  parses_exactly obj v ->
  JSON_parse (pre ++ obj ++ post) = None ->
  extractJSON (pre ++ obj ++ post) = v.
Proof.
  intros Hpre Hhead Hobj Hwhole.
  destruct obj as [|c rest]; [done|]. injection Hhead as ->.
  assert (passes_close rest []) as [_ Hclose].
  { unfold parses_exactly in Hobj.
    destruct (2 * length (LBRACE :: rest) + 2) as [|fuel]; [done|].
    cbn [parse_value] in Hobj.
    change (skip_ws (LBRACE :: rest)) with (LBRACE :: rest) in Hobj.
    cbv iota beta in Hobj. rewrite N.eqb_refl in Hobj.
    pose proof (passes_skip_ws rest) as Hws.
    destruct (skip_ws rest) as [|c' rest']; [done|].
    case_unit c' RBRACE.
    - injection Hobj as _ ->. eapply passes_then_close; [exact Hws|].
      apply passes_close_brace.
    - by apply (passes_values fuel) in Hobj. }
  assert (JSON_parse (LBRACE :: rest) = Some v) as Hparse.
  { unfold JSON_parse. by rewrite Hobj. }
  unfold extractJSON. rewrite Hwhole. unfold extract_from_first_brace.
  change (pre ++ (LBRACE :: rest) ++ post) with (pre ++ LBRACE :: rest ++ post).
  rewrite indexOf_first by done. rewrite scan_closing_brace.
  rewrite drop_app_length.
  rewrite (closing_brace_app (LBRACE :: rest) post _ _ _ _ (length pre + length rest)).
  - unfold slice. rewrite drop_app_length.
    replace (length pre + length rest + 1 - length pre)
      with (length (LBRACE :: rest)) by (cbn; lia).
    change (LBRACE :: rest ++ post) with ((LBRACE :: rest) ++ post).
    rewrite take_app_length. unfold parsed_or_null. by rewrite Hparse.
  - cbn [closing_brace]. cbn. rewrite Hclose by lia. cbn. f_equal. lia.
Qed.

Lemma extractJSON_recovers_embedded_object_witness :
  extractJSON (jsq "Here are the cards: {'cards':[{'word':'a}b'}]} I hope {this helps")
  = JObj [(js "cards", JArr [JObj [(js "word", JStr (js "a}b"))]])].
Proof.
  apply (extractJSON_recovers_embedded_object
           (jsq "Here are the cards: ")
           (jsq "{'cards':[{'word':'a}b'}]}")
           (jsq " I hope {this helps")).
  - intros H%list_elem_of_In. vm_compute in H. intuition discriminate.
  - reflexivity.
  - vm_compute. reflexivity.
  - vm_compute. reflexivity.
Defined.

End ScanFacts.

(** ** The normalizer of the part of speech *)

Module NormalizerFacts.
Import PartOfSpeechFacts.

Lemma normalizePartOfSpeech_valid p :
  p ∈ validPartOfSpeech -> normalizePartOfSpeech (Some (JStr p)) = Ok p.
Proof.
  unfold validPartOfSpeech. rewrite !elem_of_cons, elem_of_nil.
  intros [->|[->|[->|[->|[->|[->|[]]]]]]]; vm_compute; reflexivity.
Qed.

(** X8.  [normalizePartOfSpeech] answers with one of the six labels, which it
    maps to itself: normalizing twice is normalizing once.  It fails, with
    a type error, exactly on the truthy values that are not strings. *)
Theorem normalizePartOfSpeech_range :
  (forall pos p,
     normalizePartOfSpeech pos = Ok p ->
     p ∈ validPartOfSpeech /\ normalizePartOfSpeech (Some (JStr p)) = Ok p) /\
  (forall pos e,
     normalizePartOfSpeech pos = Err e <->
     e = TypeError /\
     exists v, pos = Some v /\ truthy v = true /\ forall s, v <> JStr s).
Proof.
  split.
  - intros pos p Hp. apply normalizePartOfSpeech_closed in Hp.
    split; [done|]. by apply normalizePartOfSpeech_valid.
  - intros pos e. split.
    + unfold normalizePartOfSpeech. destruct pos as [v|]; [|done].
      destruct (truthy v) eqn:Ht; cbn [negb]; [|done].
      destruct v as [| | |s| |]; try (intros [= <-]; split; [done|];
        eexists; split; [done|]; split; [done|]; by intros).
      unfold is_one_of. case_bool_decide; [done|].
      repeat (destruct (_ || _); [done|]). done.
    + intros (-> & v & -> & Ht & Hs). unfold normalizePartOfSpeech.
      rewrite Ht. cbn [negb]. destruct v; try done. by destruct (Hs s).
Qed.

End NormalizerFacts.

(** ** GET /api/cards: the groups and the statistics of a page *)

Module CardListFacts.
Import ServicesRestFacts.

Lemma push_card_keys songKey item acc :
  (push_card songKey item acc).*1 = acc.*1.
Proof.
  induction acc as [|[k g] acc IH]; [done|]. cbn.
  case_bool_decide; cbn; [done|]. by rewrite IH.
Qed.

Lemma push_card_elem songKey item acc k g :
  NoDup acc.*1 ->
  (k, g) ∈ push_card songKey item acc <->
  (k <> songKey /\ (k, g) ∈ acc) \/
  (k = songKey /\ exists g0, (k, g0) ∈ acc /\
     g = {| g_songId := g_songId g0; g_songTitle := g_songTitle g0;
            g_songArtist := g_songArtist g0;
            g_cards := g_cards g0 ++ [item] |}).
Proof.
  induction acc as [|[k0 g0] acc IH]; intros Hnd.
  - cbn. rewrite elem_of_nil. split; [done|].
    intros [[_ H]|(_ & g' & H & _)]; [done|by apply elem_of_nil in H].
  - cbn [fmap list_fmap fst] in Hnd. apply NoDup_cons in Hnd as [Hk0 Hnd].
    cbn [push_card]. case_bool_decide as Hk.
    + subst k0. rewrite elem_of_cons. split.
      * intros [Heq|Hin].
        -- injection Heq as -> ->. right. split; [done|]. exists g0.
           split; [apply list_elem_of_here|done].
        -- left. split; [|by apply list_elem_of_further]. intros ->. apply Hk0.
           apply list_elem_of_fmap. by exists (songKey, g).
      * intros [[Hne Hin]|(-> & g' & Hin & ->)].
        -- apply elem_of_cons in Hin as [Heq|Hin]; [by injection Heq as -> _|].
           by right.
        -- apply elem_of_cons in Hin as [Heq|Hin].
           ++ injection Heq as ->. by left.
           ++ exfalso. apply Hk0. apply list_elem_of_fmap. by exists (songKey, g').
    + rewrite elem_of_cons, (IH Hnd). split.
      * intros [Heq|[[Hne Hin]|(-> & g' & Hin & ->)]].
        -- injection Heq as -> ->. left. split; [done|apply list_elem_of_here].
        -- left. split; [done|by apply list_elem_of_further].
        -- right. split; [done|]. exists g'.
           split; [by apply list_elem_of_further|done].
      * intros [[Hne Hin]|(-> & g' & Hin & ->)].
        -- apply elem_of_cons in Hin as [Heq|Hin]; [by left|].
           right. by left.
        -- apply elem_of_cons in Hin as [Heq|Hin]; [by injection Heq as -> _|].
           right. right. split; [done|]. by exists g'.
Qed.

Lemma filter_none {A} (P : A -> Prop) `{forall x, Decision (P x)} (l : list A) :
  (forall x, x ∈ l -> ~ P x) -> filter P l = [].
Proof.
  induction l as [|x l IH]; [done|]. intros Hl.
  rewrite filter_cons_False by (apply Hl, list_elem_of_here).
  apply IH. intros y Hy. by apply Hl, list_elem_of_further.
Qed.

(** The invariant of the reduction: the groups built from a prefix of the
    page. *)
Lemma group_step_invariant pm data :
  let acc := foldl (group_step pm) [] data in
  NoDup acc.*1 /\
  (forall k g, (k, g) ∈ acc ->
     g_songId g = k /\ g_cards g <> [] /\
     g_cards g = with_progress pm <$> filter (fun d => lc_songId d = k) data) /\
  (forall d, d ∈ data -> lc_songId d ∈ acc.*1).
Proof.
  induction data as [|c data IH] using rev_ind.
  - cbn. split; [apply NoDup_nil_2|]. split; intros *; by rewrite elem_of_nil.
  - cbn zeta in *. rewrite foldl_app. cbn [foldl].
    destruct IH as (Hnd & Hgroups & Hkeys).
    set (acc := foldl (group_step pm) [] data) in *.
    unfold group_step.
    set (k := lc_songId c).
    set (acc1 := if bool_decide (k ∈ acc.*1) then acc else acc ++ [_]).
    assert (NoDup acc1.*1 /\ k ∈ acc1.*1 /\
            (forall d, d ∈ data -> lc_songId d ∈ acc1.*1) /\
            (forall k' g, (k', g) ∈ acc1 ->
               g_songId g = k' /\
               g_cards g = with_progress pm <$> filter (fun d => lc_songId d = k') data /\
               (k' <> k -> g_cards g <> [])))
      as (Hnd1 & Hk1 & Hkeys1 & Hgroups1).
    { subst acc1. case_bool_decide as Hk.
      - split; [done|]. split; [done|]. split; [done|].
        intros k' g Hg. destruct (Hgroups k' g Hg) as (? & ? & ?). done.
      - rewrite fmap_app. cbn [fmap list_fmap fst]. split; [|split; [|split]].
        + apply NoDup_app. split; [done|]. split; [|apply NoDup_singleton].
          intros x Hx ->%list_elem_of_singleton. done.
        + apply elem_of_app. right. apply list_elem_of_here.
        + intros d Hd. apply elem_of_app. left. by apply Hkeys.
        + intros k' g [Hg|Hg%list_elem_of_singleton]%elem_of_app.
          * destruct (Hgroups k' g Hg) as (? & ? & ?). done.
          * injection Hg as -> ->. cbn. split; [done|]. split; [|done].
            rewrite filter_none; [done|].
            intros d Hd Heq. apply Hk. rewrite <- Heq. by apply Hkeys. }
    clearbody acc1. split; [|split].
    + by rewrite push_card_keys.
    + intros k' g Hg. apply push_card_elem in Hg; [|done].
      rewrite filter_app, fmap_app.
      destruct Hg as [[Hne Hg]|(-> & g0 & Hg & ->)].
      * destruct (Hgroups1 k' g Hg) as (? & Hc & Hnn).
        split; [done|]. split; [by apply Hnn|].
        rewrite filter_cons_False by (intros Heq; apply Hne; symmetry; exact Heq).
        by rewrite filter_nil, app_nil_r.
      * destruct (Hgroups1 k g0 Hg) as (? & Hc & _).
        rewrite filter_cons_True, filter_nil by done. cbn [g_songId g_cards].
        split; [done|]. split; [by destruct (g_cards g0)|]. by rewrite Hc.
    + intros d Hd. rewrite push_card_keys.
      apply elem_of_app in Hd as [Hd|Hd%list_elem_of_singleton]; [by apply Hkeys1|].
      by subst d.
Qed.

(** X19.  The groups of the response partition the page by song: no two groups
    are of the same song, every card of the page is in the group of its
    song, and a group holds, in page order, exactly the cards of its
    song, each with the progress found for it; no group is empty. *)
Theorem cardsBySong_partitions_the_page
    (pm : string -> option ProgressEntry) (data : list ListedCard) :
  NoDup (g_songId <$> cardsBySong pm data) /\
  (forall g, g ∈ cardsBySong pm data ->
     g_cards g <> [] /\
     g_cards g
     = with_progress pm <$> filter (fun d => lc_songId d = g_songId g) data) /\
  (forall d, d ∈ data ->
     exists g, g ∈ cardsBySong pm data /\ g_songId g = lc_songId d /\
               with_progress pm d ∈ g_cards g).
Proof.
  destruct (group_step_invariant pm data) as (Hnd & Hgroups & Hkeys).
  cbn zeta in *. unfold cardsBySong.
  set (acc := foldl (group_step pm) [] data) in *.
  assert (g_songId <$> acc.*2 = acc.*1) as Hids.
  { rewrite <- list_fmap_compose. apply list_fmap_ext.
    intros i [k g] Hi. cbn. apply (Hgroups k g). by eapply list_elem_of_lookup_2. }
  split; [by rewrite Hids|]. split.
  - intros g ([k g'] & -> & Hg)%list_elem_of_fmap. cbn.
    destruct (Hgroups k g' Hg) as (-> & Hne & Hc). done.
  - intros d Hd. pose proof (Hkeys d Hd) as ([k g] & Hk & Hg)%list_elem_of_fmap.
    cbn in Hk. subst k. exists g.
    destruct (Hgroups _ g Hg) as (Hid & _ & Hc).
    split; [apply list_elem_of_fmap; by exists (lc_songId d, g)|].
    split; [done|]. rewrite Hc. apply list_elem_of_fmap. exists d.
    split; [done|]. by apply list_elem_of_filter.
Qed.

Lemma filter_ext_in {A} (P Q : A -> Prop)
    `{forall x, Decision (P x)} `{forall x, Decision (Q x)} (l : list A) :
  (forall x, x ∈ l -> P x <-> Q x) -> filter P l = filter Q l.
Proof.
  induction l as [|x l IH]; [done|]. intros Hl.
  rewrite !filter_cons.
  assert (P x <-> Q x) as Hx by apply Hl, list_elem_of_here.
  rewrite IH by (intros y Hy; by apply Hl, list_elem_of_further).
  destruct (decide (P x)), (decide (Q x)); tauto.
Qed.

(** The progress shown for a card of the page is the row of the session
    user for it. *)
Lemma progressMap_on_page (u : string) (data : list ListedCard)
    (tbl : gmap (string * string) CardProgress) (d : ListedCard) :
  u <> ""%string -> d ∈ data ->
  pe_status <$> progressMap (Some u) data tbl (lc_id d) = recorded_status u tbl d.
Proof.
  intros Hu Hd. unfold progressMap, recorded_status.
  rewrite bool_decide_eq_false_2 by done.
  rewrite bool_decide_eq_true_2 by (by apply list_elem_of_fmap_2).
  by destruct (tbl !! (u, lc_id d)).
Qed.

(** X20.  The statistics of a page count every card once.  For a signed-in
    user a card counts as new when the table of progress has no row of
    the user for it or has one in state new, as learning when its row is
    in state learning and as mastered when its row is in state mastered;
    the three counts add up to the total, which is the number of cards of
    the page.  Without a session user every card of the page counts as
    new. *)
Theorem page_stats_count_every_card
    (u : string) (pm : string -> option ProgressEntry) (data : list ListedCard)
    (tbl : gmap (string * string) CardProgress) :
  u <> ""%string ->
  page_stats (progressMap (Some u) data tbl) data
  = {| stats_total := length data;
       stats_new :=
         length (filter (fun d => recorded_status u tbl d = None \/
                                  recorded_status u tbl d = Some StatusNew) data);
       stats_learning :=
         length (filter (fun d => recorded_status u tbl d = Some StatusLearning)
                   data);
       stats_mastered :=
         length (filter (fun d => recorded_status u tbl d = Some StatusMastered)
                   data) |} /\
  stats_total (page_stats pm data)
  = stats_new (page_stats pm data) + stats_learning (page_stats pm data)
    + stats_mastered (page_stats pm data) /\
  page_stats (progressMap None data tbl) data
  = {| stats_total := length data; stats_new := length data;
       stats_learning := 0; stats_mastered := 0 |}.
Proof.
  intros Hu. split; [|split].
  - unfold page_stats. f_equal; f_equal; apply filter_ext_in; intros d Hd;
      rewrite <- (progressMap_on_page u data tbl d Hu Hd);
      destruct (progressMap (Some u) data tbl (lc_id d)) as [[[] n]|]; cbn;
      split; try done; try tauto; intros H; try discriminate;
      destruct H; discriminate.
  - unfold page_stats. cbn. induction data as [|d data IH]; [done|].
    rewrite !filter_cons. cbn [length]. rewrite IH.
    destruct (pm (lc_id d)) as [[[] n]|]; cbn;
      repeat (destruct (decide _) as [?|?]; try done; cbn); lia.
  - unfold page_stats, progressMap. cbn. f_equal.
    + f_equal. apply filter_all. by apply Forall_forall.
    + rewrite filter_none; [done|]. by intros d _ [].
    + rewrite filter_none; [done|]. by intros d _ [].
Qed.

(** On a page of three cards of a user who has one card new and one being
    learnt: two count as new, one as learning. *)
Lemma page_stats_count_every_card_witness :
  page_stats
    (progressMap (Some "user-1"%string)
       [ {| lc_id := "card-1"; lc_songId := "s1"; lc_songTitle := js "Lemon";
            lc_songArtist := None |};
         {| lc_id := "card-2"; lc_songId := "s1"; lc_songTitle := js "Lemon";
            lc_songArtist := None |};
         {| lc_id := "card-3"; lc_songId := "s2"; lc_songTitle := js "Pretender";
            lc_songArtist := None |} ] two_status_table)
    [ {| lc_id := "card-1"; lc_songId := "s1"; lc_songTitle := js "Lemon";
         lc_songArtist := None |};
      {| lc_id := "card-2"; lc_songId := "s1"; lc_songTitle := js "Lemon";
         lc_songArtist := None |};
      {| lc_id := "card-3"; lc_songId := "s2"; lc_songTitle := js "Pretender";
         lc_songArtist := None |} ]
  = {| stats_total := 3; stats_new := 2; stats_learning := 1; stats_mastered := 0 |}.
Proof.
  rewrite (proj1 (page_stats_count_every_card "user-1" (fun _ => None) _
                    two_status_table ltac:(done))).
  vm_compute. reflexivity.
Defined.

End CardListFacts.

(** ** The client stores *)

Module StoreFacts.
Import ServicesRestFacts CardListFacts.

Lemma addToRecent_step (id : string) (s : SongState) :
  head (recentlyPlayed (addToRecent id s)) = Some id /\
  length (recentlyPlayed (addToRecent id s)) <= 10 /\
  (NoDup (recentlyPlayed s) -> NoDup (recentlyPlayed (addToRecent id s))) /\
  (forall x, x ∈ recentlyPlayed (addToRecent id s) ->
     x = id \/ x ∈ recentlyPlayed s) /\
  songs (addToRecent id s) = songs s.
Proof.
  cbn [addToRecent recentlyPlayed songs].
  split; [done|]. split; [rewrite length_take; lia|]. split; [|split; [|done]].
  - intros Hnd. eapply sublist_NoDup; [|apply sublist_take].
    apply NoDup_cons. split.
    + intros [H _]%list_elem_of_filter. done.
    + by apply NoDup_filter.
  - intros x Hx. eapply elem_of_sublist in Hx; [|apply sublist_take].
    apply elem_of_cons in Hx as [->|Hx]; [by left|].
    right. by apply list_elem_of_filter in Hx as [_ ?].
Qed.

(** X23.  The list of recently played songs after any number of plays: the
    song played last comes first, no song is listed twice and at most
    ten are listed, provided the list to start with had no song twice;
    only songs that were listed or have been played are listed, and the
    songs themselves are untouched. *)
Theorem addToRecent_keeps_ten_distinct (ids : list string) (s : SongState) :
  NoDup (recentlyPlayed s) ->
  let s' := foldl (fun st id => addToRecent id st) s ids in
  NoDup (recentlyPlayed s') /\
  (ids <> [] -> length (recentlyPlayed s') <= 10) /\
  head (recentlyPlayed s') = (if ids is [] then head (recentlyPlayed s) else last ids) /\
  (forall x, x ∈ recentlyPlayed s' -> x ∈ ids \/ x ∈ recentlyPlayed s) /\
  songs s' = songs s.
Proof.
  intros Hnd. cbn zeta.
  induction ids as [|id ids IH] using rev_ind.
  - cbn. split; [done|]. split; [done|]. split; [done|]. split; [|done]. by right.
  - rewrite foldl_app. cbn [foldl].
    destruct IH as (Hnd' & _ & _ & Hin & Hsongs).
    destruct (addToRecent_step id (foldl (fun st id0 => addToRecent id0 st) s ids))
      as (Hhead & Hlen & Hnd'' & Hin' & Hsongs').
    split; [by apply Hnd''|]. split; [done|]. split; [|split].
    + rewrite Hhead, last_snoc. by destruct ids.
    + intros x Hx. apply Hin' in Hx as [->|Hx].
      * left. apply elem_of_app. right. apply list_elem_of_here.
      * apply Hin in Hx as [Hx|Hx]; [|by right]. left. apply elem_of_app. by left.
    + by rewrite Hsongs'.
Qed.

Lemma addToRecent_keeps_ten_distinct_witness :
  let s' := foldl (fun st id => addToRecent id st)
              {| songs := []; recentlyPlayed := ["a"; "b"]%string |}
              ["b"; "c"; "b"]%string in
  NoDup (recentlyPlayed s') /\
  (["b"; "c"; "b"]%string <> [] -> length (recentlyPlayed s') <= 10) /\
  head (recentlyPlayed s') = last ["b"; "c"; "b"]%string /\
  (forall x, x ∈ recentlyPlayed s' ->
     x ∈ ["b"; "c"; "b"]%string \/ x ∈ ["a"; "b"]%string) /\
  songs s' = [].
Proof.
  apply (addToRecent_keeps_ten_distinct ["b"; "c"; "b"]%string
           {| songs := []; recentlyPlayed := ["a"; "b"]%string |}).
  apply (bool_decide_unpack _). vm_compute. exact I.
Defined.

Lemma toggle_song_twice (id : string) (song : Song) :
  (fun song =>
     if bool_decide (song_id song = id)
     then {| song_id := song_id song; song_title := song_title song;
             isFavorite := negb (isFavorite song) |}
     else song)
    (if bool_decide (song_id song = id)
     then {| song_id := song_id song; song_title := song_title song;
             isFavorite := negb (isFavorite song) |}
     else song) = song.
Proof.
  destruct song as [i t f]. cbn.
  destruct (decide (i = id)) as [Hid|Hid].
  - rewrite (bool_decide_eq_true_2 _ Hid). cbn.
    rewrite (bool_decide_eq_true_2 _ Hid). by rewrite negb_involutive.
  - rewrite (bool_decide_eq_false_2 _ Hid). cbn.
    by rewrite (bool_decide_eq_false_2 _ Hid).
Qed.

(** [toggleFavorite] flips the flag of the songs with the given id and
    nothing else: the other songs, the ids, the titles, the order of the
    songs and the list of recent plays stay, and toggling twice gives the
    state back. *)
Theorem toggleFavorite_flips_one_flag (id : string) (s : SongState) :
  toggleFavorite id (toggleFavorite id s) = s /\
  recentlyPlayed (toggleFavorite id s) = recentlyPlayed s /\
  (fun song => (song_id song, song_title song)) <$> songs (toggleFavorite id s)
  = (fun song => (song_id song, song_title song)) <$> songs s /\
  forall i song, songs s !! i = Some song ->
    exists song', songs (toggleFavorite id s) !! i = Some song' /\
      isFavorite song'
      = if bool_decide (song_id song = id) then negb (isFavorite song)
        else isFavorite song.
Proof.
  split; [|split; [done|split]].
  - destruct s as [ss rp]. unfold toggleFavorite. cbn. f_equal.
    rewrite map_map. rewrite <- (map_id ss) at 2. apply map_ext.
    intros song. apply toggle_song_twice.
  - cbn. rewrite <- list_fmap_compose. apply list_fmap_ext.
    intros i song _. cbn. by case_bool_decide.
  - intros i song Hi. cbn. rewrite list_lookup_fmap, Hi. cbn.
    eexists. split; [done|]. by case_bool_decide.
Qed.

Lemma find_saved_partialize (ss : list Song) (i : nat) (song : Song) :
  NoDup (song_id <$> ss) -> ss !! i = Some song ->
  find_saved (song_id song)
    (Some (map (fun s => (song_id s, isFavorite s)) ss))
  = Some (song_id song, isFavorite song).
Proof.
  intros Hnd Hi. unfold find_saved.
  assert (list_find (fun e : string * bool => e.1 = song_id song)
            (map (fun s => (song_id s, isFavorite s)) ss)
          = Some (i, (song_id song, isFavorite song))) as ->; [|done].
  apply list_find_Some. split; [|split; [done|]].
  - change (map ?f ss) with (f <$> ss). by rewrite list_lookup_fmap, Hi.
  - intros j [id' fav'] Hj Hlt Heq. cbn in Heq. subst id'.
    change (map ?f ss) with (f <$> ss) in Hj. rewrite list_lookup_fmap in Hj.
    destruct (ss !! j) as [song'|] eqn:Hj'; [|done]. injection Hj as Hid _.
    assert (j = i); [|lia].
    eapply (NoDup_lookup (song_id <$> ss)); [done| |].
    + rewrite list_lookup_fmap, Hj'. cbn. by rewrite Hid.
    + by rewrite list_lookup_fmap, Hi.
Qed.

(** X24.  Favorites and recent plays survive a reload.  When the songs the
    store starts with have distinct ids and a state differs from them in
    its favorite flags only, merging what [partialize] kept of the state
    into the initial state gives the state back. *)
Theorem merge_restores_persisted_state (state initial : SongState) :
  NoDup (song_id <$> songs initial) ->
  (fun song => (song_id song, song_title song)) <$> songs state
  = (fun song => (song_id song, song_title song)) <$> songs initial ->
  merge (partialize state) initial = state.
Proof.
  intros Hnd Hsame. destruct state as [ss rp], initial as [ss0 rp0].
  cbn in *. unfold merge. cbn. f_equal.
  assert (song_id <$> ss = song_id <$> ss0) as Hids.
  { apply (f_equal (fmap fst)) in Hsame.
    by rewrite <- !list_fmap_compose in Hsame. }
  apply list_eq. intros i. change (map ?f ss0) with (f <$> ss0).
  rewrite list_lookup_fmap.
  pose proof (f_equal (fun l => l !! i) Hsame) as Hi. cbn in Hi.
  rewrite !list_lookup_fmap in Hi.
  destruct (ss0 !! i) as [song0|] eqn:H0, (ss !! i) as [song|] eqn:H1; try done.
  cbn in Hi. injection Hi as Hid Htitle. cbn.
  pose proof (find_saved_partialize ss i song) as Hfind.
  unfold find_saved in Hfind. rewrite <- Hid, Hfind; [| |done].
  - cbn. rewrite <- Htitle. by destruct song.
  - by rewrite Hids.
Qed.

Lemma merge_restores_persisted_state_witness :
  merge
    (partialize
       (toggleFavorite "s1"
          {| songs := [ {| song_id := "s1"; song_title := js "Lemon"; isFavorite := false |};
                        {| song_id := "s2"; song_title := js "Pretender"; isFavorite := false |} ];
             recentlyPlayed := ["s2"]%string |}))
    {| songs := [ {| song_id := "s1"; song_title := js "Lemon"; isFavorite := false |};
                  {| song_id := "s2"; song_title := js "Pretender"; isFavorite := false |} ];
       recentlyPlayed := ["s1"]%string |}
  = toggleFavorite "s1"
      {| songs := [ {| song_id := "s1"; song_title := js "Lemon"; isFavorite := false |};
                    {| song_id := "s2"; song_title := js "Pretender"; isFavorite := false |} ];
         recentlyPlayed := ["s2"]%string |}.
Proof.
  apply merge_restores_persisted_state.
  - apply (bool_decide_unpack _). vm_compute. exact I.
  - reflexivity.
Defined.

(** X25.  [toggleFavoriteLine] answers with the new state of the line, which
    is the opposite of the old one; the state of every other line, the
    cards and the current card stay, and a list without repetition stays
    without repetition. *)
Theorem toggleFavoriteLine_flips_one_line (lineId : string) (s : CardState) :
  let answer := (toggleFavoriteLine lineId s).1 in
  let s' := (toggleFavoriteLine lineId s).2 in
  answer = negb (isFavoritedLine lineId s) /\
  isFavoritedLine lineId s' = answer /\
  (forall other, other <> lineId ->
     isFavoritedLine other s' = isFavoritedLine other s) /\
  (NoDup (favoritedLineIds s) -> NoDup (favoritedLineIds s')) /\
  st_cards s' = st_cards s /\ currentCardId s' = currentCardId s.
Proof.
  cbn zeta. unfold toggleFavoriteLine, isFavoritedLine.
  case_bool_decide as Hfav; cbn [fst snd favoritedLineIds st_cards currentCardId negb].
  - split; [done|]. split; [|split; [|split; [|done]]].
    + apply bool_decide_eq_false_2. by intros [H _]%list_elem_of_filter.
    + intros other Hother. apply bool_decide_ext.
      rewrite list_elem_of_filter. tauto.
    + apply NoDup_filter.
  - split; [done|]. split; [|split; [|split; [|done]]].
    + apply bool_decide_eq_true_2, elem_of_app. right. apply list_elem_of_here.
    + intros other Hother. apply bool_decide_ext.
      rewrite elem_of_app, list_elem_of_singleton. tauto.
    + intros Hnd. apply NoDup_app. split; [done|]. split; [|apply NoDup_singleton].
      by intros x Hx ->%list_elem_of_singleton.
Qed.

Lemma store_status_counts_sum (cards : list StoreCard) :
  length (filter (fun c => Is_true (status_eqb (sc_status c) StatusNew)) cards)
  + length (filter (fun c => Is_true (status_eqb (sc_status c) StatusLearning)) cards)
  + length (filter (fun c => Is_true (status_eqb (sc_status c) StatusMastered)) cards)
  = length cards.
Proof.
  induction cards as [|c cards IH]; [done|].
  rewrite !filter_cons. destruct (sc_status c); cbn;
    repeat (destruct (decide _) as [?|?]; try done; cbn); lia.
Qed.

(** The statistics of the card store follow its actions.  The three
    counts always add up to the total; adding a card raises the total and
    the count of new cards by one; a change of status keeps the total;
    and after a card is deleted it is neither found nor the current
    card, while every card with another id is still there. *)
Theorem store_statistics_follow_actions (s : CardState) :
  stats_total (store_getCardStats s)
  = stats_new (store_getCardStats s) + stats_learning (store_getCardStats s)
    + stats_mastered (store_getCardStats s) /\
  (forall id now songId,
     let s' := (addCard id now songId s).2 in
     stats_total (store_getCardStats s') = S (stats_total (store_getCardStats s)) /\
     stats_new (store_getCardStats s') = S (stats_new (store_getCardStats s)) /\
     store_getCardById id s'
     = Some {| sc_id := id; sc_songId := songId; sc_status := StatusNew;
               sc_updatedAt := now |}) /\
  (forall now id newStatus,
     stats_total (store_getCardStats (updateStatus now id newStatus s))
     = stats_total (store_getCardStats s)) /\
  (forall id,
     let s' := store_deleteCard id s in
     store_getCardById id s' = None /\
     currentCardId s' <> Some id /\
     forall c, sc_id c <> id -> (c ∈ st_cards s' <-> c ∈ st_cards s)).
Proof.
  split; [|split; [|split]].
  - cbn. by rewrite store_status_counts_sum.
  - intros id now songId. unfold store_getCardStats, addCard.
    cbn [snd st_cards stats_total stats_new]. split; [done|]. split.
    + rewrite filter_cons_True by done. done.
    + unfold store_getCardById. cbn. by rewrite decide_True.
  - intros now id newStatus. cbn. by rewrite length_map.
  - intros id. cbn zeta. split; [|split].
    + unfold store_getCardById, store_deleteCard. cbn.
      destruct (list_find _ _) as [[i c]|] eqn:Hfind; [|done].
      apply list_find_Some in Hfind as (Hi & Hid & _).
      apply list_elem_of_lookup_2, list_elem_of_filter in Hi as [Hne _]. done.
    + cbn. case_bool_decide as Hcur; [done|]. done.
    + intros c Hc. cbn. rewrite list_elem_of_filter. tauto.
Qed.

End StoreFacts.

(** ** The study list of the cards page *)

Module PageFacts.
Import ServicesRestFacts CardListFacts.

Lemma insert_by_front {A} (key : A -> Z) (x : A) (l : list A) :
  Forall (fun y => (key x <= key y)%Z) l -> insert_by key x l = x :: l.
Proof.
  destruct 1 as [|y l Hy _]; [done|]. cbn.
  by rewrite (proj2 (Z.leb_le _ _) Hy).
Qed.

Lemma insert_by_skip {A} (key : A -> Z) (x : A) (l1 l2 : list A) :
  Forall (fun y => (key y < key x)%Z) l1 ->
  insert_by key x (l1 ++ l2) = l1 ++ insert_by key x l2.
Proof.
  induction 1 as [|y l1 Hy _ IH]; [done|]. cbn.
  rewrite (proj2 (Z.leb_gt _ _) Hy). by rewrite IH.
Qed.

Lemma with_status_order st cards :
  Forall (fun c => status_order c.2 = status_order st) (with_status st cards).
Proof.
  apply Forall_forall. intros c [Hc _]%list_elem_of_filter.
  by destruct (c.2), st.
Qed.

Lemma sort_by_status (cards : list (ClientCard * CardStatus)) :
  sort_by (fun c => status_order c.2) cards
  = with_status StatusNew cards ++ with_status StatusLearning cards
    ++ with_status StatusMastered cards.
Proof.
  induction cards as [|[card st] cards IH]; [done|].
  change (sort_by (fun c => status_order c.2) ((card, st) :: cards))
    with (insert_by (fun c => status_order c.2) (card, st)
            (sort_by (fun c => status_order c.2) cards)).
  rewrite IH. unfold with_status at 4 5 6. rewrite !filter_cons. cbn [snd].
  pose proof (with_status_order StatusNew cards) as HN.
  pose proof (with_status_order StatusLearning cards) as HL.
  pose proof (with_status_order StatusMastered cards) as HM.
  fold (with_status StatusNew cards) (with_status StatusLearning cards)
       (with_status StatusMastered cards).
  destruct st; cbn [status_eqb];
    repeat (destruct (decide _) as [?|?]; try done).
  - apply insert_by_front. rewrite !Forall_app. repeat split;
      (eapply Forall_impl; [eassumption|]); cbn; intros ? ->; cbn; lia.
  - rewrite insert_by_skip.
    + f_equal. apply insert_by_front. rewrite !Forall_app. repeat split;
        (eapply Forall_impl; [eassumption|]); cbn; intros ? ->; cbn; lia.
    + eapply Forall_impl; [exact HN|]. cbn. intros ? ->. cbn. lia.
  - rewrite app_assoc, insert_by_skip.
    + rewrite <- app_assoc. do 2 f_equal. apply insert_by_front.
      eapply Forall_impl; [exact HM|]. cbn. intros ? ->. cbn. lia.
    + rewrite Forall_app. split;
        (eapply Forall_impl; [eassumption|]); cbn; intros ? ->; cbn; lia.
Qed.

Lemma sort_by_status_sorted (cards : list (ClientCard * CardStatus)) :
  StronglySorted (fun c d => (status_order c.2 <= status_order d.2)%Z)
    (sort_by (fun c => status_order c.2) cards).
Proof.
  rewrite sort_by_status.
  assert (forall st l,
            Forall (fun c : ClientCard * CardStatus =>
                      status_order c.2 = status_order st) l ->
            StronglySorted (fun c d => (status_order c.2 <= status_order d.2)%Z) l)
    as Hconst.
  { intros st l. induction 1 as [|c l Hc Hl IH]; [constructor|].
    constructor; [done|]. eapply Forall_impl; [exact Hl|].
    cbn. intros d Hd. rewrite Hc, Hd. lia. }
  pose proof (with_status_order StatusNew cards) as HN.
  pose proof (with_status_order StatusLearning cards) as HL.
  pose proof (with_status_order StatusMastered cards) as HM.
  rewrite Forall_forall in HN, HL, HM.
  rewrite !StronglySorted_app. repeat split.
  - intros c d Hc [Hd|Hd]%elem_of_app;
      rewrite (HN c Hc); [rewrite (HL d Hd)|rewrite (HM d Hd)]; cbn; lia.
  - apply (Hconst StatusNew). by apply Forall_forall.
  - intros c d Hc Hd. rewrite (HL c Hc), (HM d Hd). cbn. lia.
  - apply (Hconst StatusLearning). by apply Forall_forall.
  - apply (Hconst StatusMastered). by apply Forall_forall.
Qed.

(** X26.  The study list puts the new cards first, then the cards being
    learned, then the mastered ones, each kind in the order of the page,
    and is cut to the study limit, if there is one.  So a card is left
    out only when every card of the list is at least as urgent. *)
Theorem studyCards_new_cards_first
    (cards : list (ClientCard * CardStatus)) (studyLimit : nat) :
  studyCards cards studyLimit
  = (if bool_decide (studyLimit = 0) then fun l => l else take studyLimit)
      (with_status StatusNew cards ++ with_status StatusLearning cards
       ++ with_status StatusMastered cards) /\
  forall c d, c ∈ studyCards cards studyLimit -> d ∈ cards ->
    d ∉ studyCards cards studyLimit ->
    (status_order c.2 <= status_order d.2)%Z.
Proof.
  split.
  - unfold studyCards. rewrite sort_by_status. by case_bool_decide.
  - intros c d Hc Hd Hnd. unfold studyCards in Hc, Hnd.
    assert (d ∈ sort_by (fun c => status_order c.2) cards) as Hd'.
    { rewrite sort_by_status, !elem_of_app. unfold with_status.
      rewrite !list_elem_of_filter. destruct d as [card []]; cbn; tauto. }
    case_bool_decide as Hlimit; [done|].
    pose proof (sort_by_status_sorted cards) as Hsorted.
    rewrite <- (take_drop studyLimit (sort_by _ cards)) in Hsorted, Hd'.
    apply elem_of_app in Hd' as [Hd'|Hd']; [done|].
    by eapply (StronglySorted_app_1_elem_of _ _ _ c d) in Hsorted.
Qed.

End PageFacts.

(** ** The lyrics with their furigana *)

Module RenderFacts.

Lemma string_slice_within (a b : Z) (s : jsstring) :
  (0 <= a <= b)%Z -> (b <= Z.of_nat (length s))%Z ->
  string_slice a b s = take (Z.to_nat b - Z.to_nat a) (drop (Z.to_nat a) s).
Proof.
  intros Hab Hb. unfold string_slice, relative_index.
  destruct (a <? 0)%Z eqn:Ha; [lia|]. destruct (b <? 0)%Z eqn:Hb'; [lia|].
  rewrite !Z.min_l by lia. f_equal. lia.
Qed.

Lemma spans_chained_le lastEnd items len :
  spans_chained lastEnd items len -> (lastEnd <= len)%Z.
Proof.
  revert lastEnd. induction items as [|item items IH]; intros lastEnd; cbn; [done|].
  intros [H Hrest]. apply IH in Hrest. lia.
Qed.

Lemma shown_text_app segs1 segs2 :
  shown_text (segs1 ++ segs2) = shown_text segs1 ++ shown_text segs2.
Proof. unfold shown_text. by rewrite map_app, concat_app. Qed.

Lemma take_then_slice (a b : Z) (s : jsstring) :
  (0 <= a <= b)%Z -> (b <= Z.of_nat (length s))%Z ->
  take (Z.to_nat a) s ++ string_slice a b s = take (Z.to_nat b) s.
Proof.
  intros Hab Hb. rewrite string_slice_within by done.
  rewrite take_take_drop. f_equal. lia.
Qed.

Lemma render_items_shown contentJa items result lastEnd :
  (0 <= lastEnd)%Z ->
  shown_text result = take (Z.to_nat lastEnd) contentJa ->
  spans_chained lastEnd items (Z.of_nat (length contentJa)) ->
  let state := foldl (render_item contentJa) (result, lastEnd) items in
  shown_text state.1 = take (Z.to_nat state.2) contentJa /\
  (0 <= state.2 <= Z.of_nat (length contentJa))%Z.
Proof.
  revert result lastEnd.
  induction items as [|item items IH]; intros result lastEnd H0 Hshown Hch.
  - cbn in *. split; [done|lia].
  - cbn [foldl]. destruct Hch as [Hspan Hrest].
    pose proof (spans_chained_le _ _ _ Hrest) as Hend.
    unfold render_item at 2.
    set (result1 := if (lastEnd <? f_start item)%Z then _ else result).
    assert (shown_text result1 = take (Z.to_nat (f_start item)) contentJa) as H1.
    { subst result1. destruct (lastEnd <? f_start item)%Z eqn:Hlt.
      - rewrite shown_text_app, Hshown. unfold shown_text at 1. cbn.
        rewrite app_nil_r. apply take_then_slice; lia.
      - apply Z.ltb_ge in Hlt. rewrite Hshown. f_equal. lia. }
    set (result2 := if _ && _ then _ else _).
    assert (shown_text result2 = take (Z.to_nat (f_end item)) contentJa) as H2.
    { subst result2. destruct (_ && _);
        rewrite shown_text_app, H1; unfold shown_text at 1; cbn;
        rewrite app_nil_r; apply take_then_slice; lia. }
    apply IH; [lia|done|done].
Qed.

(** X27.  When the spans of the furigana items, taken in the order of their
    starts, lie within the line and do not overlap, the line is shown
    whole: the texts of the segments put together, readings apart, are
    the text of the line. *)
Theorem renderWithFurigana_shows_the_line
    (contentJa : jsstring) (furiganaItems : list FuriganaItem) :
  spans_chained 0 (sort_by f_start furiganaItems) (Z.of_nat (length contentJa)) ->
  shown_text (renderWithFurigana contentJa furiganaItems) = contentJa.
Proof.
  intros Hch. unfold renderWithFurigana.
  destruct furiganaItems as [|item items];
    [unfold shown_text; cbn; by rewrite app_nil_r|].
  pose proof (render_items_shown contentJa (sort_by f_start (item :: items)) [] 0%Z
                ltac:(lia) ltac:(done) Hch) as [Hshown Hlast].
  cbn zeta in *.
  destruct (foldl _ _ _) as [result lastEnd]. cbn [fst snd] in *.
  destruct (lastEnd <? Z.of_nat (length contentJa))%Z eqn:Hlt.
  - rewrite shown_text_app, Hshown. unfold shown_text at 1. cbn.
    rewrite app_nil_r, take_then_slice by lia.
    rewrite Nat2Z.id. apply take_ge. lia.
  - apply Z.ltb_ge in Hlt. rewrite Hshown. apply take_ge. lia.
Qed.

Lemma renderWithFurigana_shows_the_line_witness :
  shown_text
    (renderWithFurigana (js "yume no naka")
       [ {| f_word := js "naka"; f_reading := js "NAKA"; f_start := 8; f_end := 12 |};
         {| f_word := js "yume"; f_reading := js "YUME"; f_start := 0; f_end := 4 |} ])
  = js "yume no naka".
Proof.
  apply renderWithFurigana_shows_the_line. vm_compute. intuition discriminate.
Defined.

End RenderFacts.

(** ** The cards page and the server *)

Module StudyFacts.
Import ProgressFacts.

Lemma allCards_study cardId newStatus groups :
  allCards (map (fun group =>
                   {| cg_songId := cg_songId group;
                      cg_cards := map (study_card cardId newStatus) (cg_cards group) |})
                groups)
  = map (restudy cardId newStatus) (allCards groups).
Proof.
  unfold allCards. induction groups as [|g groups IH]; [done|].
  cbn [map flat_map]. rewrite IH, map_app. f_equal.
  cbn [cg_cards]. rewrite !map_map. done.
Qed.

Lemma allCards_statuses groups :
  Forall (fun p => p.2 = status_or_new p.1) (allCards groups).
Proof.
  apply Forall_forall. intros p Hp. unfold allCards in Hp.
  apply list_elem_of_In, in_flat_map in Hp as (g & _ & Hp).
  apply in_map_iff in Hp as (c & <- & _). done.
Qed.

Lemma restudy_other cardId newStatus l :
  Forall (fun p => p.2 = status_or_new p.1) l ->
  cardId ∉ (fun p : ClientCard * CardStatus => cc_id p.1) <$> l ->
  map (restudy cardId newStatus) l = l.
Proof.
  induction 1 as [|[c st] l Hp _ IH]; [done|].
  cbn [fmap list_fmap]. intros [Hne Hl]%not_elem_of_cons. cbn [map].
  rewrite IH by done. f_equal.
  unfold restudy, study_card. cbn in *.
  rewrite bool_decide_eq_false_2 by done. by rewrite Hp.
Qed.

Lemma find_other cardId (l1 l2 : list (ClientCard * CardStatus)) x :
  cardId ∉ (fun p : ClientCard * CardStatus => cc_id p.1) <$> l1 ->
  cc_id x.1 = cardId ->
  snd <$> list_find (fun c : ClientCard * CardStatus => cc_id c.1 = cardId)
            (l1 ++ x :: l2) = Some x.
Proof.
  intros Hl1 Hx.
  assert (list_find (fun c : ClientCard * CardStatus => cc_id c.1 = cardId)
            (l1 ++ x :: l2) = Some (length l1, x)) as ->; [|done].
  apply list_find_Some. split; [|split; [done|]].
  - by rewrite list_lookup_middle.
  - intros j y Hj Hlt Hy. apply Hl1. apply list_elem_of_fmap. exists y.
    split; [done|]. rewrite lookup_app_l in Hj by done.
    by eapply list_elem_of_lookup_2.
Qed.

Lemma stats_of_middle l1 (x : ClientCard * CardStatus) l2 :
  stats_of (l1 ++ x :: l2)
  = set_stat x.2 (get_stat x.2 (stats_of (l1 ++ l2)) + 1)
      {| cs_total := cs_total (stats_of (l1 ++ l2)) + 1;
         cs_new := cs_new (stats_of (l1 ++ l2));
         cs_learning := cs_learning (stats_of (l1 ++ l2));
         cs_mastered := cs_mastered (stats_of (l1 ++ l2)) |}.
Proof.
  unfold stats_of. rewrite !filter_app, !filter_cons, !length_app.
  destruct x as [c []]; cbn;
    repeat (destruct (decide _) as [?|?]; try done; cbn);
    rewrite ?length_app; cbn; f_equal; lia.
Qed.

(** X28.  The statistics of the cards page stay in step with its cards.  When
    the ids of the cards are distinct, the card whose status is changed
    is on the page and the statistics agree with the cards, they still
    agree after [handleStudyStatusChange]: the count of the old status
    falls by one and the count of the new status rises by one, or nothing
    changes when the two are the same. *)
Theorem handleStudyStatusChange_keeps_statistics
    (cardId : string) (newStatus : CardStatus)
    (songGroups : list ClientGroup) (stats : ClientStats) :
  NoDup ((fun p : ClientCard * CardStatus => cc_id p.1) <$> allCards songGroups) ->
  cardId ∈ (fun p : ClientCard * CardStatus => cc_id p.1) <$> allCards songGroups ->
  stats = stats_of (allCards songGroups) ->
  (handleStudyStatusChange cardId newStatus songGroups stats).2
  = stats_of (allCards (handleStudyStatusChange cardId newStatus songGroups stats).1).
Proof.
  intros Hnd Hin ->. unfold handleStudyStatusChange. cbn [fst snd].
  rewrite allCards_study.
  pose proof (allCards_statuses songGroups) as Hst.
  apply list_elem_of_fmap in Hin as (x & Hx & Hin).
  apply list_elem_of_split in Hin as (l1 & l2 & Hsplit).
  rewrite Hsplit in *. clear Hsplit.
  rewrite fmap_app in Hnd. cbn [fmap list_fmap] in Hnd.
  apply NoDup_app in Hnd as (_ & Hdisj & Hnd2).
  apply NoDup_cons in Hnd2 as [Hl2 _].
  assert (cardId ∉ (fun p : ClientCard * CardStatus => cc_id p.1) <$> l1) as Hl1.
  { intros H1. apply (Hdisj _ H1). rewrite Hx. apply list_elem_of_here. }
  rewrite <- Hx in Hl2.
  apply Forall_app in Hst as [Hst1 Hst2]. apply Forall_cons in Hst2 as [Hstx Hst2].
  rewrite find_other by done.
  rewrite map_app. cbn [map]. rewrite !restudy_other by done.
  assert (restudy cardId newStatus x
          = (study_card cardId newStatus x.1, newStatus)) as ->.
  { unfold restudy, study_card. rewrite bool_decide_eq_true_2 by done. done. }
  rewrite !stats_of_middle. cbn [snd].
  generalize (stats_of (l1 ++ l2)). intros [t n l m].
  case_bool_decide as Hne.
  - destruct (x.2), newStatus; try done; cbn; f_equal; lia.
  - rewrite Hne. done.
Qed.

Lemma handleStudyStatusChange_keeps_statistics_witness :
  (handleStudyStatusChange "c2" StatusMastered
     [ {| cg_songId := "s1";
          cg_cards := [ {| cc_id := "c1"; cc_songId := "s1"; cc_progress := None |};
                        {| cc_id := "c2"; cc_songId := "s1";
                           cc_progress := Some {| pe_status := StatusLearning;
                                                  pe_reviewCount := 3 |} |} ] |} ]
     {| cs_total := 2; cs_new := 1; cs_learning := 1; cs_mastered := 0 |}).2
  = {| cs_total := 2; cs_new := 1; cs_learning := 0; cs_mastered := 1 |}.
Proof.
  rewrite (handleStudyStatusChange_keeps_statistics "c2" StatusMastered).
  - vm_compute. reflexivity.
  - apply (bool_decide_unpack _). vm_compute. exact I.
  - apply (bool_decide_unpack _). vm_compute. exact I.
  - vm_compute. reflexivity.
Defined.

(** X29.  The page and the server count reviews alike.  When the page shows
    for a card the progress that GET /api/cards reported from the table,
    and the request of the page to the progress route succeeds, the
    progress the page then shows (the new status and one more review) is
    the progress of the row the server stored, which a reload would
    report. *)
Theorem study_card_agrees_with_server
    (dbNow reviewedAt now : Z) (userId cardId : string) (card : ClientCard)
    (data : list ListedCard) (body : json) (newStatus : CardStatus)
    (references_hold : bool) (tbl tbl' : gmap (string * string) CardProgress)
    (row : option CardProgress) :
  cc_id card = cardId ->
  cardId ∈ lc_id <$> data ->
  cc_progress card = progressMap (Some userId) data tbl cardId ->
  updateProgressSchema body = Some newStatus ->
  handleUpdateProgress dbNow reviewedAt now (Some userId) cardId (Some body)
    references_hold tbl = (ProgressData row, tbl') ->
  cc_progress (study_card cardId newStatus card)
  = progressMap (Some userId) data tbl' cardId /\
  cc_progress (study_card cardId newStatus card)
  = (fun p => {| pe_status := status p; pe_reviewCount := reviewCount p |}) <$> row.
Proof.
  intros Hid Hdata Hprogress Hschema Hroute.
  unfold handleUpdateProgress in Hroute.
  case_bool_decide as Hempty; [done|]. rewrite Hschema in Hroute.
  pose proof (updateCardStatus_outcome userId cardId dbNow reviewedAt now
                references_hold newStatus tbl) as Ho.
  destruct (updateCardStatus _ _ _ _ _ _ _ _) as [[returned|e] tbl1]; [|done].
  destruct Ho as (_ & progress & -> & -> & Hs & Hc & _).
  injection Hroute as <- <-.
  pose proof (lookup_insert_eq tbl (userId, cardId) progress) as Hl.
  unfold progressMap in *.
  rewrite bool_decide_eq_false_2 in * by done.
  rewrite bool_decide_eq_true_2 in * by done.
  rewrite Hl. cbn [fmap option_fmap option_map].
  unfold study_card. rewrite bool_decide_eq_true_2 by done. cbn [cc_progress].
  assert (next_reviewCount card = reviewCount progress) as ->; [|by rewrite Hs].
  rewrite Hc. unfold next_reviewCount, row_before.
  rewrite Hprogress.
  destruct (tbl !! (userId, cardId)) as [old|]; cbn; [|done].
  destruct (reviewCount old =? 0)%Z eqn:H0; [|done].
  apply Z.eqb_eq in H0. by rewrite H0.
Qed.

Lemma study_card_agrees_with_server_witness :
  cc_progress
    (study_card "card-1" StatusMastered
       {| cc_id := "card-1"; cc_songId := "s1";
          cc_progress := Some {| pe_status := StatusNew; pe_reviewCount := 0 |} |})
  = Some {| pe_status := StatusMastered; pe_reviewCount := 1 |}.
Proof.
  pose proof
    (study_card_agrees_with_server 2000 2000 2001 "user-1" "card-1"
       {| cc_id := "card-1"; cc_songId := "s1";
          cc_progress := Some {| pe_status := StatusNew; pe_reviewCount := 0 |} |}
       [ {| lc_id := "card-1"; lc_songId := "s1"; lc_songTitle := js "Lemon";
            lc_songArtist := None |} ]
       (JObj [(js "status", JStr (js "mastered"))]) StatusMastered false
       fresh_table
       (handleUpdateProgress 2000 2000 2001 (Some "user-1"%string) "card-1"
          (Some (JObj [(js "status", JStr (js "mastered"))])) false fresh_table).2
       (Some {| status := StatusMastered; lastReviewedAt := Some 2000%Z;
                reviewCount := 1; createdAt := 1000; updatedAt := 2001 |})
       eq_refl
       ltac:(apply (bool_decide_unpack _); vm_compute; exact I)
       ltac:(vm_compute; reflexivity)
       ltac:(vm_compute; reflexivity)
       ltac:(vm_compute; reflexivity)) as [_ H].
  exact H.
Defined.

End StudyFacts.

(** ** The middleware *)

Module MiddlewareFacts.

(** X30.  The redirects of the middleware settle at once, and the guarded pages
    are guarded.  The page a request is redirected to is passed on when
    requested with the same cookie: the home page for a signed-in
    visitor, the login page for one who is not, with the path asked for
    as its callback.  Without a session cookie, or with an empty one, no
    path under a protected or an admin route is passed on; with a
    non-empty cookie, whatever its value, every path is passed on that is
    not under the login or the register route, the admin paths too. *)
Theorem middleware_redirects_settle (pathname : jsstring)
    (sessionCookie : option jsstring) :
  match middleware pathname sessionCookie with
  | RedirectHome => middleware (js "/") sessionCookie = PassOn
  | RedirectLogin callbackUrl =>
      callbackUrl = pathname /\ middleware (js "/login") sessionCookie = PassOn
  | PassOn =>
      some_prefix protectedRoutes pathname || some_prefix adminRoutes pathname = true ->
      exists value, sessionCookie = Some value /\ value <> []
  end /\
  forall value, value <> [] -> some_prefix authRoutes pathname = false ->
    middleware pathname (Some value) = PassOn.
Proof.
  split.
  2:{ intros value Hne Hauth. unfold middleware.
      rewrite bool_decide_eq_false_2 by done. by rewrite Hauth. }
  unfold middleware.
  destruct sessionCookie as [value|].
  - destruct (decide (value = [])) as [->|Hne].
    + cbn [negb andb bool_decide]. rewrite bool_decide_eq_true_2 by done.
      cbn [negb andb].
      destruct (some_prefix protectedRoutes pathname); [done|].
      destruct (some_prefix adminRoutes pathname); [done|]. done.
    + rewrite bool_decide_eq_false_2 by done. cbn [negb andb].
      destruct (some_prefix authRoutes pathname); [done|].
      intros _. by exists value.
  - cbn [negb andb].
    destruct (some_prefix protectedRoutes pathname); [done|].
    destruct (some_prefix adminRoutes pathname); [done|]. done.
Qed.

End MiddlewareFacts.
